(** * OpenInterviewAI: the adaptive interview flow of [InterviewPage.jsx]

    A shallow embedding of the flow-control code of the React component
    [InterviewPage] (src/components/InterviewPage.jsx): the constants, the
    normalisation done by [callInterviewerLlm], the two callbacks
    [askQuestion] and [handleSubmitAnswer], [handleStartInterview] and the
    effect that starts the interview.

    Modelling choices.
    - React state is a record [State]; a setter is a function on it.
    - A callback reads the state variables through its closure: the values
      of the render in which the callback was made.  The closure is the
      argument [c]; the setters act on the threaded state [s].  The
      dependency lists of the two callbacks hold every state variable they
      read, so when an event starts the closure is the state of that moment
      ([submitAnswer], [startInterviewEffect]); inside one chain of calls the
      closure stays what it was, also in the call [askQuestion] makes to
      itself.
    - The three LLM collaborators are oracles: the parsed answer of a call, or
      a rejection (network failure, unparsable text).  The answers of
      the interviewer LLM come as a list, one for each call in sequence; a
      chain that needs more answers than the list holds does not complete
      ([None]).
    - The code is read twice.  [askQuestion], [handleSubmitAnswer] and
      [startInterviewEffect] follow one event (the start effect, one
      submitted answer) through its chain of calls to its end; they say what
      an event does when nothing else happens before it is over.  [Page],
      [Event] and [fire] cut the same functions at their calls and let
      answers be sent while calls are awaited, as the page does after the call
      that [askQuestion] makes to itself; [session] holds the pages that can
      be shown.  [reachable] holds the states between two events run to
      their end; they are the pages with no call awaited of the sessions in
      which no answer is sent while a call is awaited.
    - The message list, the audio queue, speech capture and the text refs that
      only feed the prompts are left out: no decision of the flow reads
      them. *)

From Stdlib Require Import ZArith List String Bool Arith Lia QArith.
From Stdlib Require Import Ascii DecimalString.
Import ListNotations.

Local Open Scope string_scope.
Local Open Scope list_scope.
Local Open Scope nat_scope.

(** ** Constants *)

Module ACTION_CODES.
Definition REPEAT_QUESTION : Z := 1%Z.
Definition CLARIFY_QUESTION : Z := 2%Z.
Definition NEXT_QUESTION : Z := 3%Z.
Definition NEXT_TOPIC : Z := 4%Z.
Definition END_INTERVIEW : Z := 5%Z.
End ACTION_CODES.
Import ACTION_CODES.

Definition MAX_ATTEMPTS_PLANNED : nat := 3.
Definition MAX_FOLLOW_UP_STREAK : nat := 3.

(** ** Data *)

(** The plan the planner LLM returns: [{ topics: [{ name, questions }] }]. *)
Record Topic := { name : string; questions : list string }.
Record Plan := { topics : list Topic }.

(** The value of [interviewState]. *)
Inductive Phase := SETUP | PLANNING | PLANNING_COMPLETE | IN_PROGRESS | ENDED.

Definition Phase_eqb (a b : Phase) : bool :=
  match a, b with
  | SETUP, SETUP | PLANNING, PLANNING | PLANNING_COMPLETE, PLANNING_COMPLETE
  | IN_PROGRESS, IN_PROGRESS | ENDED, ENDED => true
  | _, _ => false
  end.

(** The outcome of awaiting a collaborator. *)
Inductive Result (A : Type) :=
| Resolved (a : A)
| Rejected.
Arguments Resolved {A} a.
Arguments Rejected {A}.

(** What [parseLlmJson] hands to [callInterviewerLlm]. *)
Record InterviewerOutput := { io_type : string; io_text : string }.

(** The monitor's JSON.  [actionCode] is whatever integer the LLM wrote; the
    code compares it with [===] against 1..5, so a value of another JS type
    behaves like an integer outside that range.  The metrics are JSON
    numbers that the flow stores and never reads; they are kept as
    rationals. *)
Record Metrics := { accuracy : Q; relevance : Q; clarity : Q; completeness : Q }.
Record MonitorOutput := {
  mo_topicIndex : Z;
  mo_questionIndex : Z;
  metrics : Metrics;
  actionCode : Z;
  reason : string;
  discussion_point : option string
}.

(** The [type] field added to a log entry. *)
Inductive TurnType := planned | follow_up.

(** An entry of [interviewLog]: [{ ...monitorOutput, type }]. *)
Record LogEntry := { le_output : MonitorOutput; le_type : TurnType }.

(** The object kept in [pausedState]. *)
Record Paused := {
  topicIndex : nat;
  questionIndex : nat;
  attempts : nat;
  resumingActionCode : Z
}.

(** The state variables of the component that the flow reads or writes. *)
Record State := {
  interviewPlan : option Plan;
  currentTopicIndex : nat;
  currentQuestionIndex : nat;
  currentQuestionAttempts : nat;
  interviewLog : list LogEntry;
  interviewState : Phase;
  isLoading : bool;
  isFollowUpActive : bool;
  currentFollowUpQuestionText : option string;
  pausedState : option Paused;
  currentFollowUpStreak : nat
}.

(** The state of the first render ([useState] initial values). *)
Definition initialState : State :=
  {| interviewPlan := None; currentTopicIndex := 0; currentQuestionIndex := 0;
     currentQuestionAttempts := 0; interviewLog := []; interviewState := SETUP;
     isLoading := false; isFollowUpActive := false;
     currentFollowUpQuestionText := None; pausedState := None;
     currentFollowUpStreak := 0 |}.

(** ** Setters *)

Definition setInterviewPlan (v : option Plan) (s : State) : State :=
  {| interviewPlan := v; currentTopicIndex := currentTopicIndex s;
     currentQuestionIndex := currentQuestionIndex s;
     currentQuestionAttempts := currentQuestionAttempts s;
     interviewLog := interviewLog s; interviewState := interviewState s;
     isLoading := isLoading s; isFollowUpActive := isFollowUpActive s;
     currentFollowUpQuestionText := currentFollowUpQuestionText s;
     pausedState := pausedState s;
     currentFollowUpStreak := currentFollowUpStreak s |}.

Definition setCurrentTopicIndex (v : nat) (s : State) : State :=
  {| interviewPlan := interviewPlan s; currentTopicIndex := v;
     currentQuestionIndex := currentQuestionIndex s;
     currentQuestionAttempts := currentQuestionAttempts s;
     interviewLog := interviewLog s; interviewState := interviewState s;
     isLoading := isLoading s; isFollowUpActive := isFollowUpActive s;
     currentFollowUpQuestionText := currentFollowUpQuestionText s;
     pausedState := pausedState s;
     currentFollowUpStreak := currentFollowUpStreak s |}.

Definition setCurrentQuestionIndex (v : nat) (s : State) : State :=
  {| interviewPlan := interviewPlan s; currentTopicIndex := currentTopicIndex s;
     currentQuestionIndex := v;
     currentQuestionAttempts := currentQuestionAttempts s;
     interviewLog := interviewLog s; interviewState := interviewState s;
     isLoading := isLoading s; isFollowUpActive := isFollowUpActive s;
     currentFollowUpQuestionText := currentFollowUpQuestionText s;
     pausedState := pausedState s;
     currentFollowUpStreak := currentFollowUpStreak s |}.

Definition setCurrentQuestionAttempts (v : nat) (s : State) : State :=
  {| interviewPlan := interviewPlan s; currentTopicIndex := currentTopicIndex s;
     currentQuestionIndex := currentQuestionIndex s;
     currentQuestionAttempts := v;
     interviewLog := interviewLog s; interviewState := interviewState s;
     isLoading := isLoading s; isFollowUpActive := isFollowUpActive s;
     currentFollowUpQuestionText := currentFollowUpQuestionText s;
     pausedState := pausedState s;
     currentFollowUpStreak := currentFollowUpStreak s |}.

(** [setInterviewLog] is called with an updater [prev => ...] or a value. *)
Definition setInterviewLog (f : list LogEntry -> list LogEntry) (s : State) : State :=
  {| interviewPlan := interviewPlan s; currentTopicIndex := currentTopicIndex s;
     currentQuestionIndex := currentQuestionIndex s;
     currentQuestionAttempts := currentQuestionAttempts s;
     interviewLog := f (interviewLog s); interviewState := interviewState s;
     isLoading := isLoading s; isFollowUpActive := isFollowUpActive s;
     currentFollowUpQuestionText := currentFollowUpQuestionText s;
     pausedState := pausedState s;
     currentFollowUpStreak := currentFollowUpStreak s |}.

Definition setInterviewState (v : Phase) (s : State) : State :=
  {| interviewPlan := interviewPlan s; currentTopicIndex := currentTopicIndex s;
     currentQuestionIndex := currentQuestionIndex s;
     currentQuestionAttempts := currentQuestionAttempts s;
     interviewLog := interviewLog s; interviewState := v;
     isLoading := isLoading s; isFollowUpActive := isFollowUpActive s;
     currentFollowUpQuestionText := currentFollowUpQuestionText s;
     pausedState := pausedState s;
     currentFollowUpStreak := currentFollowUpStreak s |}.

Definition setIsLoading (v : bool) (s : State) : State :=
  {| interviewPlan := interviewPlan s; currentTopicIndex := currentTopicIndex s;
     currentQuestionIndex := currentQuestionIndex s;
     currentQuestionAttempts := currentQuestionAttempts s;
     interviewLog := interviewLog s; interviewState := interviewState s;
     isLoading := v; isFollowUpActive := isFollowUpActive s;
     currentFollowUpQuestionText := currentFollowUpQuestionText s;
     pausedState := pausedState s;
     currentFollowUpStreak := currentFollowUpStreak s |}.

Definition setIsFollowUpActive (v : bool) (s : State) : State :=
  {| interviewPlan := interviewPlan s; currentTopicIndex := currentTopicIndex s;
     currentQuestionIndex := currentQuestionIndex s;
     currentQuestionAttempts := currentQuestionAttempts s;
     interviewLog := interviewLog s; interviewState := interviewState s;
     isLoading := isLoading s; isFollowUpActive := v;
     currentFollowUpQuestionText := currentFollowUpQuestionText s;
     pausedState := pausedState s;
     currentFollowUpStreak := currentFollowUpStreak s |}.

Definition setCurrentFollowUpQuestionText (v : option string) (s : State) : State :=
  {| interviewPlan := interviewPlan s; currentTopicIndex := currentTopicIndex s;
     currentQuestionIndex := currentQuestionIndex s;
     currentQuestionAttempts := currentQuestionAttempts s;
     interviewLog := interviewLog s; interviewState := interviewState s;
     isLoading := isLoading s; isFollowUpActive := isFollowUpActive s;
     currentFollowUpQuestionText := v;
     pausedState := pausedState s;
     currentFollowUpStreak := currentFollowUpStreak s |}.

Definition setPausedState (v : option Paused) (s : State) : State :=
  {| interviewPlan := interviewPlan s; currentTopicIndex := currentTopicIndex s;
     currentQuestionIndex := currentQuestionIndex s;
     currentQuestionAttempts := currentQuestionAttempts s;
     interviewLog := interviewLog s; interviewState := interviewState s;
     isLoading := isLoading s; isFollowUpActive := isFollowUpActive s;
     currentFollowUpQuestionText := currentFollowUpQuestionText s;
     pausedState := v;
     currentFollowUpStreak := currentFollowUpStreak s |}.

(** [setCurrentFollowUpStreak] is called with an updater or a value. *)
Definition setCurrentFollowUpStreak (f : nat -> nat) (s : State) : State :=
  {| interviewPlan := interviewPlan s; currentTopicIndex := currentTopicIndex s;
     currentQuestionIndex := currentQuestionIndex s;
     currentQuestionAttempts := currentQuestionAttempts s;
     interviewLog := interviewLog s; interviewState := interviewState s;
     isLoading := isLoading s; isFollowUpActive := isFollowUpActive s;
     currentFollowUpQuestionText := currentFollowUpQuestionText s;
     pausedState := pausedState s;
     currentFollowUpStreak := f (currentFollowUpStreak s) |}.

(** A sequence of setter calls, written in the order of the source. *)
Notation "s |> f" := (f s) (at level 45, left associativity, only parsing).

(** ** Reading the plan *)

(** [interviewPlan?.topics[i]]: [None] stands for [undefined]. *)
Definition topicAt (plan : option Plan) (i : nat) : option Topic :=
  match plan with
  | None => None
  | Some p => nth_error (topics p) i
  end.

(** A JavaScript string is truthy when it is not empty. *)
Definition truthy (q : string) : bool := negb (q =? "")%string.

(** [interviewPlan?.topics[i]?.questions[j]] used as a condition. *)
Definition hasQuestion (plan : option Plan) (i j : nat) : bool :=
  match topicAt plan i with
  | None => false
  | Some t => match nth_error (questions t) j with
              | None => false
              | Some q => truthy q
              end
  end.

(** ** [callInterviewerLlm]: the normalisation after parsing

    The prompt is built from the topic name, the question text and the action
    code; the answer of the LLM is the oracle [llmResponse].  After parsing,
    the type is forced to "planned" when the interview ends and whenever it
    is neither "planned" nor "follow-up". *)
Definition callInterviewerLlm (code : Z) (llmResponse : Result InterviewerOutput)
  : Result InterviewerOutput :=
  match llmResponse with
  | Rejected => Rejected
  | Resolved parsedResponse =>
      let type :=
        if (code =? END_INTERVIEW)%Z then "planned"
        else if negb (io_type parsedResponse =? "planned")%string
                && negb (io_type parsedResponse =? "follow-up")%string
             then "planned"
             else io_type parsedResponse in
      Resolved {| io_type := type; io_text := io_text parsedResponse |}
  end.

(** ** [askQuestion] *)

(** The local variables of [askQuestion] when it reaches the LLM call. *)
Record Resolution := {
  plannedTopicName : string;
  plannedQuestionText : option string;
  effectiveActionCode : Z;
  endInterview : bool;
  nextStateTopicIndex : nat;
  nextStateQuestionIndex : nat
}.

(** The first part of [askQuestion], up to the call of the interviewer LLM:
    the correction of the requested action against the plan. *)
Definition resolveAction (plan : option Plan) (topicIdx questionIdx : nat)
    (code : Z) (forceEnd : bool) : Resolution :=
  let r :=
    if forceEnd then
      {| plannedTopicName := "N/A"; plannedQuestionText := Some "N/A";
         effectiveActionCode := END_INTERVIEW; endInterview := true;
         nextStateTopicIndex := topicIdx; nextStateQuestionIndex := questionIdx |}
    else
      match topicAt plan topicIdx with
      | None =>
          {| plannedTopicName := "N/A"; plannedQuestionText := Some "N/A";
             effectiveActionCode := END_INTERVIEW; endInterview := true;
             nextStateTopicIndex := topicIdx;
             nextStateQuestionIndex := questionIdx |}
      | Some topic =>
          if questionIdx <? List.length (questions topic) then
            {| plannedTopicName := name topic;
               plannedQuestionText := nth_error (questions topic) questionIdx;
               effectiveActionCode :=
                 if (code =? NEXT_TOPIC)%Z then NEXT_QUESTION else code;
               endInterview := false;
               nextStateTopicIndex := topicIdx;
               nextStateQuestionIndex := questionIdx |}
          else
            let nextTopicIdx := topicIdx + 1 in
            match topicAt plan nextTopicIdx with
            | Some nextTopic =>
                {| plannedTopicName := name nextTopic;
                   plannedQuestionText := nth_error (questions nextTopic) 0;
                   effectiveActionCode := NEXT_TOPIC; endInterview := false;
                   nextStateTopicIndex := nextTopicIdx;
                   nextStateQuestionIndex := 0 |}
            | None =>
                {| plannedTopicName := name topic;
                   plannedQuestionText := Some "N/A";
                   effectiveActionCode := END_INTERVIEW; endInterview := true;
                   nextStateTopicIndex := topicIdx;
                   nextStateQuestionIndex := questionIdx |}
            end
      end in
  if (effectiveActionCode r =? END_INTERVIEW)%Z then
    {| plannedTopicName := "Interview Conclusion";
       plannedQuestionText := Some "Provide closing statement.";
       effectiveActionCode := effectiveActionCode r;
       endInterview := endInterview r;
       nextStateTopicIndex := nextStateTopicIndex r;
       nextStateQuestionIndex := nextStateQuestionIndex r |}
  else r.

(** The planned action forced when the follow-up limit is reached: the next
    question of the topic, else the first one of the next topic; [None] when
    the plan has no further topic. *)
Definition forcedNext (plan : option Plan) (topicIdx questionIdx : nat)
  : option (nat * nat * Z) :=
  let forcedNextTopicIndex := topicIdx in
  let forcedNextQuestionIndex := questionIdx + 1 in
  if negb (hasQuestion plan forcedNextTopicIndex forcedNextQuestionIndex) then
    let forcedNextTopicIndex := forcedNextTopicIndex + 1 in
    match topicAt plan forcedNextTopicIndex with
    | None => None
    | Some _ => Some (forcedNextTopicIndex, 0, NEXT_TOPIC)
    end
  else Some (forcedNextTopicIndex, forcedNextQuestionIndex, NEXT_QUESTION).

(** [askQuestion(topicIdx, questionIdx, actionCode, forceEnd)] run with the
    closure [c] on the state [s]; [llm] holds the answers of the interviewer
    LLM to the calls made from here on. *)
Fixpoint askQuestion (c : State) (topicIdx questionIdx : nat) (code : Z)
    (forceEnd : bool) (llm : list (Result InterviewerOutput)) (s : State)
    {struct llm} : option State :=
  let s := s |> setIsLoading true in
  let r := resolveAction (interviewPlan c) topicIdx questionIdx code forceEnd in
  match llm with
  | [] => None
  | llmResponse :: llm =>
    match callInterviewerLlm (effectiveActionCode r) llmResponse with
    | Rejected =>
        Some (s |> setInterviewState ENDED |> setIsLoading false)
    | Resolved interviewerOutput =>
      if (io_type interviewerOutput =? "follow-up")%string
         && negb (effectiveActionCode r =? END_INTERVIEW)%Z
      then
        if currentFollowUpStreak c <? MAX_FOLLOW_UP_STREAK then
          Some (s |> setCurrentFollowUpStreak (fun prev => prev + 1)
                  |> setPausedState
                       (Some {| topicIndex := topicIdx;
                                questionIndex := questionIdx;
                                attempts := currentQuestionAttempts c;
                                resumingActionCode := effectiveActionCode r |})
                  |> setIsFollowUpActive true
                  |> setCurrentFollowUpQuestionText
                       (Some (io_text interviewerOutput))
                  |> setIsLoading false)
        else
          let s := s |> setIsFollowUpActive false
                     |> setCurrentFollowUpQuestionText None
                     |> setPausedState None
                     |> setCurrentFollowUpStreak (fun _ => 0) in
          match forcedNext (interviewPlan c) topicIdx questionIdx with
          | None =>
              (* the closing statement is awaited; its outcome only changes
                 the messages shown *)
              match llm with
              | [] => None
              | _ :: _ => Some (s |> setInterviewState ENDED
                                  |> setIsLoading false)
              end
          | Some (forcedNextTopicIndex, forcedNextQuestionIndex,
                  forcedNextAction) =>
              askQuestion c forcedNextTopicIndex forcedNextQuestionIndex
                forcedNextAction false llm
                (s |> setCurrentTopicIndex forcedNextTopicIndex
                   |> setCurrentQuestionIndex forcedNextQuestionIndex)
          end
      else
        let s := s |> setCurrentFollowUpStreak (fun _ => 0)
                   |> setIsFollowUpActive false
                   |> setCurrentFollowUpQuestionText None
                   |> setPausedState None in
        let s :=
          if (effectiveActionCode r =? NEXT_QUESTION)%Z
             || (effectiveActionCode r =? NEXT_TOPIC)%Z
          then s |> setCurrentQuestionAttempts 0
          else s in
        if endInterview r || (effectiveActionCode r =? END_INTERVIEW)%Z then
          Some (s |> setInterviewState ENDED |> setIsLoading false)
        else
          Some (s |> setCurrentTopicIndex (nextStateTopicIndex r)
                  |> setCurrentQuestionIndex (nextStateQuestionIndex r)
                  |> setIsLoading false)
    end
  end.

(** ** [handleStartInterview] and the effect that starts the interview *)

(** The check made on the planner's output. *)
Definition validPlan (plan : Plan) : bool :=
  negb (List.length (topics plan) =? 0)
  && forallb (fun t => truthy (name t)
                       && negb (List.length (questions t) =? 0))
             (topics plan).

(** [handleStartInterview(description)]; [planner] is the outcome of
    [callPlannerLlm].  The description is taken already trimmed. *)
Definition handleStartInterview (description : string)
    (planner : Result Plan) (s : State) : State :=
  if (description =? "")%string then s
  else
    let s := s |> setIsLoading true |> setInterviewState PLANNING
               |> setInterviewLog (fun _ => [])
               |> setCurrentTopicIndex 0 |> setCurrentQuestionIndex 0
               |> setCurrentQuestionAttempts 0
               |> setIsFollowUpActive false
               |> setCurrentFollowUpQuestionText None
               |> setPausedState None
               |> setCurrentFollowUpStreak (fun _ => 0)
               |> setInterviewPlan None in
    match planner with
    | Resolved plan =>
        if validPlan plan then
          s |> setInterviewPlan (Some plan)
            |> setInterviewState PLANNING_COMPLETE
        else s |> setInterviewState SETUP |> setIsLoading false
    | Rejected => s |> setInterviewState SETUP |> setIsLoading false
    end.

(** The effect on [interviewState] and [interviewPlan], run with the closure
    [c] of its render. *)
Definition startInterviewEffect (c : State)
    (llm : list (Result InterviewerOutput)) (s : State) : option State :=
  match Phase_eqb (interviewState c) PLANNING_COMPLETE, interviewPlan c with
  | true, Some _ =>
      askQuestion c 0 0 NEXT_QUESTION false llm
        (s |> setInterviewState IN_PROGRESS
           |> setCurrentTopicIndex 0 |> setCurrentQuestionIndex 0
           |> setCurrentQuestionAttempts 0
           |> setIsFollowUpActive false
           |> setCurrentFollowUpQuestionText None
           |> setPausedState None
           |> setCurrentFollowUpStreak (fun _ => 0))
  | _, _ => Some s
  end.

(** ** [handleSubmitAnswer] *)

(** The question an answer is associated with: the paused position during a
    follow-up, else the current position when the plan has a question there;
    [None] is the "could not determine the question" exit. *)
Definition answerContext (c : State) : option (nat * nat) :=
  match isFollowUpActive c, pausedState c with
  | true, Some p => Some (topicIndex p, questionIndex p)
  | _, _ =>
      if hasQuestion (interviewPlan c) (currentTopicIndex c)
           (currentQuestionIndex c)
      then Some (currentTopicIndex c, currentQuestionIndex c)
      else None
  end.

(** After a follow-up answer: the planned step to resume with. *)
Definition resumeAfterFollowUp (plan : option Plan) (p : Paused)
  : nat * nat * Z :=
  let resumeTopicIdx := topicIndex p in
  let resumeQuestionIdx := questionIndex p in
  let nextPlannedTopicIdx := resumeTopicIdx in
  let nextPlannedQuestionIdx := resumeQuestionIdx + 1 in
  if negb (hasQuestion plan nextPlannedTopicIdx nextPlannedQuestionIdx) then
    let nextPlannedTopicIdx := nextPlannedTopicIdx + 1 in
    match topicAt plan nextPlannedTopicIdx with
    | None => (nextPlannedTopicIdx, 0, END_INTERVIEW)
    | Some _ => (nextPlannedTopicIdx, 0, NEXT_TOPIC)
    end
  else (nextPlannedTopicIdx, nextPlannedQuestionIdx, NEXT_QUESTION).

(** After a planned answer: the attempt count.  A repeat or a clarification
    counts one attempt; at [MAX_ATTEMPTS_PLANNED] the next question is
    forced.  The result is the state and [nextActionCode]. *)
Definition countAttempt (c : State) (monitorActionCode : Z) (s : State)
  : State * Z :=
  if (monitorActionCode =? REPEAT_QUESTION)%Z
     || (monitorActionCode =? CLARIFY_QUESTION)%Z
  then
    let currentAttempts := currentQuestionAttempts c + 1 in
    let s := s |> setCurrentQuestionAttempts currentAttempts in
    if MAX_ATTEMPTS_PLANNED <=? currentAttempts
    then (s, NEXT_QUESTION)
    else (s, monitorActionCode)
  else (s, monitorActionCode).

(** After a planned answer: the [switch] on [nextActionCode], giving the
    arguments of [askQuestion]. *)
Definition nextStep (c : State) (nextActionCode : Z) : nat * nat * Z :=
  if (nextActionCode =? REPEAT_QUESTION)%Z
     || (nextActionCode =? CLARIFY_QUESTION)%Z
  then (currentTopicIndex c, currentQuestionIndex c, nextActionCode)
  else if (nextActionCode =? NEXT_QUESTION)%Z
  then (currentTopicIndex c, currentQuestionIndex c + 1, nextActionCode)
  else if (nextActionCode =? NEXT_TOPIC)%Z
  then (currentTopicIndex c + 1, 0, nextActionCode)
  else if (nextActionCode =? END_INTERVIEW)%Z
  then (currentTopicIndex c, currentQuestionIndex c, nextActionCode)
  else (currentTopicIndex c, currentQuestionIndex c, END_INTERVIEW).

(** What [handleSubmitAnswer] does with the monitor's output before it calls
    [askQuestion]: the log entry, then the follow-up exit or the attempt
    count and the switch.  The result is the state and the arguments of
    the call. *)
Definition processMonitorOutput (c : State) (monitorOutput : MonitorOutput)
    (s : State) : State * (nat * nat * Z) :=
  let s := s |> setInterviewLog (fun prev =>
                  prev ++ [{| le_output := monitorOutput;
                              le_type := if isFollowUpActive c
                                         then follow_up else planned |}]) in
  match isFollowUpActive c, pausedState c with
  | true, Some p =>
      (s |> setIsFollowUpActive false
         |> setCurrentFollowUpQuestionText None
         |> setPausedState None,
       resumeAfterFollowUp (interviewPlan c) p)
  | _, _ =>
      let '(s, nextActionCode) := countAttempt c (actionCode monitorOutput) s in
      (s, nextStep c nextActionCode)
  end.

(** The guard of [handleSubmitAnswer]: an answer is taken when there is text
    or code, nothing is in flight and the interview is in progress. *)
Definition answerTaken (c : State) (textAnswer codeToSend : string) : bool :=
  negb ((textAnswer =? "")%string && (codeToSend =? "")%string)
  && negb (isLoading c)
  && Phase_eqb (interviewState c) IN_PROGRESS.

(** [handleSubmitAnswer()] run with the closure [c] on the state [s];
    [textAnswer] and [codeToSend] are the trimmed inputs, [monitor] the
    outcome of [callMonitorLlm]. *)
Definition handleSubmitAnswer (c : State) (textAnswer codeToSend : string)
    (monitor : Result MonitorOutput) (llm : list (Result InterviewerOutput))
    (s : State) : option State :=
  if negb (answerTaken c textAnswer codeToSend) then Some s
  else
    let s := s |> setIsLoading true in
    match answerContext c with
    | None => Some (s |> setIsLoading false |> setInterviewState ENDED)
    | Some _ =>
        match monitor with
        | Rejected => Some (s |> setIsLoading false |> setInterviewState ENDED)
        | Resolved monitorOutput =>
            let '(s, (nextTopicIndex, nextQuestionIndex, nextActionCode)) :=
              processMonitorOutput c monitorOutput s in
            askQuestion c nextTopicIndex nextQuestionIndex nextActionCode
              false llm s
        end
    end.

(** ** Events *)

(** One submitted answer: the callback of the current render, so the closure
    is the current state. *)
Record Answer := {
  textAnswer : string;
  codeToSend : string;
  monitor : Result MonitorOutput;
  interviewer : list (Result InterviewerOutput)
}.

Definition submitAnswer (a : Answer) (s : State) : option State :=
  handleSubmitAnswer s (textAnswer a) (codeToSend a) (monitor a)
    (interviewer a) s.

(** The states between two events, from the first render on, when each
    event runs to its end before the next one starts. *)
Inductive reachable : State -> Prop :=
| reach_initial : reachable initialState
| reach_start s description planner :
    reachable s ->
    reachable (handleStartInterview description planner s)
| reach_effect s llm s' :
    reachable s ->
    startInterviewEffect s llm s = Some s' ->
    reachable s'
| reach_submit s a s' :
    reachable s ->
    submitAnswer a s = Some s' ->
    reachable s'.

(** A run of submitted answers. *)
Fixpoint run (s : State) (answers : list Answer) : option State :=
  match answers with
  | [] => Some s
  | a :: answers =>
      match submitAnswer a s with
      | None => None
      | Some s' => run s' answers
      end
  end.

(** ** Notions used in the statements *)

(** The planned position the session is at. *)
Definition position (s : State) : nat * nat :=
  (currentTopicIndex s, currentQuestionIndex s).

(** The order of the plan: topic first, then question. *)
Definition earlier (a b : nat * nat) : Prop :=
  fst a < fst b \/ (fst a = fst b /\ snd a < snd b).

Definition atOrAfter (a b : nat * nat) : Prop :=
  fst a < fst b \/ (fst a = fst b /\ snd a <= snd b).

(** The action codes that move on. *)
Definition movesOn (code : Z) : Prop :=
  code = NEXT_QUESTION \/ code = NEXT_TOPIC \/ code = END_INTERVIEW.

(** An answer is assessed when it is taken, its question is found and the
    monitor call resolves. *)
Definition assessed (s : State) (a : Answer) : bool :=
  answerTaken s (textAnswer a) (codeToSend a)
  && match answerContext s with Some _ => true | None => false end
  && match monitor a with Resolved _ => true | Rejected => false end.

(** The answers taken, and the answers assessed, along a run. *)
Fixpoint answeredTurns (s : State) (answers : list Answer) : nat :=
  match answers with
  | [] => 0
  | a :: answers =>
      (if answerTaken s (textAnswer a) (codeToSend a) then 1 else 0)
      + match submitAnswer a s with
        | None => 0
        | Some s' => answeredTurns s' answers
        end
  end.

Fixpoint assessedTurns (s : State) (answers : list Answer) : nat :=
  match answers with
  | [] => 0
  | a :: answers =>
      (if assessed s a then 1 else 0)
      + match submitAnswer a s with
        | None => 0
        | Some s' => assessedTurns s' answers
        end
  end.

(** The session waits for the answer to a planned question. *)
Definition awaitsPlannedAnswer (s : State) : bool :=
  Phase_eqb (interviewState s) IN_PROGRESS
  && negb (isLoading s)
  && negb (isFollowUpActive s)
  && hasQuestion (interviewPlan s) (currentTopicIndex s)
       (currentQuestionIndex s).


(** The shape the monitor is asked for: a code from 1 to 5 and four metrics
    from 0 to 1. *)
Definition inUnitInterval (q : Q) : bool := Qle_bool 0 q && Qle_bool q 1.

Definition validAssessment (m : MonitorOutput) : bool :=
  (1 <=? actionCode m)%Z && (actionCode m <=? 5)%Z
  && inUnitInterval (accuracy (metrics m))
  && inUnitInterval (relevance (metrics m))
  && inUnitInterval (clarity (metrics m))
  && inUnitInterval (completeness (metrics m)).

(** A plan whose questions are all non-empty strings, on top of the check of
    [handleStartInterview]. *)
Definition wellFormed (plan : Plan) : bool :=
  validPlan plan
  && forallb (fun t => forallb truthy (questions t)) (topics plan).

(** The questions from a position to the end of the plan, with one more for
    each topic: a bound on the calls [askQuestion] makes to itself. *)
Definition remaining (plan : option Plan) (topicIdx questionIdx : nat) : nat :=
  match plan with
  | None => 0
  | Some p =>
      match nth_error (topics p) topicIdx with
      | None => 0
      | Some t => List.length (questions t) - questionIdx
      end
      + list_sum (map (fun t => List.length (questions t) + 1)
                      (skipn (topicIdx + 1) (topics p)))
  end.

(** ** Concrete sessions used as examples *)

Module Sample.

(** The plan of the README walkthrough: React with two questions, Node.js
    with three. *)
Definition plan : Plan :=
  {| topics :=
       [ {| name := "React";
            questions := ["What is a React component?";
                          "How do props work in React?"] |};
         {| name := "Node.js";
            questions := ["What is Node.js?"; "What is the event loop?";
                          "What does package.json list?"] |} ] |}.

Definition says (text : string) : Result InterviewerOutput :=
  Resolved {| io_type := "planned"; io_text := text |}.

Definition digresses (text : string) : Result InterviewerOutput :=
  Resolved {| io_type := "follow-up"; io_text := text |}.

Definition assessment (code : Z) : MonitorOutput :=
  {| mo_topicIndex := 0; mo_questionIndex := 0;
     metrics := {| accuracy := 1; relevance := 1; clarity := 1;
                   completeness := 1 |};
     actionCode := code; reason := "as assessed";
     discussion_point := None |}.

Definition answer (code : Z) (llm : list (Result InterviewerOutput))
  : Answer :=
  {| textAnswer := "an answer"; codeToSend := "";
     monitor := Resolved (assessment code); interviewer := llm |}.

(** The session after planning. *)
Definition planned_session : State :=
  handleStartInterview "a job description" (Resolved plan) initialState.

(** The session after the first question has been asked. *)
Definition started : State :=
  {| interviewPlan := Some plan; currentTopicIndex := 0;
     currentQuestionIndex := 0; currentQuestionAttempts := 0;
     interviewLog := []; interviewState := IN_PROGRESS; isLoading := false;
     isFollowUpActive := false; currentFollowUpQuestionText := None;
     pausedState := None; currentFollowUpStreak := 0 |}.

(** The session after three follow-ups in a row: the answer to the third
    one is awaited. *)
Definition digressing : State :=
  {| interviewPlan := Some plan; currentTopicIndex := 0;
     currentQuestionIndex := 0; currentQuestionAttempts := 1;
     interviewLog :=
       [ {| le_output := assessment CLARIFY_QUESTION; le_type := planned |};
         {| le_output := assessment NEXT_QUESTION; le_type := follow_up |};
         {| le_output := assessment REPEAT_QUESTION;
            le_type := follow_up |} ];
     interviewState := IN_PROGRESS; isLoading := false;
     isFollowUpActive := true;
     currentFollowUpQuestionText := Some "And on the server?";
     pausedState := Some {| topicIndex := 1; questionIndex := 0;
                            attempts := 1;
                            resumingActionCode := NEXT_QUESTION |};
     currentFollowUpStreak := 3 |}.

End Sample.

(** ** The helpers around the LLM calls

    [parseLlmJson] works on the text an LLM wrote.  What the platform does for
    it is a parameter, the [Host]: [String.prototype.trim], the match of the
    fence pattern, [JSON.parse], and the conversions of a value and of a
    number to a string.  The rest is modelled as written: the search for the
    braces, the check of the keys, the reading of [type] and [text], the
    [catch] block.

    A string holds a text as its bytes in UTF-8.  The braces are single
    bytes that occur in no other character, so the part of the text between
    two braces is the part of the bytes between them; the length of a text
    in JavaScript is its number of UTF-16 code units, [jsLength]. *)

(** A value [JSON.parse] can return. *)
#[local] Set Warnings "-register-all".
Inductive JsValue :=
| JNull
| JBool (b : bool)
| JNum (n : Q)
| JStr (s : string)
| JArr (items : list JsValue)
| JObj (fields : list (string * JsValue)).

Record Host := {
  (** [s.trim()] *)
  trim : string -> string;
  (** the first group of the match of a string against the pattern of a
      json fence (three backquotes, json, white space, the lazy group, white
      space, three backquotes); [None] when there is no match *)
  fenceCapture : string -> option string;
  (** [JSON.parse(s)]; [None] when it throws *)
  JSON_parse : string -> option JsValue;
  (** [String(v)] *)
  toString : JsValue -> string;
  (** a number inside a template literal *)
  numberToString : Z -> string
}.

(** [typeof v], where [None] is [undefined]. *)
Definition typeof (v : option JsValue) : string :=
  match v with
  | None => "undefined"
  | Some (JBool _) => "boolean"
  | Some (JNum _) => "number"
  | Some (JStr _) => "string"
  | Some JNull | Some (JArr _) | Some (JObj _) => "object"
  end.

(** A value used as a condition. *)
Definition jsTruthy (v : option JsValue) : bool :=
  match v with
  | None | Some JNull => false
  | Some (JBool b) => b
  | Some (JNum n) => negb (Qeq_bool n 0)
  | Some (JStr s) => truthy s
  | Some (JArr _) | Some (JObj _) => true
  end.

Definition ownProperty (fields : list (string * JsValue)) (key : string)
  : option JsValue :=
  option_map snd (find (fun kv => (fst kv =? key)%string) fields).

(** [v.key] for the keys [type] and [text], which no prototype defines and
    which are no property of an array or of a primitive value: [Some None] is
    [undefined], [None] the [TypeError] of reading a property of [null]. *)
Definition jsGet (v : JsValue) (key : string) : option (option JsValue) :=
  match v with
  | JNull => None
  | JObj fields => Some (ownProperty fields key)
  | JBool _ | JNum _ | JStr _ | JArr _ => Some None
  end.

(** [key in v] for the keys this file passes to [parseLlmJson], none of which
    is an array index, [length] or a name a prototype defines; [None] is the
    [TypeError] of [in] on a value that is no object. *)
Definition jsIn (key : string) (v : JsValue) : option bool :=
  match v with
  | JObj fields =>
      Some (match ownProperty fields key with Some _ => true | None => false end)
  | JArr _ => Some false
  | JNull | JBool _ | JNum _ | JStr _ => None
  end.

(** [s.indexOf(ch)] and [s.lastIndexOf(ch)] for one character; [None] is -1. *)
Fixpoint indexOf (ch : ascii) (s : string) : option nat :=
  match s with
  | EmptyString => None
  | String c rest =>
      if Ascii.eqb c ch then Some 0 else option_map S (indexOf ch rest)
  end.

Fixpoint lastIndexOf (ch : ascii) (s : string) : option nat :=
  match s with
  | EmptyString => None
  | String c rest =>
      match lastIndexOf ch rest with
      | Some i => Some (S i)
      | None => if Ascii.eqb c ch then Some 0 else None
      end
  end.

(** [s.length], the number of UTF-16 code units of the text: one for each
    character of one, two or three bytes, two for each character of four
    bytes.  The bytes from 128 to 191 continue a character, the bytes from
    240 on start a character of four bytes. *)
Fixpoint jsLength (s : string) : nat :=
  match s with
  | EmptyString => 0
  | String c rest =>
      let byte := nat_of_ascii c in
      (if byte <? 128 then 1
       else if byte <? 192 then 0
       else if byte <? 240 then 1
       else 2)
      + jsLength rest
  end.

(** [{ type: "planned", text }], the object [parseLlmJson] builds when it
    takes the text as it is. *)
Definition plannedText (text : string) : JsValue :=
  JObj [("type", JStr "planned"); ("text", JStr text)].

(** [expectedKeys.includes("type") && expectedKeys.includes("text")] *)
Definition expectsTypeAndText (expectedKeys : list string) : bool :=
  existsb (String.eqb "type") expectedKeys
  && existsb (String.eqb "text") expectedKeys.

(** The first part of [parseLlmJson]: the text to parse, or the way out when
    no JSON text is found. *)
Inductive Extraction :=
| Parse (jsonString : string)
| Leave (r : Result JsValue).

Definition extractJson (h : Host) (trimmedContent : string)
    (expectedKeys : list string) : Extraction :=
  let betweenBraces :=
    match indexOf "{"%char trimmedContent,
          lastIndexOf "}"%char trimmedContent with
    | Some firstBrace, Some lastBrace =>
        if firstBrace <? lastBrace
        then Some (substring firstBrace (lastBrace + 1 - firstBrace)
                     trimmedContent)
        else None
    | _, _ => None
    end in
  let withoutFence :=
    match betweenBraces with
    | Some jsonString => Parse jsonString
    | None =>
        if expectsTypeAndText expectedKeys
        then Leave (Resolved (plannedText trimmedContent))
        else Leave Rejected
    end in
  match fenceCapture h trimmedContent with
  | Some group => if truthy group then Parse (trim h group) else withoutFence
  | None => withoutFence
  end.

(** [expectedKeys.filter(key => !(key in parsedJson))]; [None] when [in]
    throws. *)
Fixpoint missingKeys (parsedJson : JsValue) (expectedKeys : list string)
  : option (list string) :=
  match expectedKeys with
  | [] => Some []
  | key :: keys =>
      match jsIn key parsedJson with
      | None => None
      | Some present =>
          option_map (fun missing => if present then missing
                                     else key :: missing)
            (missingKeys parsedJson keys)
      end
  end.

(** The [try] block of [parseLlmJson]; [None] when it throws. *)
Definition parseAndCheck (h : Host) (jsonString : string)
    (expectedKeys : list string) : option JsValue :=
  match JSON_parse h jsonString with
  | None => None
  | Some parsedJson =>
      let keysAccepted :=
        if 0 <? List.length expectedKeys then
          match missingKeys parsedJson expectedKeys with
          | None => false
          | Some missing =>
              if 0 <? List.length missing then
                negb ((List.length missing =? List.length expectedKeys)
                      && negb (expectsTypeAndText expectedKeys
                               && (typeof (Some parsedJson) =? "string")%string))
              else true
          end
        else true in
      if negb keysAccepted then None
      else if expectsTypeAndText expectedKeys then
        match jsGet parsedJson "type", jsGet parsedJson "text" with
        | Some type, Some text =>
            if negb (typeof type =? "string")%string
               || negb (typeof text =? "string")%string
            then
              if negb (typeof (Some parsedJson) =? "object")%string
              then Some (plannedText (toString h parsedJson))
              else if negb (jsTruthy type) && negb (jsTruthy text)
              then None
              else
                match text with
                | Some (JStr t) =>
                    if truthy t then Some (plannedText t) else None
                | _ => None
                end
            else Some parsedJson
        | _, _ => None
        end
      else Some parsedJson
  end.

(** [parseLlmJson(llmContent, expectedKeys)]; the content is a string, as
    [callOllamaApi] returns nothing else. *)
Definition parseLlmJson (h : Host) (llmContent : string)
    (expectedKeys : list string) : Result JsValue :=
  if negb (truthy llmContent) then Rejected
  else
    let trimmedContent := trim h llmContent in
    match extractJson h trimmedContent expectedKeys with
    | Leave r => r
    | Parse jsonString =>
        match parseAndCheck h jsonString expectedKeys with
        | Some parsedJson => Resolved parsedJson
        | None =>
            if expectsTypeAndText expectedKeys
               && (5 <? jsLength jsonString)
            then Resolved (plannedText jsonString)
            else Rejected
        end
    end.

(** The keys the three callers expect. *)
Definition plannerKeys : list string := ["topics"].
Definition interviewerKeys : list string := ["type"; "text"].
Definition monitorKeys : list string :=
  ["topicIndex"; "questionIndex"; "metrics"; "actionCode"; "reason";
   "discussion_point"].

(** [type] and [text] of an object, when both are strings. *)
Definition interviewerOutputOf (v : JsValue) : option InterviewerOutput :=
  match jsGet v "type", jsGet v "text" with
  | Some (Some (JStr type)), Some (Some (JStr text)) =>
      Some {| io_type := type; io_text := text |}
  | _, _ => None
  end.

(** [callInterviewerLlm] from the text of the LLM on: [parseLlmJson], then
    the type forced to "planned" when the interview ends or when it is no
    known type, then the text replaced by the empty string when it is no
    string.  [llmResponseString] is the outcome of [callOllamaApi]. *)
Definition callInterviewerLlm_text (h : Host) (code : Z)
    (llmResponseString : Result string) : Result InterviewerOutput :=
  match llmResponseString with
  | Rejected => Rejected
  | Resolved content =>
      match parseLlmJson h content interviewerKeys with
      | Rejected => Rejected
      | Resolved parsedResponse =>
          match parsedResponse,
                jsGet parsedResponse "type", jsGet parsedResponse "text" with
          | JNull, _, _ | JBool _, _, _ | JNum _, _, _ | JStr _, _, _ =>
              (* a property of a value that is no object cannot be set:
                 module code throws *)
              Rejected
          | _, Some type, Some text =>
              let type' :=
                if (code =? END_INTERVIEW)%Z then "planned"
                else match type with
                     | Some (JStr t) =>
                         if negb (t =? "planned")%string
                            && negb (t =? "follow-up")%string
                         then "planned" else t
                     | _ => "planned"
                     end in
              let text' :=
                match text with
                | Some (JStr t) => t
                | _ => ""
                end in
              Resolved {| io_type := type'; io_text := text' |}
          | _, _, _ => Rejected
          end
      end
  end.

(** [ACTION_CODES] as an object: its keys in the order they are written. *)
Definition ACTION_CODES_entries : list (string * Z) :=
  [("REPEAT_QUESTION", REPEAT_QUESTION);
   ("CLARIFY_QUESTION", CLARIFY_QUESTION);
   ("NEXT_QUESTION", NEXT_QUESTION);
   ("NEXT_TOPIC", NEXT_TOPIC);
   ("END_INTERVIEW", END_INTERVIEW)].

(** [ACTION_CODES[key]] *)
Definition actionCodeOf (key : string) : option Z :=
  option_map snd
    (find (fun kv => (fst kv =? key)%string) ACTION_CODES_entries).

(** [getActionCodeName(code)] for an integer code. *)
Definition getActionCodeName (h : Host) (code : Z) : string :=
  match find (fun kv => (snd kv =? code)%Z) ACTION_CODES_entries with
  | Some (key, _) => key
  | None => "Unknown (" ++ numberToString h code ++ ")"
  end.

(** ** The visualizer *)

(** [visualizerMode] and [visualizerAudioSource], the two memoised values
    handed to the audio visualizer. *)
Definition visualizerMode (phase : Phase)
    (isRecording isTTSPlaying loading : bool) : string :=
  match phase with
  | SETUP | ENDED => "static"
  | PLANNING | PLANNING_COMPLETE => "think"
  | IN_PROGRESS =>
      if isRecording then "play"
      else if isTTSPlaying then "play"
      else if loading then "think"
      else "static"
  end.

(** The microphone stream is on the left, the audio element of the speech
    being played on the right; [None] is [null]. *)
Definition visualizerAudioSource {Stream Audio : Type} (mode : string)
    (isRecording : bool) (micStream : option Stream)
    (isTTSPlaying : bool) (currentTTSAudio : option Audio)
  : option (Stream + Audio) :=
  if (mode =? "play")%string then
    match isRecording, micStream with
    | true, Some stream => Some (inl stream)
    | _, _ =>
        match isTTSPlaying, currentTTSAudio with
        | true, Some audio => Some (inr audio)
        | _, _ => None
        end
    end
  else None.

(** ** The landing page: the rotating quotes *)

Definition quotes : list string :=
  ["MASTER THE ALGORITHM"; "CODE WITH CONFIDENCE"; "DESIGN YOUR FUTURE";
   "SOLVE WITH ELEGANCE"; "ENGINEER YOUR PATH"].

(** The updater passed to [setCurrentQuoteIndex] at each tick. *)
Definition nextQuoteIndex (prev : nat) : nat :=
  (prev + 1) mod List.length quotes.

(** ** More notions used in the statements *)

(** The three state variables of a follow-up go together, and an active
    follow-up has been counted. *)
Definition followUpConsistent (s : State) : Prop :=
  (isFollowUpActive s = true
   /\ pausedState s <> None
   /\ currentFollowUpQuestionText s <> None
   /\ 1 <= currentFollowUpStreak s)
  \/ (isFollowUpActive s = false
      /\ pausedState s = None
      /\ currentFollowUpQuestionText s = None).

(** The paused position is not behind the current one. *)
Definition pausedAhead (s : State) : Prop :=
  forall p, pausedState s = Some p ->
            atOrAfter (position s) (topicIndex p, questionIndex p).

(** The current position holds a question of the plan, when the plan is
    well formed. *)
Definition positionInPlan (s : State) : Prop :=
  forall plan,
    interviewPlan s = Some plan ->
    wellFormed plan = true ->
    hasQuestion (Some plan) (currentTopicIndex s) (currentQuestionIndex s)
    = true.

(** ** A host used as an example *)

Module SampleHost.

(** White space among the characters below 128. *)
Definition isWhiteSpace (c : ascii) : bool :=
  let n := nat_of_ascii c in
  ((9 <=? n) && (n <=? 13)) || (n =? 32).

Fixpoint trimStart (s : string) : string :=
  match s with
  | EmptyString => EmptyString
  | String c rest => if isWhiteSpace c then trimStart rest else s
  end.

Definition reverse (s : string) : string :=
  string_of_list_ascii (rev (list_ascii_of_string s)).

Definition trimBoth (s : string) : string :=
  reverse (trimStart (reverse (trimStart s))).

(** The double quote. *)
Definition dq : string := String "034"%char EmptyString.

(** The text of an object with the one key [reason]. *)
Definition reasonOnly : string :=
  "{" ++ dq ++ "reason" ++ dq ++ ": " ++ dq ++ "Too vague." ++ dq ++ "}".

(** The text of an object whose [type] is a number. *)
Definition numberAsType : string :=
  "{" ++ dq ++ "type" ++ dq ++ ": 5}".

(** The euro sign, a character of three bytes and one code unit, and a
    text of four characters in braces. *)
Definition euro : string :=
  String "226"%char (String "130"%char (String "172"%char EmptyString)).

Definition twoEuros : string := "{" ++ euro ++ euro ++ "}".

(** A parser that knows a few texts. *)
Definition parse (s : string) : option JsValue :=
  if (s =? "{}")%string then Some (JObj [])
  else if (s =? "null")%string then Some JNull
  else if (s =? reasonOnly)%string
  then Some (JObj [("reason", JStr "Too vague.")])
  else if (s =? numberAsType)%string
  then Some (JObj [("type", JNum 5)])
  else None.

Definition host : Host :=
  {| trim := trimBoth;
     fenceCapture := fun _ => None;
     JSON_parse := parse;
     toString := fun _ => "[object Object]";
     numberToString := fun z => NilZero.string_of_int (Z.to_int z) |}.

End SampleHost.

(** ** Calls that overlap

    [askQuestion] and [handleSubmitAnswer] are asynchronous functions: each
    runs up to the call of an LLM, hands the control back, and goes on when
    the call returns.  What is on the page in between is a state of its own,
    and the candidate may act on it.  [askQuestion c ... llm s] above follows
    one chain of calls to its end; the definitions below cut the same code at
    its calls.

    A [Page] is the state shown and the calls that have not returned, each
    with the closure and the arguments of the function that waits for it.  An
    [Event] is one step that runs without interruption: a function up to its
    call, or from the return of its call to its end or to the next call.
    The call [askQuestion] makes to itself when the follow-up limit is
    reached is not awaited: the outer function goes on to its [finally]
    block, which sets [isLoading] to false, while the inner call is
    outstanding.

    The requests for speech ([generateTTS]) are awaited between the return of
    the LLM and the first setter, and, when the interview ends, before the
    [finally] block; no state variable of the flow changes across them, and
    no answer is taken once the interview has ended, so they are folded into
    the step.  [handleStartInterview] is called by the effect on
    [jobDetails], when the page is mounted; here it may be called again
    whenever no call is outstanding, and its call of the planner is folded
    into the step, as no other event is taken while the page is planning. *)

(** A call that has not returned. *)
Inductive Call :=
| monitorCall (c : State)
| interviewerCall (c : State) (topicIdx questionIdx : nat) (code : Z)
    (forceEnd : bool)
| closingCall.

Record Page := { shown : State; awaited : list Call }.

(** The page of the first render. *)
Definition initialPage : Page := {| shown := initialState; awaited := [] |}.

(** [askQuestion] up to the call of the interviewer LLM. *)
Definition askQuestion_call (c : State) (topicIdx questionIdx : nat)
    (code : Z) (forceEnd : bool) (p : Page) : Page :=
  {| shown := shown p |> setIsLoading true;
     awaited := awaited p
                ++ [interviewerCall c topicIdx questionIdx code forceEnd] |}.

(** [askQuestion] from the return of the interviewer LLM on. *)
Definition askQuestion_return (c : State) (topicIdx questionIdx : nat)
    (code : Z) (forceEnd : bool) (llmResponse : Result InterviewerOutput)
    (p : Page) : Page :=
  let s := shown p in
  let r := resolveAction (interviewPlan c) topicIdx questionIdx code forceEnd in
  match callInterviewerLlm (effectiveActionCode r) llmResponse with
  | Rejected =>
      {| shown := s |> setInterviewState ENDED |> setIsLoading false;
         awaited := awaited p |}
  | Resolved interviewerOutput =>
    if (io_type interviewerOutput =? "follow-up")%string
       && negb (effectiveActionCode r =? END_INTERVIEW)%Z
    then
      if currentFollowUpStreak c <? MAX_FOLLOW_UP_STREAK then
        {| shown :=
             s |> setCurrentFollowUpStreak (fun prev => prev + 1)
               |> setPausedState
                    (Some {| topicIndex := topicIdx;
                             questionIndex := questionIdx;
                             attempts := currentQuestionAttempts c;
                             resumingActionCode := effectiveActionCode r |})
               |> setIsFollowUpActive true
               |> setCurrentFollowUpQuestionText
                    (Some (io_text interviewerOutput))
               |> setIsLoading false;
           awaited := awaited p |}
      else
        let s := s |> setIsFollowUpActive false
                   |> setCurrentFollowUpQuestionText None
                   |> setPausedState None
                   |> setCurrentFollowUpStreak (fun _ => 0) in
        match forcedNext (interviewPlan c) topicIdx questionIdx with
        | None =>
            (* the closing statement is awaited; [isLoading] is set when it
               has returned *)
            {| shown := s |> setInterviewState ENDED;
               awaited := awaited p ++ [closingCall] |}
        | Some (forcedNextTopicIndex, forcedNextQuestionIndex,
                forcedNextAction) =>
            let inner :=
              askQuestion_call c forcedNextTopicIndex forcedNextQuestionIndex
                forcedNextAction false
                {| shown := s |> setCurrentTopicIndex forcedNextTopicIndex
                              |> setCurrentQuestionIndex
                                   forcedNextQuestionIndex;
                   awaited := awaited p |} in
            (* [return], then the [finally] block of the outer call *)
            {| shown := shown inner |> setIsLoading false;
               awaited := awaited inner |}
        end
    else
      let s := s |> setCurrentFollowUpStreak (fun _ => 0)
                 |> setIsFollowUpActive false
                 |> setCurrentFollowUpQuestionText None
                 |> setPausedState None in
      let s :=
        if (effectiveActionCode r =? NEXT_QUESTION)%Z
           || (effectiveActionCode r =? NEXT_TOPIC)%Z
        then s |> setCurrentQuestionAttempts 0
        else s in
      if endInterview r || (effectiveActionCode r =? END_INTERVIEW)%Z then
        {| shown := s |> setInterviewState ENDED |> setIsLoading false;
           awaited := awaited p |}
      else
        {| shown := s |> setCurrentTopicIndex (nextStateTopicIndex r)
                      |> setCurrentQuestionIndex (nextStateQuestionIndex r)
                      |> setIsLoading false;
           awaited := awaited p |}
  end.

(** [handleSubmitAnswer] up to the call of the monitor LLM; the closure is
    the state shown. *)
Definition handleSubmitAnswer_call (textAnswer codeToSend : string)
    (p : Page) : Page :=
  let c := shown p in
  if negb (answerTaken c textAnswer codeToSend) then p
  else
    let s := shown p |> setIsLoading true in
    match answerContext c with
    | None =>
        {| shown := s |> setIsLoading false |> setInterviewState ENDED;
           awaited := awaited p |}
    | Some _ => {| shown := s; awaited := awaited p ++ [monitorCall c] |}
    end.

(** [handleSubmitAnswer] from the return of the monitor LLM on. *)
Definition handleSubmitAnswer_return (c : State)
    (monitor : Result MonitorOutput) (p : Page) : Page :=
  match monitor with
  | Rejected =>
      {| shown := shown p |> setIsLoading false |> setInterviewState ENDED;
         awaited := awaited p |}
  | Resolved monitorOutput =>
      let '(s, (nextTopicIndex, nextQuestionIndex, nextActionCode)) :=
        processMonitorOutput c monitorOutput (shown p) in
      askQuestion_call c nextTopicIndex nextQuestionIndex nextActionCode false
        {| shown := s; awaited := awaited p |}
  end.

(** The effect that starts the interview, up to the call of the interviewer
    LLM. *)
Definition startInterviewEffect_call (p : Page) : Page :=
  let c := shown p in
  match Phase_eqb (interviewState c) PLANNING_COMPLETE, interviewPlan c with
  | true, Some _ =>
      askQuestion_call c 0 0 NEXT_QUESTION false
        {| shown := shown p |> setInterviewState IN_PROGRESS
                            |> setCurrentTopicIndex 0
                            |> setCurrentQuestionIndex 0
                            |> setCurrentQuestionAttempts 0
                            |> setIsFollowUpActive false
                            |> setCurrentFollowUpQuestionText None
                            |> setPausedState None
                            |> setCurrentFollowUpStreak (fun _ => 0);
           awaited := awaited p |}
  | _, _ => p
  end.

(** What can happen to a page.  A return names the call by its place among
    the calls awaited and brings the outcome of the call. *)
Inductive Event :=
| starts (description : string) (planner : Result Plan)
| planningCompletes
| sends (textAnswer codeToSend : string)
| monitorReturns (i : nat) (monitor : Result MonitorOutput)
| interviewerReturns (i : nat) (llmResponse : Result InterviewerOutput)
| closingReturns (i : nat).

(** The [i]-th call awaited, and the other ones. *)
Definition takeCall (i : nat) (calls : list Call)
  : option (Call * list Call) :=
  match nth_error calls i with
  | Some call => Some (call, firstn i calls ++ skipn (S i) calls)
  | None => None
  end.

(** One event; [None] when it cannot happen on this page. *)
Definition fire (e : Event) (p : Page) : option Page :=
  match e with
  | starts description planner =>
      match awaited p with
      | [] => Some {| shown := handleStartInterview description planner
                                 (shown p);
                      awaited := [] |}
      | _ :: _ => None
      end
  | planningCompletes => Some (startInterviewEffect_call p)
  | sends textAnswer codeToSend =>
      Some (handleSubmitAnswer_call textAnswer codeToSend p)
  | monitorReturns i monitor =>
      match takeCall i (awaited p) with
      | Some (monitorCall c, others) =>
          Some (handleSubmitAnswer_return c monitor
                  {| shown := shown p; awaited := others |})
      | _ => None
      end
  | interviewerReturns i llmResponse =>
      match takeCall i (awaited p) with
      | Some (interviewerCall c topicIdx questionIdx code forceEnd, others) =>
          Some (askQuestion_return c topicIdx questionIdx code forceEnd
                  llmResponse {| shown := shown p; awaited := others |})
      | _ => None
      end
  | closingReturns i =>
      match takeCall i (awaited p) with
      | Some (closingCall, others) =>
          Some {| shown := shown p |> setIsLoading false;
                  awaited := others |}
      | _ => None
      end
  end.

Fixpoint fireAll (p : Page) (events : list Event) : option Page :=
  match events with
  | [] => Some p
  | e :: events =>
      match fire e p with
      | None => None
      | Some p' => fireAll p' events
      end
  end.

(** The pages a session can show. *)
Inductive session : Page -> Prop :=
| session_initial : session initialPage
| session_fire p e p' : session p -> fire e p = Some p' -> session p'.

(** No answer is sent while a call is awaited. *)
Fixpoint orderly (p : Page) (events : list Event) : bool :=
  match events with
  | [] => true
  | e :: events =>
      match e, awaited p with
      | sends _ _, _ :: _ => false
      | _, _ =>
          match fire e p with
          | None => true
          | Some p' => orderly p' events
          end
      end
  end.

(** The events that are not a new start: answers sent and calls that
    return.  With [restarts] every event is permitted. *)
Definition permitted (restarts : bool) (e : Event) : bool :=
  match e with
  | starts _ _ | planningCompletes => restarts
  | _ => true
  end.

(** What a page of a session without overlapping calls looks like, for a set
    [R] of states between two events: at most one call is awaited, and every
    way the call can go on leads into [R]. *)
Definition inStep (R : State -> Prop) (p : Page) : Prop :=
  match awaited p with
  | [] => R (shown p)
  | [monitorCall c] =>
      R c
      /\ (exists textAnswer codeToSend,
             answerTaken c textAnswer codeToSend = true)
      /\ answerContext c <> None
      /\ shown p = c |> setIsLoading true
  | [interviewerCall c topicIdx questionIdx code forceEnd] =>
      interviewState (shown p) = IN_PROGRESS
      /\ forall llm s',
           askQuestion c topicIdx questionIdx code forceEnd llm (shown p)
           = Some s' ->
           R s'
  | [closingCall] =>
      interviewState (shown p) = ENDED
      /\ R (shown p |> setIsLoading false)
  | _ => False
  end.

(** The states a run of answers leads to. *)
Definition answersLeadTo (s : State) : State -> Prop :=
  fun s' => exists answers, run s answers = Some s'.

(** ** A session in which calls overlap *)

Module Overlap.

(** A plan with one topic of eight questions. *)
Definition plan : Plan :=
  {| topics :=
       [ {| name := "React";
            questions := ["What is a React component?";
                          "How do props work in React?";
                          "What is state?"; "What is an effect?";
                          "What is a key?"; "What is a ref?";
                          "What is a context?"; "What is a reducer?"] |} ] |}.

Definition assessed (code : Z) : Result MonitorOutput :=
  Resolved (Sample.assessment code).

(** An answer sent when no call is awaited, its assessment, and the turn of
    the interviewer. *)
Definition turn (code : Z) (llmResponse : Result InterviewerOutput)
  : list Event :=
  [sends "an answer" ""; monitorReturns 0 (assessed code);
   interviewerReturns 0 llmResponse].

(** An answer sent while the call of an earlier [askQuestion] is awaited, and
    its assessment. *)
Definition early (code : Z) : list Event :=
  [sends "an answer" ""; monitorReturns 1 (assessed code)].

(** The first question is asked. *)
Definition opening : list Event :=
  [starts "a job description" (Resolved plan); planningCompletes;
   interviewerReturns 0 (Sample.says "What is a React component?")].

(** Three follow-ups in a row are asked; the third one is answered and
    assessed. *)
Definition beforeWindow : list Event :=
  opening
  ++ turn NEXT_QUESTION (Sample.digresses "Why components?")
  ++ turn NEXT_QUESTION (Sample.digresses "And in a class?")
  ++ turn NEXT_QUESTION (Sample.digresses "And with hooks?")
  ++ [sends "an answer" ""; monitorReturns 0 (assessed NEXT_QUESTION)].

(** The interviewer asks for a fourth follow-up: the follow-up limit forces
    the next question, and the call for it is awaited. *)
Definition toWindow : list Event :=
  beforeWindow
  ++ [interviewerReturns 0 (Sample.digresses "And on the server?")].

(** Answers sent from then on before the calls have returned, and three
    calls that return a follow-up; one more call is awaited. *)
Definition threeFollowUps : list Event :=
  early NEXT_QUESTION
  ++ [interviewerReturns 0 (Sample.says "What is a ref?")]
  ++ early NEXT_QUESTION
  ++ [interviewerReturns 0 (Sample.digresses "Why a context?")]
  ++ early NEXT_QUESTION
  ++ [interviewerReturns 0 (Sample.digresses "And without one?")]
  ++ early NEXT_QUESTION
  ++ [interviewerReturns 0 (Sample.digresses "And with a store?")].

(** That call returns a follow-up as well. *)
Definition fourthFollowUp : Event :=
  interviewerReturns 0 (Sample.digresses "And with a reducer?").

(** An answer sent before the forced question has come; the question after
    it is asked first, the forced one last. *)
Definition overtaken : list Event :=
  early NEXT_QUESTION
  ++ [interviewerReturns 1 (Sample.says "What is a context?");
      interviewerReturns 0 (Sample.says "What is a ref?")].

(** Three answers are sent back, the follow-ups come after the third one. *)
Definition countedToWindow : list Event :=
  opening
  ++ turn REPEAT_QUESTION (Sample.says "Once more: what is a component?")
  ++ turn CLARIFY_QUESTION (Sample.says "What do you mean by that?")
  ++ turn REPEAT_QUESTION (Sample.digresses "Why components?")
  ++ turn NEXT_QUESTION (Sample.digresses "And in a class?")
  ++ turn NEXT_QUESTION (Sample.digresses "And with hooks?")
  ++ turn NEXT_QUESTION (Sample.digresses "And on the server?").

End Overlap.

(** What a call awaited has in common with the page: the closure of its
    function holds the plan of the page; the closing statement is awaited
    once the interview has ended. *)
Definition callAgrees (s : State) (call : Call) : Prop :=
  match call with
  | monitorCall c | interviewerCall c _ _ _ _ =>
      interviewPlan c = interviewPlan s
  | closingCall => interviewState s = ENDED
  end.

(** What every page of a session has, whether calls overlap or not. *)
Definition steady (p : Page) : Prop :=
  let s := shown p in
  (interviewState s = PLANNING_COMPLETE
   \/ interviewState s = IN_PROGRESS
   \/ interviewState s = ENDED ->
   exists plan, interviewPlan s = Some plan /\ validPlan plan = true)
  /\ (awaited p <> [] ->
      interviewState s = IN_PROGRESS \/ interviewState s = ENDED)
  /\ Forall (callAgrees s) (awaited p)
  /\ followUpConsistent s
  /\ (isLoading s = false ->
      isFollowUpActive s = false ->
      interviewState s <> ENDED ->
      currentFollowUpStreak s = 0)
  /\ positionInPlan s.

(** * Properties *)

(** ** The example sessions *)

Example started_is_started :
  startInterviewEffect Sample.planned_session [Sample.says "Welcome."]
    Sample.planned_session
  = Some Sample.started.
Proof. reflexivity. Qed.

(** The walkthrough of the README: six answers, six entries, the end. *)
Example walkthrough :
  option_map (fun s => (List.length (interviewLog s), interviewState s))
    (run Sample.started
       [Sample.answer CLARIFY_QUESTION [Sample.says "Could you say more?"];
        Sample.answer NEXT_QUESTION [Sample.says "How do props work?"];
        Sample.answer REPEAT_QUESTION [Sample.says "Again, please."];
        Sample.answer NEXT_TOPIC [Sample.says "What is Node.js?"];
        Sample.answer NEXT_QUESTION [Sample.says "What is the event loop?"];
        Sample.answer END_INTERVIEW [Sample.says "Thank you."]])
  = Some (6, ENDED).
Proof. reflexivity. Qed.

(** Three follow-ups in a row: each pauses the planned step it replaces. *)
Example digressing_is_reached :
  run Sample.started
    [Sample.answer CLARIFY_QUESTION [Sample.digresses "Which part?"];
     Sample.answer NEXT_QUESTION [Sample.digresses "And with hooks?"];
     Sample.answer REPEAT_QUESTION [Sample.digresses "And on the server?"]]
  = Some Sample.digressing.
Proof. vm_compute. reflexivity. Qed.

(** ** The correction of the requested action ([resolveAction]) *)

Section Resolution.

Variable plan : option Plan.
Variables topicIdx questionIdx : nat.
Variable topic : Topic.
Hypothesis Htopic : topicAt plan topicIdx = Some topic.

Lemma resolveAction_in_topic code :
  questionIdx < List.length (questions topic) ->
  code <> END_INTERVIEW ->
  resolveAction plan topicIdx questionIdx code false =
  {| plannedTopicName := name topic;
     plannedQuestionText := nth_error (questions topic) questionIdx;
     effectiveActionCode :=
       if (code =? NEXT_TOPIC)%Z then NEXT_QUESTION else code;
     endInterview := false;
     nextStateTopicIndex := topicIdx;
     nextStateQuestionIndex := questionIdx |}.
Proof.
  intros Hq Hcode. unfold resolveAction. rewrite Htopic.
  apply Nat.ltb_lt in Hq. rewrite Hq. cbn [effectiveActionCode].
  destruct (code =? NEXT_TOPIC)%Z eqn:E; [reflexivity|].
  apply Z.eqb_neq in Hcode. rewrite Hcode. reflexivity.
Qed.

Lemma resolveAction_exhausted_last code forceEnd :
  List.length (questions topic) <= questionIdx ->
  topicAt plan (topicIdx + 1) = None ->
  resolveAction plan topicIdx questionIdx code forceEnd =
  {| plannedTopicName := "Interview Conclusion";
     plannedQuestionText := Some "Provide closing statement.";
     effectiveActionCode := END_INTERVIEW;
     endInterview := true;
     nextStateTopicIndex := topicIdx;
     nextStateQuestionIndex := questionIdx |}.
Proof.
  intros Hq Hnext. unfold resolveAction.
  destruct forceEnd; [reflexivity|].
  rewrite Htopic. apply Nat.ltb_ge in Hq. rewrite Hq, Hnext. reflexivity.
Qed.

End Resolution.

(** ** What a chain of [askQuestion] calls leaves alone *)

(** One call of [askQuestion], case by case: the outcome of the LLM call,
    the kind of turn, the follow-up limit, the forced next step. *)
Ltac ask_cases :=
  repeat match goal with
    | |- context [match callInterviewerLlm ?a ?b with _ => _ end] =>
        destruct (callInterviewerLlm a b) as [?out|] eqn:?Hcall
    | |- context [match forcedNext ?p ?t ?q with _ => _ end] =>
        destruct (forcedNext p t q) as [[[?ft ?fq] ?fa]|] eqn:?Hforced
    | |- context [if ?b then _ else _] => destruct b eqn:?Hcond
    | |- context [match ?l with [] => _ | _ :: _ => _ end] =>
        is_var l; destruct l
    end.

(** The comparisons of the code, turned into propositions. *)
Ltac tests :=
  repeat match goal with
    | H : (_ <? _) = true |- _ => apply Nat.ltb_lt in H
    | H : (_ <? _) = false |- _ => apply Nat.ltb_ge in H
    | H : (_ <=? _) = true |- _ => apply Nat.leb_le in H
    | H : (_ <=? _) = false |- _ => apply Nat.leb_gt in H
    | H : (_ =? _)%Z = true |- _ => apply Z.eqb_eq in H
    | H : (_ =? _)%Z = false |- _ => apply Z.eqb_neq in H
    | H : (_ && _) = true |- _ => apply andb_prop in H; destruct H
    | H : (_ || _) = false |- _ => apply orb_false_elim in H; destruct H
    | H : (_ || _) = true |- _ => apply orb_prop in H; destruct H
    | H : negb _ = true |- _ => apply negb_true_iff in H
    | H : negb _ = false |- _ => apply negb_false_iff in H
    end.

Lemma askQuestion_log c llm :
  forall topicIdx questionIdx code forceEnd s s',
    askQuestion c topicIdx questionIdx code forceEnd llm s = Some s' ->
    interviewLog s' = interviewLog s.
Proof.
  induction llm as [|llmResponse llm IH]; intros t q code fe s s' H;
    [discriminate|].
  cbn [askQuestion] in H. revert H. ask_cases; intros H;
    try discriminate; try (injection H as <-; reflexivity).
  all: apply IH in H; exact H.
Qed.

(** ** The follow-up streak *)

(** A follow-up type survives [callInterviewerLlm] only when the action is not
    the end of the interview. *)
Lemma follow_up_not_at_end code llmResponse out :
  callInterviewerLlm code llmResponse = Resolved out ->
  io_type out = "follow-up" ->
  code <> END_INTERVIEW.
Proof.
  unfold callInterviewerLlm. destruct llmResponse as [parsed|]; [|discriminate].
  intros H Hty Hcode. subst code. cbn in H. injection H as <-.
  discriminate Hty.
Qed.

Lemma askQuestion_streak_bound c llm :
  forall topicIdx questionIdx code forceEnd s s',
    askQuestion c topicIdx questionIdx code forceEnd llm s = Some s' ->
    currentFollowUpStreak s <= currentFollowUpStreak c ->
    currentFollowUpStreak c <= MAX_FOLLOW_UP_STREAK ->
    currentFollowUpStreak s' <= MAX_FOLLOW_UP_STREAK.
Proof.
  induction llm as [|llmResponse llm IH]; intros t q code fe s s' H Hs Hc;
    [discriminate|].
  cbn [askQuestion] in H. revert H. ask_cases; intros H;
    try discriminate; tests; try (injection H as <-; cbn; lia).
  all: apply IH in H; [exact H | cbn; lia | exact Hc].
Qed.

(** Past the limit no follow-up is entered, however many the LLM proposes:
    the chain ends with the follow-up state cleared. *)
Lemma askQuestion_at_limit c llm :
  forall topicIdx questionIdx code forceEnd s s',
    askQuestion c topicIdx questionIdx code forceEnd llm s = Some s' ->
    MAX_FOLLOW_UP_STREAK <= currentFollowUpStreak c ->
    currentFollowUpStreak s = 0 ->
    isFollowUpActive s = false ->
    pausedState s = None ->
    currentFollowUpStreak s' = 0 /\ isFollowUpActive s' = false
    /\ pausedState s' = None.
Proof.
  induction llm as [|llmResponse llm IH];
    intros t q code fe s s' H Hc Hs Ha Hp; [discriminate|].
  cbn [askQuestion] in H. revert H. ask_cases; intros H;
    try discriminate; tests; try lia; try (injection H as <-; cbn; auto).
  all: apply IH in H; auto.
Qed.

(** ** The end of the plan *)

(** C3.  At a position whose topic exists, whose questions are exhausted
    ([questionIdx] at or past their number) and after which the plan has no
    topic, [askQuestion] resolves the action to [END_INTERVIEW] with
    [endInterview] set, whatever action code is requested and whether or not
    the end is forced; and whatever the interviewer LLM answers, the call
    completes with the interview [ENDED]. *)
Theorem exhausted_last_topic_ends_interview :
  forall c topicIdx questionIdx topic code forceEnd,
    topicAt (interviewPlan c) topicIdx = Some topic ->
    List.length (questions topic) <= questionIdx ->
    topicAt (interviewPlan c) (topicIdx + 1) = None ->
    let r := resolveAction (interviewPlan c) topicIdx questionIdx code
               forceEnd in
    effectiveActionCode r = END_INTERVIEW
    /\ endInterview r = true
    /\ forall llmResponse llm s,
         exists s',
           askQuestion c topicIdx questionIdx code forceEnd
             (llmResponse :: llm) s = Some s'
           /\ interviewState s' = ENDED.
Proof.
  intros c t q topic code fe Htopic Hq Hnext r.
  assert (Hr : r = {| plannedTopicName := "Interview Conclusion";
                      plannedQuestionText := Some "Provide closing statement.";
                      effectiveActionCode := END_INTERVIEW;
                      endInterview := true;
                      nextStateTopicIndex := t;
                      nextStateQuestionIndex := q |})
    by (apply resolveAction_exhausted_last with (topic := topic); assumption).
  rewrite Hr. repeat split.
  intros llmResponse llm s. cbn [askQuestion]. fold r. rewrite Hr.
  cbn [effectiveActionCode endInterview].
  destruct (callInterviewerLlm END_INTERVIEW llmResponse) as [out|];
    [|eexists; split; reflexivity].
  rewrite Z.eqb_refl, andb_false_r. cbn.
  eexists; split; reflexivity.
Qed.

Lemma exhausted_last_topic_ends_interview_witness :
  effectiveActionCode
    (resolveAction (Some Sample.plan) 1 3 REPEAT_QUESTION false)
  = END_INTERVIEW
  /\ exists s',
       askQuestion Sample.started 1 3 REPEAT_QUESTION false
         [Sample.digresses "And what about streams?"] Sample.started
       = Some s'
       /\ interviewState s' = ENDED.
Proof.
  pose proof (exhausted_last_topic_ends_interview Sample.started 1 3
                {| name := "Node.js";
                   questions := ["What is Node.js?"; "What is the event loop?";
                                 "What does package.json list?"] |}
                REPEAT_QUESTION false eq_refl) as H.
  cbv zeta in H.
  destruct H as (Heff & _ & Hask); [cbn; lia | reflexivity |].
  split; [exact Heff | apply Hask].
Defined.

(** ** A request for the next topic *)

(** What [handleSubmitAnswer] asks for after a planned answer. *)
Lemma processMonitorOutput_planned c monitorOutput s :
  isFollowUpActive c = false ->
  processMonitorOutput c monitorOutput s =
  let logged := s |> setInterviewLog (fun prev =>
                  prev ++ [{| le_output := monitorOutput;
                              le_type := planned |}]) in
  (fst (countAttempt c (actionCode monitorOutput) logged),
   nextStep c (snd (countAttempt c (actionCode monitorOutput) logged))).
Proof.
  intros Ha. unfold processMonitorOutput. rewrite Ha. cbv zeta.
  destruct (countAttempt c (actionCode monitorOutput) _); reflexivity.
Qed.

(** C1, as amended.  When [askQuestion] is called for a target position whose
    topic has a question at [questionIdx] with the action [NEXT_TOPIC], the
    action is corrected to [NEXT_QUESTION] and the question asked is the one
    at the target, in the target's topic; a planned turn then makes the
    target the current position.  The target itself is chosen before, by
    [handleSubmitAnswer]: for a planned answer assessed [NEXT_TOPIC] it is
    the first question of the next topic. *)
Theorem next_topic_corrected_at_target :
  forall c topicIdx questionIdx topic,
    topicAt (interviewPlan c) topicIdx = Some topic ->
    questionIdx < List.length (questions topic) ->
    let r := resolveAction (interviewPlan c) topicIdx questionIdx NEXT_TOPIC
               false in
    effectiveActionCode r = NEXT_QUESTION
    /\ endInterview r = false
    /\ (nextStateTopicIndex r, nextStateQuestionIndex r)
       = (topicIdx, questionIdx)
    /\ plannedTopicName r = name topic
    /\ plannedQuestionText r = nth_error (questions topic) questionIdx
    /\ (forall llmResponse llm s out,
          callInterviewerLlm NEXT_QUESTION llmResponse = Resolved out ->
          io_type out <> "follow-up" ->
          exists s',
            askQuestion c topicIdx questionIdx NEXT_TOPIC false
              (llmResponse :: llm) s = Some s'
            /\ position s' = (topicIdx, questionIdx))
    /\ (forall monitorOutput s,
          isFollowUpActive c = false ->
          actionCode monitorOutput = NEXT_TOPIC ->
          snd (processMonitorOutput c monitorOutput s)
          = (currentTopicIndex c + 1, 0, NEXT_TOPIC)).
Proof.
  intros c t q topic Htopic Hq r.
  assert (Hr : r = {| plannedTopicName := name topic;
                      plannedQuestionText := nth_error (questions topic) q;
                      effectiveActionCode := NEXT_QUESTION;
                      endInterview := false;
                      nextStateTopicIndex := t;
                      nextStateQuestionIndex := q |})
    by (apply resolveAction_in_topic with (code := NEXT_TOPIC);
        [assumption | assumption | discriminate]).
  rewrite Hr. cbn [effectiveActionCode endInterview nextStateTopicIndex
                   nextStateQuestionIndex plannedTopicName plannedQuestionText].
  repeat split.
  - intros llmResponse llm s out Hcall Hty.
    cbn [askQuestion]. fold r. rewrite Hr. cbn [effectiveActionCode].
    rewrite Hcall. apply String.eqb_neq in Hty. rewrite Hty. cbn.
    eexists; split; reflexivity.
  - intros monitorOutput s Ha Hcode.
    rewrite processMonitorOutput_planned by assumption. cbn [snd].
    unfold countAttempt. rewrite Hcode. reflexivity.
Qed.

Lemma next_topic_corrected_at_target_witness :
  effectiveActionCode
    (resolveAction (Some Sample.plan) 0 1 NEXT_TOPIC false)
  = NEXT_QUESTION
  /\ plannedQuestionText
       (resolveAction (Some Sample.plan) 0 1 NEXT_TOPIC false)
     = Some "How do props work in React?".
Proof.
  pose proof (next_topic_corrected_at_target Sample.started 0 1
                {| name := "React";
                   questions := ["What is a React component?";
                                 "How do props work in React?"] |}
                eq_refl) as H.
  cbv zeta in H.
  destruct H as (Heff & _ & _ & _ & Htext & _); [cbn; lia |].
  split; [exact Heff | exact Htext].
Defined.

(** C1, as stated, fails: the first question of React has been answered, the
    topic still has its second question, the monitor asks for the next topic
    and the interviewer asks a planned question; the session is then at the
    first question of Node.js, and the second question of React is never
    asked. *)
Lemma next_topic_request_leaves_topic :
  hasQuestion (interviewPlan Sample.started)
    (currentTopicIndex Sample.started)
    (currentQuestionIndex Sample.started) = true
  /\ hasQuestion (interviewPlan Sample.started)
       (currentTopicIndex Sample.started)
       (currentQuestionIndex Sample.started + 1) = true
  /\ exists s',
       submitAnswer
         (Sample.answer NEXT_TOPIC [Sample.says "What is Node.js?"])
         Sample.started = Some s'
       /\ interviewState s' = IN_PROGRESS
       /\ position s' = (1, 0)
       /\ currentTopicIndex s' <> currentTopicIndex Sample.started.
Proof.
  split; [reflexivity|]. split; [reflexivity|].
  eexists. split; [reflexivity|]. cbn. repeat split; discriminate.
Qed.

(** ** The attempt count *)

Lemma hasQuestion_topic plan i j :
  hasQuestion plan i j = true ->
  exists topic, topicAt plan i = Some topic
                /\ j < List.length (questions topic).
Proof.
  unfold hasQuestion. destruct (topicAt plan i) as [topic|]; [|discriminate].
  destruct (nth_error (questions topic) j) eqn:E; [|discriminate].
  intros _. exists topic. split; [reflexivity|].
  apply nth_error_Some. congruence.
Qed.


(** The attempt count of one planned answer, for any count so far. *)
Lemma countAttempt_sent_back c code s :
  code = REPEAT_QUESTION \/ code = CLARIFY_QUESTION ->
  countAttempt c code s =
  (s |> setCurrentQuestionAttempts (currentQuestionAttempts c + 1),
   if MAX_ATTEMPTS_PLANNED <=? currentQuestionAttempts c + 1
   then NEXT_QUESTION else code).
Proof.
  intros [-> | ->]; unfold countAttempt; cbn [Z.eqb orb];
    destruct (MAX_ATTEMPTS_PLANNED <=? currentQuestionAttempts c + 1);
    reflexivity.
Qed.






(** ** The follow-up limit *)

Lemma processMonitorOutput_streak c monitorOutput s :
  currentFollowUpStreak (fst (processMonitorOutput c monitorOutput s))
  = currentFollowUpStreak s.
Proof.
  unfold processMonitorOutput, countAttempt.
  destruct (isFollowUpActive c), (pausedState c);
    repeat match goal with
      | |- context [if ?b then _ else _] => destruct b
      end; reflexivity.
Qed.

Lemma handleStartInterview_streak description planner s :
  currentFollowUpStreak (handleStartInterview description planner s)
  <= currentFollowUpStreak s.
Proof.
  unfold handleStartInterview.
  destruct (description =? "")%string; [lia|].
  destruct planner as [plan|]; [destruct (validPlan plan)|]; cbn; lia.
Qed.

Lemma submitAnswer_streak a s s' :
  submitAnswer a s = Some s' ->
  currentFollowUpStreak s <= MAX_FOLLOW_UP_STREAK ->
  currentFollowUpStreak s' <= MAX_FOLLOW_UP_STREAK.
Proof.
  unfold submitAnswer, handleSubmitAnswer. intros H Hs.
  destruct (negb (answerTaken s (textAnswer a) (codeToSend a)));
    [injection H as <-; exact Hs|].
  destruct (answerContext s); [|injection H as <-; exact Hs].
  destruct (monitor a) as [m|]; [|injection H as <-; exact Hs].
  pose proof (processMonitorOutput_streak s m (s |> setIsLoading true)) as Hp.
  destruct (processMonitorOutput s m (s |> setIsLoading true))
    as [s1 [[t q] code]].
  cbn [fst] in Hp. cbn in Hp.
  apply askQuestion_streak_bound in H; [exact H | lia | exact Hs].
Qed.

Lemma reachable_streak s :
  reachable s -> currentFollowUpStreak s <= MAX_FOLLOW_UP_STREAK.
Proof.
  induction 1 as [|s description planner _ IH|s llm s' _ IH Hstep
                  |s a s' _ IH Hstep].
  - cbn. lia.
  - pose proof (handleStartInterview_streak description planner s). lia.
  - unfold startInterviewEffect in Hstep.
    destruct (Phase_eqb (interviewState s) PLANNING_COMPLETE);
      [|injection Hstep as <-; exact IH].
    destruct (interviewPlan s); [|injection Hstep as <-; exact IH].
    apply askQuestion_streak_bound in Hstep; [exact Hstep | cbn; lia | exact IH].
  - eapply submitAnswer_streak; eassumption.
Qed.

(** The state [askQuestion] works on once the follow-up limit is found
    reached. *)
Lemma askQuestion_follow_up_at_limit c topicIdx questionIdx code llmResponse
    llm out s :
  MAX_FOLLOW_UP_STREAK <= currentFollowUpStreak c ->
  callInterviewerLlm
    (effectiveActionCode
       (resolveAction (interviewPlan c) topicIdx questionIdx code false))
    llmResponse = Resolved out ->
  io_type out = "follow-up" ->
  askQuestion c topicIdx questionIdx code false (llmResponse :: llm) s =
  let cleared := s |> setIsLoading true
                   |> setIsFollowUpActive false
                   |> setCurrentFollowUpQuestionText None
                   |> setPausedState None
                   |> setCurrentFollowUpStreak (fun _ => 0) in
  match forcedNext (interviewPlan c) topicIdx questionIdx with
  | None =>
      match llm with
      | [] => None
      | _ :: _ => Some (cleared |> setInterviewState ENDED
                                |> setIsLoading false)
      end
  | Some (forcedNextTopicIndex, forcedNextQuestionIndex, forcedNextAction) =>
      askQuestion c forcedNextTopicIndex forcedNextQuestionIndex
        forcedNextAction false llm
        (cleared |> setCurrentTopicIndex forcedNextTopicIndex
                 |> setCurrentQuestionIndex forcedNextQuestionIndex)
  end.
Proof.
  intros Hc Hcall Hty. cbn [askQuestion]. rewrite Hcall.
  pose proof (follow_up_not_at_end _ _ _ Hcall Hty) as Hend.
  apply Z.eqb_neq in Hend. rewrite Hend, Hty. cbn [String.eqb negb andb].
  change ("follow-up" =? "follow-up")%string with true. cbn [andb].
  apply Nat.ltb_ge in Hc. rewrite Hc. reflexivity.
Qed.

Lemma run_reachable answers :
  forall s s', reachable s -> run s answers = Some s' -> reachable s'.
Proof.
  induction answers as [|a answers IH]; intros s s' Hs H; cbn [run] in H.
  - injection H as <-. exact Hs.
  - destruct (submitAnswer a s) as [s1|] eqn:E; [|discriminate].
    eapply IH; [|exact H]. eapply reach_submit; eassumption.
Qed.

Example started_reachable : reachable Sample.started.
Proof.
  eapply reach_effect; [|exact started_is_started].
  apply reach_start. exact reach_initial.
Qed.

Example digressing_reachable : reachable Sample.digressing.
Proof.
  eapply run_reachable; [exact started_reachable|].
  exact digressing_is_reached.
Qed.

(** ** The attempt count when the position changes *)

Lemma forcedNext_moves_on plan topicIdx questionIdx ft fq fa :
  forcedNext plan topicIdx questionIdx = Some (ft, fq, fa) ->
  movesOn fa /\ earlier (topicIdx, questionIdx) (ft, fq).
Proof.
  unfold forcedNext, movesOn, earlier.
  destruct (hasQuestion plan topicIdx (questionIdx + 1)); cbn [negb].
  - intros H. injection H as <- <- <-. cbn. split; [auto | lia].
  - destruct (topicAt plan (topicIdx + 1)); [|discriminate].
    intros H. injection H as <- <- <-. cbn. split; [auto | lia].
Qed.

Lemma resumeAfterFollowUp_moves_on plan p :
  movesOn (snd (resumeAfterFollowUp plan p))
  /\ earlier (topicIndex p, questionIndex p)
       (fst (resumeAfterFollowUp plan p)).
Proof.
  unfold resumeAfterFollowUp, movesOn, earlier.
  destruct (hasQuestion plan (topicIndex p) (questionIndex p + 1));
    cbn [negb]; [cbn; split; [auto | lia]|].
  destruct (topicAt plan (topicIndex p + 1)); cbn; split; auto; lia.
Qed.

(** The action and the position [askQuestion] settles on before the LLM
    call. *)
Lemma resolveAction_moves_on plan topicIdx questionIdx code forceEnd :
  movesOn code ->
  movesOn (effectiveActionCode
             (resolveAction plan topicIdx questionIdx code forceEnd)).
Proof.
  unfold resolveAction, movesOn. intros Hcode.
  repeat match goal with
    | |- context [match topicAt ?p ?t with _ => _ end] =>
        destruct (topicAt p t)
    | |- context [if ?b then _ else _] => destruct b eqn:?E
    end; cbn [effectiveActionCode] in *; tests; auto.
Qed.

Lemma resolveAction_next plan topicIdx questionIdx code forceEnd :
  atOrAfter (topicIdx, questionIdx)
    (nextStateTopicIndex
       (resolveAction plan topicIdx questionIdx code forceEnd),
     nextStateQuestionIndex
       (resolveAction plan topicIdx questionIdx code forceEnd)).
Proof.
  unfold resolveAction, atOrAfter.
  repeat match goal with
    | |- context [match topicAt ?p ?t with _ => _ end] =>
        destruct (topicAt p t)
    | |- context [if ?b then _ else _] => destruct b eqn:?E
    end; cbn; lia.
Qed.


Lemma resolveAction_end plan topicIdx questionIdx code forceEnd :
  endInterview (resolveAction plan topicIdx questionIdx code forceEnd) = true ->
  effectiveActionCode (resolveAction plan topicIdx questionIdx code forceEnd)
  = END_INTERVIEW.
Proof.
  unfold resolveAction.
  repeat match goal with
    | |- context [match topicAt ?p ?t with _ => _ end] =>
        destruct (topicAt p t)
    | |- context [if ?b then _ else _] => destruct b eqn:?E
    end; cbn; tests; auto; discriminate.
Qed.

(** What a chain of calls does to the attempt count once the follow-up limit
    is reached: the interview ends with the count as it was, or a planned
    question at or after the one of the call is asked with the count at 0. *)
Lemma askQuestion_past_limit c llm :
  forall topicIdx questionIdx code forceEnd s s',
    MAX_FOLLOW_UP_STREAK <= currentFollowUpStreak c ->
    movesOn code ->
    askQuestion c topicIdx questionIdx code forceEnd llm s = Some s' ->
    (interviewState s' = ENDED
     /\ currentQuestionAttempts s' = currentQuestionAttempts s)
    \/ (currentQuestionAttempts s' = 0
        /\ atOrAfter (topicIdx, questionIdx) (position s')
        /\ interviewState s' = interviewState s).
Proof.
  induction llm as [|llmResponse llm IH];
    intros t q code fe s s' Hc Hcode H; [discriminate|].
  cbn [askQuestion] in H.
  pose proof (resolveAction_moves_on (interviewPlan c) t q code fe Hcode)
    as Hmoves.
  pose proof (resolveAction_next (interviewPlan c) t q code fe) as Hnext.
  pose proof (resolveAction_end (interviewPlan c) t q code fe) as Hend.
  set (r := resolveAction (interviewPlan c) t q code fe) in *.
  revert H. ask_cases; intros H; try discriminate; tests; try lia.
  all: try (injection H as <-; cbn; unfold movesOn in Hmoves;
            unfold NEXT_QUESTION, NEXT_TOPIC, END_INTERVIEW in *;
            first [ left; split; reflexivity
                  | right; repeat split; assumption
                  | exfalso; intuition congruence ]).
  all: apply forcedNext_moves_on in Hforced as [Hfa Hearlier];
    apply IH in H; [|assumption|assumption];
    cbn in H; unfold atOrAfter, earlier, position in *; cbn in *;
    intuition lia.
Qed.




(** ** The answer to a follow-up *)

(** What [handleSubmitAnswer] does with the assessment of a follow-up
    answer. *)
Lemma processMonitorOutput_follow_up c p monitorOutput s :
  isFollowUpActive c = true ->
  pausedState c = Some p ->
  processMonitorOutput c monitorOutput s =
  (s |> setInterviewLog (fun prev =>
          prev ++ [{| le_output := monitorOutput; le_type := follow_up |}])
     |> setIsFollowUpActive false
     |> setCurrentFollowUpQuestionText None
     |> setPausedState None,
   resumeAfterFollowUp (interviewPlan c) p).
Proof.
  intros Ha Hp. unfold processMonitorOutput. rewrite Ha, Hp. reflexivity.
Qed.

Lemma wellFormed_topic plan i topic :
  wellFormed plan = true ->
  topicAt (Some plan) i = Some topic ->
  0 < List.length (questions topic)
  /\ forall j, hasQuestion (Some plan) i j = (j <? List.length (questions topic)).
Proof.
  unfold wellFormed, validPlan. intros Hwf Htopic.
  apply andb_prop in Hwf as [Hvalid Htruthy].
  apply andb_prop in Hvalid as [_ Hvalid].
  cbn [topicAt] in Htopic. pose proof (nth_error_In _ _ Htopic) as Hin.
  rewrite forallb_forall in Hvalid, Htruthy.
  specialize (Hvalid _ Hin). specialize (Htruthy _ Hin).
  apply andb_prop in Hvalid as [_ Hlen]. apply negb_true_iff in Hlen.
  apply Nat.eqb_neq in Hlen. split; [lia|].
  intros j. unfold hasQuestion. cbn [topicAt]. rewrite Htopic.
  destruct (nth_error (questions topic) j) as [text|] eqn:E.
  - rewrite forallb_forall in Htruthy.
    rewrite (Htruthy _ (nth_error_In _ _ E)).
    symmetry. apply Nat.ltb_lt. apply nth_error_Some. congruence.
  - symmetry. apply Nat.ltb_ge. apply nth_error_None. exact E.
Qed.

(** ** The log *)

(** What one submitted answer adds to the log. *)
Lemma submitAnswer_log a s s' :
  submitAnswer a s = Some s' ->
  interviewLog s' =
  interviewLog s
  ++ match monitor a with
     | Resolved m =>
         if assessed s a
         then [{| le_output := m;
                  le_type := if isFollowUpActive s
                             then follow_up else planned |}]
         else []
     | Rejected => []
     end.
Proof.
  unfold submitAnswer, handleSubmitAnswer, assessed. intros H.
  destruct (answerTaken s (textAnswer a) (codeToSend a)); cbn [negb andb] in *;
    [|injection H as <-; destruct (monitor a); symmetry; apply app_nil_r].
  destruct (answerContext s);
    [|injection H as <-; destruct (monitor a); symmetry; apply app_nil_r].
  destruct (monitor a) as [m|];
    [|injection H as <-; symmetry; apply app_nil_r].
  cbn [andb].
  assert (Hlog : interviewLog
                   (fst (processMonitorOutput s m (s |> setIsLoading true)))
                 = interviewLog s
                   ++ [{| le_output := m;
                          le_type := if isFollowUpActive s
                                     then follow_up else planned |}]).
  { unfold processMonitorOutput, countAttempt.
    destruct (isFollowUpActive s), (pausedState s);
      repeat match goal with
        | |- context [if ?b then _ else _] => destruct b
        end; reflexivity. }
  destruct (processMonitorOutput s m (s |> setIsLoading true))
    as [s1 [[t q] code]].
  apply askQuestion_log in H. cbn [fst] in Hlog. congruence.
Qed.

(** C10.  The entry logged for an assessed answer is the monitor's output as
    it came, with the turn type added: its [actionCode] is the one the
    monitor asked for, whatever [handleSubmitAnswer] and [askQuestion] make
    of it afterwards (the next question forced at the attempt limit, the
    correction of [NEXT_TOPIC], the end forced for an unknown code). *)
Theorem log_keeps_requested_action_code :
  forall a s s' m,
    assessed s a = true ->
    monitor a = Resolved m ->
    submitAnswer a s = Some s' ->
    exists entry,
      interviewLog s' = interviewLog s ++ [entry]
      /\ le_output entry = m
      /\ actionCode (le_output entry) = actionCode m.
Proof.
  intros a s s' m Hassessed Hm H.
  apply submitAnswer_log in H. rewrite Hm, Hassessed in H.
  eexists. split; [exact H|]. split; reflexivity.
Qed.

Lemma log_keeps_requested_action_code_witness :
  exists s2 s3,
    run Sample.started
      [Sample.answer REPEAT_QUESTION [Sample.says "Once more, please."];
       Sample.answer CLARIFY_QUESTION [Sample.says "Could you say more?"]]
    = Some s2
    /\ snd (processMonitorOutput s2 (Sample.assessment REPEAT_QUESTION) s2)
       = (0, 1, NEXT_QUESTION)
    /\ submitAnswer
         (Sample.answer REPEAT_QUESTION
            [Sample.says "How do props work in React?"]) s2 = Some s3
    /\ exists entry,
         interviewLog s3 = interviewLog s2 ++ [entry]
         /\ actionCode (le_output entry) = REPEAT_QUESTION.
Proof.
  assert (E : exists s2 s3,
             run Sample.started
               [Sample.answer REPEAT_QUESTION
                  [Sample.says "Once more, please."];
                Sample.answer CLARIFY_QUESTION
                  [Sample.says "Could you say more?"]] = Some s2
             /\ snd (processMonitorOutput s2
                       (Sample.assessment REPEAT_QUESTION) s2)
                = (0, 1, NEXT_QUESTION)
             /\ assessed s2
                  (Sample.answer REPEAT_QUESTION
                     [Sample.says "How do props work in React?"]) = true
             /\ submitAnswer
                  (Sample.answer REPEAT_QUESTION
                     [Sample.says "How do props work in React?"]) s2
                = Some s3).
  { eexists. eexists. split; [vm_compute; reflexivity|].
    split; [vm_compute; reflexivity|].
    split; vm_compute; reflexivity. }
  destruct E as (s2 & s3 & Hrun & Hnext & Hassessed & Hstep).
  exists s2, s3. repeat split; try assumption.
  destruct (log_keeps_requested_action_code _ s2 s3
              (Sample.assessment REPEAT_QUESTION) Hassessed eq_refl Hstep)
    as (entry & Hlog & _ & Hcode).
  exists entry. split; [exact Hlog | exact Hcode].
Defined.


Lemma untaken_answer_changes_nothing a s :
  answerTaken s (textAnswer a) (codeToSend a) = false ->
  submitAnswer a s = Some s.
Proof.
  unfold submitAnswer, handleSubmitAnswer. intros ->. reflexivity.
Qed.

(** Once the interview has ended no answer is taken. *)
Lemma ended_takes_no_answer answers :
  forall s,
    interviewState s = ENDED ->
    run s answers = Some s
    /\ answeredTurns s answers = 0
    /\ assessedTurns s answers = 0.
Proof.
  induction answers as [|a answers IH]; intros s Hs; [repeat split|].
  assert (Htaken : answerTaken s (textAnswer a) (codeToSend a) = false)
    by (unfold answerTaken; rewrite Hs; cbn; apply andb_false_r).
  cbn [run answeredTurns assessedTurns]. unfold assessed.
  rewrite (untaken_answer_changes_nothing a s Htaken), Htaken.
  cbn [andb]. exact (IH s Hs).
Qed.




(** ** An assessment out of shape *)

Lemma askQuestion_end c topicIdx questionIdx code forceEnd llmResponse llm s :
  effectiveActionCode
    (resolveAction (interviewPlan c) topicIdx questionIdx code forceEnd)
  = END_INTERVIEW ->
  exists s',
    askQuestion c topicIdx questionIdx code forceEnd (llmResponse :: llm) s
    = Some s'
    /\ interviewState s' = ENDED.
Proof.
  intros Heff. cbn [askQuestion]. rewrite Heff.
  destruct (callInterviewerLlm END_INTERVIEW llmResponse) as [out|];
    [|eexists; split; reflexivity].
  rewrite Z.eqb_refl, andb_false_r, orb_true_r. cbn.
  eexists; split; reflexivity.
Qed.

Lemma resolveAction_end_in_topic plan topicIdx questionIdx :
  hasQuestion plan topicIdx questionIdx = true ->
  effectiveActionCode
    (resolveAction plan topicIdx questionIdx END_INTERVIEW false)
  = END_INTERVIEW.
Proof.
  intros Hhas. destruct (hasQuestion_topic _ _ _ Hhas) as (topic & Htopic & Hq).
  unfold resolveAction. rewrite Htopic. apply Nat.ltb_lt in Hq. rewrite Hq.
  reflexivity.
Qed.

(** C8, as amended.  When the session waits for the answer to a planned
    question, an answer is submitted and the monitor's output has an
    [actionCode] outside 1..5, the output is logged as it came, the action is
    replaced by [END_INTERVIEW] and, whatever the interviewer LLM answers,
    the interview is [ENDED]. *)
Theorem unknown_action_code_ends_interview :
  forall s a m llmResponse llm,
    awaitsPlannedAnswer s = true ->
    answerTaken s (textAnswer a) (codeToSend a) = true ->
    monitor a = Resolved m ->
    ~ (1 <= actionCode m <= 5)%Z ->
    interviewer a = llmResponse :: llm ->
    snd (processMonitorOutput s m s)
    = (currentTopicIndex s, currentQuestionIndex s, END_INTERVIEW)
    /\ exists s',
         submitAnswer a s = Some s'
         /\ interviewState s' = ENDED
         /\ interviewLog s'
            = interviewLog s ++ [{| le_output := m; le_type := planned |}].
Proof.
  intros s a m llmResponse llm Hs Htaken Hm Hcode Hllm.
  unfold awaitsPlannedAnswer in Hs.
  apply andb_prop in Hs as [Hs Hhas]. apply andb_prop in Hs as [_ Hact].
  apply negb_true_iff in Hact.
  assert (Hcount : forall st, countAttempt s (actionCode m) st
                              = (st, actionCode m)).
  { intros st. unfold countAttempt.
    destruct (actionCode m =? REPEAT_QUESTION)%Z eqn:E1;
      [apply Z.eqb_eq in E1; rewrite E1 in Hcode;
       unfold REPEAT_QUESTION in Hcode; lia|].
    destruct (actionCode m =? CLARIFY_QUESTION)%Z eqn:E2;
      [apply Z.eqb_eq in E2; rewrite E2 in Hcode;
       unfold CLARIFY_QUESTION in Hcode; lia|].
    reflexivity. }
  assert (Hstep : nextStep s (actionCode m)
                  = (currentTopicIndex s, currentQuestionIndex s,
                     END_INTERVIEW)).
  { unfold nextStep.
    repeat match goal with
      | |- context [(actionCode m =? ?k)%Z] =>
          let E := fresh "E" in
          destruct (actionCode m =? k)%Z eqn:E;
          [apply Z.eqb_eq in E; rewrite E in Hcode;
           unfold REPEAT_QUESTION, CLARIFY_QUESTION, NEXT_QUESTION,
             NEXT_TOPIC, END_INTERVIEW in Hcode; lia|]
      end.
    reflexivity. }
  split.
  - rewrite processMonitorOutput_planned by assumption. cbv zeta.
    rewrite Hcount. cbn [fst snd]. exact Hstep.
  - assert (Hassessed : assessed s a = true).
    { unfold assessed, answerContext. rewrite Htaken, Hm, Hact, Hhas.
      reflexivity. }
    unfold submitAnswer, handleSubmitAnswer. rewrite Htaken. cbn [negb].
    unfold answerContext. rewrite Hact, Hhas, Hm, Hllm.
    rewrite processMonitorOutput_planned by assumption. cbv zeta.
    rewrite Hcount. cbn [fst snd]. rewrite Hstep.
    destruct (askQuestion_end s (currentTopicIndex s) (currentQuestionIndex s)
                END_INTERVIEW false llmResponse llm
                (s |> setIsLoading true
                   |> setInterviewLog (fun prev =>
                        prev ++ [{| le_output := m; le_type := planned |}])))
      as (s' & Hask & Hended);
      [apply resolveAction_end_in_topic; exact Hhas|].
    exists s'. split; [exact Hask|]. split; [exact Hended|].
    apply askQuestion_log in Hask. exact Hask.
Qed.

Lemma unknown_action_code_ends_interview_witness :
  exists s',
    submitAnswer (Sample.answer 9 [Sample.says "Thank you."])
      Sample.started = Some s'
    /\ interviewState s' = ENDED
    /\ List.length (interviewLog s') = 1.
Proof.
  destruct (unknown_action_code_ends_interview Sample.started
              (Sample.answer 9 [Sample.says "Thank you."])
              (Sample.assessment 9) (Sample.says "Thank you.") []
              eq_refl eq_refl eq_refl)
    as (_ & s' & Hstep & Hended & Hlog);
    [cbn; lia | reflexivity |].
  exists s'. split; [exact Hstep|]. split; [exact Hended|].
  rewrite Hlog. reflexivity.
Defined.

(** C8, as stated, fails twice.  An assessment of a planned answer whose
    accuracy is 2, outside the range from 0 to 1, is logged and the interview
    goes on with the next question.  And an assessment of a follow-up answer
    whose action code is 9 is logged and the interview goes on with the
    planned step after the paused position. *)
Lemma misshapen_assessment_goes_on :
  validAssessment
    {| mo_topicIndex := 0; mo_questionIndex := 0;
       metrics := {| accuracy := 2; relevance := 1; clarity := 1;
                     completeness := 1 |};
       actionCode := NEXT_QUESTION; reason := "as assessed";
       discussion_point := None |} = false
  /\ (exists s',
        submitAnswer
          {| textAnswer := "A function returning JSX."; codeToSend := "";
             monitor :=
               Resolved
                 {| mo_topicIndex := 0; mo_questionIndex := 0;
                    metrics := {| accuracy := 2; relevance := 1; clarity := 1;
                                  completeness := 1 |};
                    actionCode := NEXT_QUESTION; reason := "as assessed";
                    discussion_point := None |};
             interviewer := [Sample.says "How do props work in React?"] |}
          Sample.started = Some s'
        /\ interviewState s' = IN_PROGRESS
        /\ position s' = (0, 1)
        /\ List.length (interviewLog s') = 1)
  /\ validAssessment (Sample.assessment 9) = false
  /\ (exists s',
        submitAnswer
          (Sample.answer 9 [Sample.says "What is the event loop?"])
          Sample.digressing = Some s'
        /\ interviewState s' = IN_PROGRESS
        /\ position s' = (1, 1)).
Proof.
  split; [reflexivity|]. split.
  - eexists. split; [vm_compute; reflexivity|]. repeat split.
  - split; [reflexivity|].
    eexists. split; [vm_compute; reflexivity|]. repeat split.
Qed.

(** ** Completion *)

Lemma skipn_nth_error {A} (l : list A) :
  forall n x, nth_error l n = Some x -> skipn n l = x :: skipn (S n) l.
Proof.
  induction l as [|y l IH]; intros [|n] x H; try discriminate.
  - injection H as ->. reflexivity.
  - cbn [nth_error] in H. cbn [skipn]. rewrite (IH n x H). reflexivity.
Qed.

(** A forced step leaves fewer questions to go. *)
Lemma forcedNext_remaining plan topicIdx questionIdx ft fq fa :
  forcedNext plan topicIdx questionIdx = Some (ft, fq, fa) ->
  remaining plan ft fq < remaining plan topicIdx questionIdx.
Proof.
  unfold forcedNext.
  destruct (hasQuestion plan topicIdx (questionIdx + 1)) eqn:Hhas; cbn [negb].
  - intros H. injection H as <- <- <-.
    destruct (hasQuestion_topic _ _ _ Hhas) as (topic & Htopic & Hq).
    destruct plan as [p|]; [|discriminate]. cbn [topicAt] in Htopic.
    unfold remaining. rewrite Htopic. lia.
  - destruct (topicAt plan (topicIdx + 1)) as [next|] eqn:Hnext;
      [|discriminate].
    intros H. injection H as <- <- <-.
    destruct plan as [p|]; [|discriminate]. cbn [topicAt] in Hnext.
    unfold remaining. rewrite Hnext.
    rewrite (skipn_nth_error _ _ _ Hnext). cbn [map list_sum].
    replace (S (topicIdx + 1)) with (topicIdx + 1 + 1) by lia.
    unfold list_sum. cbn [fold_right].
    destruct (nth_error (topics p) topicIdx); lia.
Qed.

(** A chain of [askQuestion] calls completes when the interviewer LLM
    answers often enough: two answers more than there are questions to go
    suffice. *)
Lemma askQuestion_completes c llm :
  forall topicIdx questionIdx code forceEnd s,
    remaining (interviewPlan c) topicIdx questionIdx + 2 <= List.length llm ->
    exists s',
      askQuestion c topicIdx questionIdx code forceEnd llm s = Some s'.
Proof.
  induction llm as [|llmResponse llm IH]; intros t q code fe s Hlen;
    cbn [List.length] in Hlen; [lia|].
  cbn [askQuestion]. ask_cases; try (eexists; reflexivity).
  all: try (apply forcedNext_remaining in Hforced; apply IH; lia).
  all: cbn [List.length] in Hlen; lia.
Qed.

(** * Further properties of the flow *)

(** ** The end of the interview is final *)

(** X1.  Once the interview has ended, submitted answers and the start
    effect change nothing: every run of answers leaves the state as it is. *)
Theorem ended_is_final :
  forall s answers llm,
    interviewState s = ENDED ->
    run s answers = Some s
    /\ startInterviewEffect s llm s = Some s.
Proof.
  intros s answers llm Hended. split.
  - apply ended_takes_no_answer. exact Hended.
  - unfold startInterviewEffect. rewrite Hended. reflexivity.
Qed.

Lemma ended_is_final_witness :
  run (setInterviewState ENDED Sample.started)
    [Sample.answer NEXT_QUESTION [Sample.says "How do props work?"];
     Sample.answer END_INTERVIEW []]
  = Some (setInterviewState ENDED Sample.started).
Proof.
  exact (proj1 (ended_is_final (setInterviewState ENDED Sample.started)
                  [Sample.answer NEXT_QUESTION
                     [Sample.says "How do props work?"];
                   Sample.answer END_INTERVIEW []] [] eq_refl)).
Defined.

(** ** The state of a follow-up *)

Lemma askQuestion_followUpConsistent c llm :
  forall topicIdx questionIdx code forceEnd s s',
    followUpConsistent s ->
    askQuestion c topicIdx questionIdx code forceEnd llm s = Some s' ->
    followUpConsistent s'.
Proof.
  induction llm as [|llmResponse llm IH]; intros t q code fe s s' Hs H;
    [discriminate|].
  cbn [askQuestion] in H. revert H. ask_cases; intros H; try discriminate.
  all: try (injection H as <-; unfold followUpConsistent in *; cbn;
            first [ exact Hs
                  | right; repeat split; reflexivity
                  | left; repeat split; try discriminate; lia ]).
  all: apply IH in H; [exact H|].
  all: unfold followUpConsistent; cbn; right; repeat split; reflexivity.
Qed.

Lemma askQuestion_streak_zero c llm :
  forall topicIdx questionIdx code forceEnd s s',
    askQuestion c topicIdx questionIdx code forceEnd llm s = Some s' ->
    isFollowUpActive s' = false ->
    interviewState s' <> ENDED ->
    currentFollowUpStreak s' = 0.
Proof.
  induction llm as [|llmResponse llm IH]; intros t q code fe s s' H;
    [discriminate|].
  cbn [askQuestion] in H. revert H. ask_cases; intros H; try discriminate.
  all: try (injection H as <-; cbn; intros; congruence).
  all: eapply IH; exact H.
Qed.

Lemma processMonitorOutput_followUpConsistent c monitorOutput s :
  followUpConsistent s ->
  followUpConsistent (fst (processMonitorOutput c monitorOutput s)).
Proof.
  intros Hs. unfold processMonitorOutput, countAttempt.
  destruct (isFollowUpActive c), (pausedState c);
    repeat match goal with
      | |- context [if ?b then _ else _] => destruct b
      end; cbn [fst];
    first [ exact Hs
          | unfold followUpConsistent; cbn; right; repeat split; reflexivity
          | unfold followUpConsistent in *; cbn; exact Hs ].
Qed.

Lemma followUpConsistent_loading s b :
  followUpConsistent s -> followUpConsistent (setIsLoading b s).
Proof. intros H. exact H. Qed.

Lemma reachable_followUpConsistent s :
  reachable s ->
  followUpConsistent s
  /\ (isFollowUpActive s = false ->
      interviewState s <> ENDED ->
      currentFollowUpStreak s = 0).
Proof.
  induction 1 as [|s description planner _ [IHc IHz]
                  |s llm s' _ [IHc IHz] Hstep
                  |s a s' _ [IHc IHz] Hstep].
  - split; [right; repeat split|reflexivity].
  - unfold handleStartInterview.
    destruct (description =? "")%string; [split; assumption|].
    destruct planner as [plan|]; [destruct (validPlan plan)|];
      (split; [right; repeat split|reflexivity]).
  - unfold startInterviewEffect in Hstep.
    destruct (Phase_eqb (interviewState s) PLANNING_COMPLETE);
      [|injection Hstep as <-; split; assumption].
    destruct (interviewPlan s); [|injection Hstep as <-; split; assumption].
    split.
    + eapply askQuestion_followUpConsistent; [|exact Hstep].
      right; repeat split.
    + eapply askQuestion_streak_zero; exact Hstep.
  - unfold submitAnswer, handleSubmitAnswer in Hstep.
    destruct (negb (answerTaken s (textAnswer a) (codeToSend a)));
      [injection Hstep as <-; split; assumption|].
    destruct (answerContext s);
      [|injection Hstep as <-; split; [exact IHc|cbn; congruence]].
    destruct (monitor a) as [m|];
      [|injection Hstep as <-; split; [exact IHc|cbn; congruence]].
    pose proof (processMonitorOutput_followUpConsistent s m
                  (s |> setIsLoading true)
                  (followUpConsistent_loading s true IHc)) as Hp.
    destruct (processMonitorOutput s m (s |> setIsLoading true))
      as [s1 [[t q] code]].
    cbn [fst] in Hp. split.
    + eapply askQuestion_followUpConsistent; [exact Hp|exact Hstep].
    + eapply askQuestion_streak_zero; exact Hstep.
Qed.

(** X2.  In every state a session can reach, the three state variables of a
    follow-up agree: either a follow-up is active, a position is paused, the
    follow-up question is kept and the streak is at least 1, or no follow-up
    is active, nothing is paused and no follow-up question is kept.  And
    unless the interview has ended, the streak is 0 whenever no follow-up is
    active. *)
Theorem follow_up_state_is_consistent :
  forall s,
    reachable s ->
    followUpConsistent s
    /\ (isFollowUpActive s = false ->
        interviewState s <> ENDED ->
        currentFollowUpStreak s = 0).
Proof. exact reachable_followUpConsistent. Qed.

Lemma follow_up_state_is_consistent_witness :
  followUpConsistent Sample.digressing.
Proof.
  exact (proj1 (follow_up_state_is_consistent Sample.digressing
                  digressing_reachable)).
Defined.

(** ** The bound on the attempt count *)

Lemma askQuestion_attempts_bound c llm topicIdx questionIdx code forceEnd s s' :
  movesOn code \/ currentQuestionAttempts s < MAX_ATTEMPTS_PLANNED ->
  currentQuestionAttempts s <= MAX_ATTEMPTS_PLANNED ->
  askQuestion c topicIdx questionIdx code forceEnd llm s = Some s' ->
  currentQuestionAttempts s' <= MAX_ATTEMPTS_PLANNED
  /\ (interviewState s' = IN_PROGRESS ->
      isFollowUpActive s' = false ->
      currentQuestionAttempts s' < MAX_ATTEMPTS_PLANNED).
Proof.
  intros Hcode Hbound H. destruct llm as [|llmResponse llm]; [discriminate|].
  cbn [askQuestion] in H.
  pose proof (resolveAction_moves_on (interviewPlan c) topicIdx questionIdx
                code forceEnd) as Hmoves.
  pose proof (resolveAction_end (interviewPlan c) topicIdx questionIdx code
                forceEnd) as Hend.
  set (r := resolveAction (interviewPlan c) topicIdx questionIdx code
              forceEnd) in *.
  revert H.
  destruct (callInterviewerLlm (effectiveActionCode r) llmResponse)
    as [out|]; [|intros H; injection H as <-; cbn; split; [exact Hbound|]; 
                 discriminate].
  destruct ((io_type out =? "follow-up")%string
            && negb (effectiveActionCode r =? END_INTERVIEW)%Z).
  - destruct (currentFollowUpStreak c <? MAX_FOLLOW_UP_STREAK) eqn:Hstreak.
    + intros H; injection H as <-. cbn. split; [exact Hbound|discriminate].
    + apply Nat.ltb_ge in Hstreak.
      destruct (forcedNext (interviewPlan c) topicIdx questionIdx)
        as [[[ft fq] fa]|] eqn:Hforced.
      * intros H. apply forcedNext_moves_on in Hforced as [Hfa _].
        apply askQuestion_past_limit in H; [|assumption|assumption].
        cbn in H. destruct H as [(Hended & Hn) | (Hzero & _)].
        -- split; [lia|]. congruence.
        -- rewrite Hzero. unfold MAX_ATTEMPTS_PLANNED. split; lia.
      * destruct llm; [discriminate|].
        intros H; injection H as <-. cbn. split; [exact Hbound|discriminate].
  - unfold movesOn in *.
    unfold NEXT_QUESTION, NEXT_TOPIC, END_INTERVIEW in *.
    ask_cases; intros H; injection H as <-; tests; cbn.
    all: unfold MAX_ATTEMPTS_PLANNED in *;
      first [ split; [lia|discriminate]
            | split; [lia|intros; lia]
            | split; [lia|intros _ _];
              destruct Hcode as [Hc | Hc]; [exfalso; intuition congruence|lia]
            | exfalso; intuition congruence ].
Qed.

Lemma processMonitorOutput_attempts_bound s m st :
  followUpConsistent s ->
  currentQuestionAttempts st = currentQuestionAttempts s ->
  currentQuestionAttempts s <= MAX_ATTEMPTS_PLANNED ->
  (isFollowUpActive s = false ->
   currentQuestionAttempts s < MAX_ATTEMPTS_PLANNED) ->
  currentQuestionAttempts (fst (processMonitorOutput s m st))
  <= MAX_ATTEMPTS_PLANNED
  /\ (movesOn (snd (snd (processMonitorOutput s m st)))
      \/ currentQuestionAttempts (fst (processMonitorOutput s m st))
         < MAX_ATTEMPTS_PLANNED).
Proof.
  intros Hc Hst Hbound Hbelow.
  destruct Hc as [(Ha & Hp & _) | (Ha & Hp & _)].
  - destruct (pausedState s) as [p|] eqn:Hpaused; [|congruence].
    rewrite (processMonitorOutput_follow_up s p) by assumption.
    cbn [fst snd]. split; [cbn; lia|].
    left. apply resumeAfterFollowUp_moves_on.
  - specialize (Hbelow Ha).
    rewrite processMonitorOutput_planned by assumption. cbv zeta.
    unfold countAttempt, nextStep, movesOn.
    unfold MAX_ATTEMPTS_PLANNED in *.
    repeat match goal with
      | |- context [if ?b then _ else _] => destruct b eqn:?E
      end; cbn; tests; split; try lia; auto; right; lia.
Qed.

Lemma reachable_attempts s :
  reachable s ->
  currentQuestionAttempts s <= MAX_ATTEMPTS_PLANNED
  /\ (interviewState s = IN_PROGRESS ->
      isFollowUpActive s = false ->
      currentQuestionAttempts s < MAX_ATTEMPTS_PLANNED).
Proof.
  induction 1 as [|s description planner _ [IHb IHl]
                  |s llm s' Hs [IHb IHl] Hstep
                  |s a s' Hs [IHb IHl] Hstep].
  - cbn. unfold MAX_ATTEMPTS_PLANNED. split; [lia|discriminate].
  - unfold handleStartInterview.
    destruct (description =? "")%string; [split; assumption|].
    destruct planner as [plan|]; [destruct (validPlan plan)|];
      cbn; unfold MAX_ATTEMPTS_PLANNED; (split; [lia|discriminate]).
  - unfold startInterviewEffect in Hstep.
    destruct (Phase_eqb (interviewState s) PLANNING_COMPLETE);
      [|injection Hstep as <-; split; assumption].
    destruct (interviewPlan s); [|injection Hstep as <-; split; assumption].
    eapply askQuestion_attempts_bound; [| |exact Hstep];
      cbn; unfold MAX_ATTEMPTS_PLANNED; [right|]; lia.
  - pose proof (proj1 (reachable_followUpConsistent s Hs)) as Hc.
    unfold submitAnswer, handleSubmitAnswer in Hstep.
    destruct (answerTaken s (textAnswer a) (codeToSend a)) eqn:Htaken;
      cbn [negb] in Hstep; [|injection Hstep as <-; split; assumption].
    destruct (answerContext s);
      [|injection Hstep as <-; cbn; split; [exact IHb|discriminate]].
    destruct (monitor a) as [m|];
      [|injection Hstep as <-; cbn; split; [exact IHb|discriminate]].
    assert (Hprogress : interviewState s = IN_PROGRESS).
    { unfold answerTaken in Htaken. apply andb_prop in Htaken as [_ Hph].
      destruct (interviewState s); try discriminate. reflexivity. }
    destruct (processMonitorOutput_attempts_bound s m (s |> setIsLoading true)
                Hc eq_refl IHb (IHl Hprogress)) as [Hb1 Hm1].
    destruct (processMonitorOutput s m (s |> setIsLoading true))
      as [s1 [[t q] code]].
    cbn [fst snd] in *.
    eapply askQuestion_attempts_bound; [exact Hm1|exact Hb1|exact Hstep].
Qed.

(** ** The plan of a running interview *)

Lemma askQuestion_plan c llm :
  forall topicIdx questionIdx code forceEnd s s',
    askQuestion c topicIdx questionIdx code forceEnd llm s = Some s' ->
    interviewPlan s' = interviewPlan s.
Proof.
  induction llm as [|llmResponse llm IH]; intros t q code fe s s' H;
    [discriminate|].
  cbn [askQuestion] in H. revert H. ask_cases; intros H;
    try discriminate; try (injection H as <-; reflexivity).
  all: apply IH in H; exact H.
Qed.

Lemma askQuestion_phase c llm :
  forall topicIdx questionIdx code forceEnd s s',
    askQuestion c topicIdx questionIdx code forceEnd llm s = Some s' ->
    interviewState s' = interviewState s \/ interviewState s' = ENDED.
Proof.
  induction llm as [|llmResponse llm IH]; intros t q code fe s s' H;
    [discriminate|].
  cbn [askQuestion] in H. revert H. ask_cases; intros H;
    try discriminate; try (injection H as <-; cbn; auto).
  all: apply IH in H; exact H.
Qed.

Lemma processMonitorOutput_keeps c monitorOutput s :
  interviewPlan (fst (processMonitorOutput c monitorOutput s))
  = interviewPlan s
  /\ interviewState (fst (processMonitorOutput c monitorOutput s))
     = interviewState s
  /\ position (fst (processMonitorOutput c monitorOutput s)) = position s
  /\ (isFollowUpActive c = false ->
      pausedState (fst (processMonitorOutput c monitorOutput s))
      = pausedState s).
Proof.
  unfold processMonitorOutput, countAttempt.
  destruct (isFollowUpActive c), (pausedState c);
    repeat match goal with
      | |- context [if ?b then _ else _] => destruct b
      end; cbn; repeat split; intros; congruence.
Qed.

(** What a submitted answer does, reduced to the call of [askQuestion]. *)
Lemma submitAnswer_cases a s s' :
  submitAnswer a s = Some s' ->
  s' = s
  \/ (interviewState s = IN_PROGRESS
      /\ s' = (s |> setIsLoading true |> setIsLoading false
                 |> setInterviewState ENDED))
  \/ (interviewState s = IN_PROGRESS
      /\ exists m,
           monitor a = Resolved m
           /\ askQuestion s
                (fst (fst (snd (processMonitorOutput s m
                                  (s |> setIsLoading true)))))
                (snd (fst (snd (processMonitorOutput s m
                                  (s |> setIsLoading true)))))
                (snd (snd (processMonitorOutput s m
                             (s |> setIsLoading true))))
                false (interviewer a)
                (fst (processMonitorOutput s m (s |> setIsLoading true)))
              = Some s').
Proof.
  unfold submitAnswer, handleSubmitAnswer. intros H.
  destruct (answerTaken s (textAnswer a) (codeToSend a)) eqn:Htaken;
    cbn [negb] in H; [|injection H as <-; left; reflexivity].
  assert (Hprogress : interviewState s = IN_PROGRESS).
  { unfold answerTaken in Htaken. apply andb_prop in Htaken as [_ Hph].
    destruct (interviewState s); try discriminate. reflexivity. }
  destruct (answerContext s);
    [|injection H as <-; right; left; split; [assumption|reflexivity]].
  destruct (monitor a) as [m|];
    [|injection H as <-; right; left; split; [assumption|reflexivity]].
  right; right. split; [assumption|].
  exists m. split; [reflexivity|].
  destruct (processMonitorOutput s m (s |> setIsLoading true))
    as [s1 [[t q] code]].
  exact H.
Qed.

Lemma reachable_plan s :
  reachable s ->
  match interviewState s with
  | SETUP | PLANNING => True
  | PLANNING_COMPLETE | IN_PROGRESS | ENDED =>
      exists plan, interviewPlan s = Some plan /\ validPlan plan = true
  end.
Proof.
  induction 1 as [|s description planner _ IH|s llm s' _ IH Hstep
                  |s a s' _ IH Hstep].
  - exact I.
  - unfold handleStartInterview.
    destruct (description =? "")%string; [exact IH|].
    destruct planner as [plan|]; [destruct (validPlan plan) eqn:Hvalid|];
      cbn; try exact I.
    exists plan. split; [reflexivity|exact Hvalid].
  - unfold startInterviewEffect in Hstep.
    destruct (interviewState s) eqn:Hphase; cbn [Phase_eqb] in Hstep;
      try (injection Hstep as <-; rewrite Hphase; exact IH).
    destruct (interviewPlan s) as [plan|] eqn:Hplan;
      [|injection Hstep as <-; rewrite Hphase, Hplan; exact IH].
    pose proof (askQuestion_plan _ _ _ _ _ _ _ _ Hstep) as Hkeep.
    pose proof (askQuestion_phase _ _ _ _ _ _ _ _ Hstep) as Hph.
    cbn in Hkeep, Hph. rewrite Hplan in Hkeep.
    destruct Hph as [-> | ->]; rewrite Hkeep; exact IH.
  - destruct (submitAnswer_cases _ _ _ Hstep)
      as [-> | [(Hprogress & ->) | (Hprogress & m & _ & Hask)]];
      [exact IH| |]; rewrite Hprogress in IH.
    + exact IH.
    + pose proof (askQuestion_plan _ _ _ _ _ _ _ _ Hask) as Hkeep.
      pose proof (askQuestion_phase _ _ _ _ _ _ _ _ Hask) as Hph.
      destruct (processMonitorOutput_keeps s m (s |> setIsLoading true))
        as (Hplan & Hstate & _).
      rewrite Hplan in Hkeep. rewrite Hstate in Hph. cbn in Hkeep, Hph.
      rewrite Hprogress in Hph.
      destruct Hph as [-> | ->]; rewrite Hkeep; exact IH.
Qed.

(** X4.  In every state a session can reach in which planning is complete,
    the interview is in progress or it has ended, there is a plan, and it is
    one that passed the check of [handleStartInterview]: it has a topic, and
    each topic has a name and a question.  No interview runs on a plan that
    was refused or that failed to arrive. *)
Theorem running_interview_has_accepted_plan :
  forall s,
    reachable s ->
    interviewState s = PLANNING_COMPLETE
    \/ interviewState s = IN_PROGRESS
    \/ interviewState s = ENDED ->
    exists plan,
      interviewPlan s = Some plan
      /\ validPlan plan = true
      /\ topics plan <> []
      /\ forall topic, In topic (topics plan) ->
                       name topic <> "" /\ questions topic <> [].
Proof.
  intros s Hs Hphase. pose proof (reachable_plan s Hs) as H.
  assert (Hplan : exists plan,
             interviewPlan s = Some plan /\ validPlan plan = true)
    by (destruct Hphase as [E | [E | E]]; rewrite E in H; exact H).
  destruct Hplan as (plan & Hplan & Hvalid).
  exists plan. split; [exact Hplan|]. split; [exact Hvalid|].
  unfold validPlan in Hvalid. apply andb_prop in Hvalid as [Hlen Hall].
  split.
  - intros E. rewrite E in Hlen. discriminate.
  - intros topic Hin. rewrite forallb_forall in Hall.
    specialize (Hall topic Hin). apply andb_prop in Hall as [Hname Hq].
    split.
    + intros E. unfold truthy in Hname. rewrite E in Hname. discriminate.
    + intros E. rewrite E in Hq. discriminate.
Qed.

Lemma running_interview_has_accepted_plan_witness :
  exists plan,
    interviewPlan Sample.digressing = Some plan /\ topics plan <> [].
Proof.
  destruct (running_interview_has_accepted_plan Sample.digressing
              digressing_reachable (or_intror (or_introl eq_refl)))
    as (plan & Hplan & _ & Htopics & _).
  exists plan. split; assumption.
Defined.

(** ** The current position *)

Lemma resolveAction_in_plan plan topicIdx questionIdx code forceEnd :
  wellFormed plan = true ->
  endInterview (resolveAction (Some plan) topicIdx questionIdx code forceEnd)
  = false ->
  hasQuestion (Some plan)
    (nextStateTopicIndex
       (resolveAction (Some plan) topicIdx questionIdx code forceEnd))
    (nextStateQuestionIndex
       (resolveAction (Some plan) topicIdx questionIdx code forceEnd))
  = true.
Proof.
  intros Hwf. unfold resolveAction.
  destruct forceEnd; [cbn; discriminate|].
  destruct (topicAt (Some plan) topicIdx) as [topic|] eqn:Htopic;
    [|cbn; discriminate].
  destruct (wellFormed_topic plan _ _ Hwf Htopic) as [_ Hhas].
  destruct (questionIdx <? List.length (questions topic)) eqn:Hq.
  - intros _.
    destruct (if (code =? NEXT_TOPIC)%Z then NEXT_QUESTION else code)
      eqn:E; cbn;
      repeat match goal with
        | |- context [if ?b then _ else _] => destruct b
        end; cbn; rewrite Hhas; exact Hq.
  - destruct (topicAt (Some plan) (topicIdx + 1)) as [next|] eqn:Hnext;
      [|cbn; discriminate].
    destruct (wellFormed_topic plan _ _ Hwf Hnext) as [Hlen Hhas'].
    intros _. cbn. rewrite Hhas'. apply Nat.ltb_lt. exact Hlen.
Qed.

Lemma forcedNext_in_plan plan topicIdx questionIdx ft fq fa :
  wellFormed plan = true ->
  forcedNext (Some plan) topicIdx questionIdx = Some (ft, fq, fa) ->
  hasQuestion (Some plan) ft fq = true.
Proof.
  intros Hwf. unfold forcedNext.
  destruct (hasQuestion (Some plan) topicIdx (questionIdx + 1)) eqn:Hhas;
    cbn [negb].
  - intros H. injection H as <- <- <-. exact Hhas.
  - destruct (topicAt (Some plan) (topicIdx + 1)) as [next|] eqn:Hnext;
      [|discriminate].
    intros H. injection H as <- <- <-.
    destruct (wellFormed_topic plan _ _ Hwf Hnext) as [Hlen Hhas'].
    rewrite Hhas'. apply Nat.ltb_lt. exact Hlen.
Qed.

Lemma askQuestion_positionInPlan c llm :
  forall topicIdx questionIdx code forceEnd s s',
    interviewPlan s = interviewPlan c ->
    positionInPlan s ->
    askQuestion c topicIdx questionIdx code forceEnd llm s = Some s' ->
    positionInPlan s'.
Proof.
  induction llm as [|llmResponse llm IH];
    intros t q code fe s s' Hplan Hs H; [discriminate|].
  cbn [askQuestion] in H.
  pose proof (fun plan => resolveAction_in_plan plan t q code fe) as Hnext.
  pose proof (fun plan => forcedNext_in_plan plan t q) as Hforce.
  set (r := resolveAction (interviewPlan c) t q code fe) in *.
  revert H. ask_cases; intros H; try discriminate.
  all: try (injection H as <-; unfold positionInPlan in *; cbn;
            first [ exact Hs
                  | intros plan Hp Hwf; rewrite Hplan in Hp;
                    tests; subst r; rewrite Hp in *;
                    apply Hnext; assumption ]).
  all: eapply IH; [| |exact H]; [cbn; exact Hplan|].
  all: unfold positionInPlan; cbn; intros plan Hp Hwf;
    rewrite Hplan in Hp; rewrite Hp in Hforced;
    eapply Hforce; eassumption.
Qed.

Lemma wellFormed_first_question plan :
  wellFormed plan = true -> hasQuestion (Some plan) 0 0 = true.
Proof.
  intros Hwf. pose proof Hwf as Hvalid. unfold wellFormed in Hvalid.
  apply andb_prop in Hvalid as [Hvalid _]. unfold validPlan in Hvalid.
  apply andb_prop in Hvalid as [Hlen _].
  destruct (topics plan) as [|topic rest] eqn:Htopics; [discriminate|].
  assert (Htopic : topicAt (Some plan) 0 = Some topic)
    by (cbn; rewrite Htopics; reflexivity).
  destruct (wellFormed_topic plan _ _ Hwf Htopic) as [Hq Hhas].
  rewrite Hhas. apply Nat.ltb_lt. exact Hq.
Qed.

Lemma reachable_positionInPlan s :
  reachable s -> positionInPlan s.
Proof.
  induction 1 as [|s description planner _ IH|s llm s' _ IH Hstep
                  |s a s' _ IH Hstep].
  - intros plan Hplan. discriminate.
  - unfold handleStartInterview.
    destruct (description =? "")%string; [exact IH|].
    destruct planner as [plan|]; [destruct (validPlan plan)|];
      intros p Hp Hwf; cbn in *; try discriminate.
    injection Hp as ->. apply wellFormed_first_question. exact Hwf.
  - unfold startInterviewEffect in Hstep.
    destruct (Phase_eqb (interviewState s) PLANNING_COMPLETE);
      [|injection Hstep as <-; exact IH].
    destruct (interviewPlan s) eqn:Hplan; [|injection Hstep as <-; exact IH].
    eapply askQuestion_positionInPlan; [| |exact Hstep];
      [reflexivity|].
    intros p' Hp Hwf. cbn in *. apply wellFormed_first_question. exact Hwf.
  - destruct (submitAnswer_cases _ _ _ Hstep)
      as [-> | [(_ & ->) | (_ & m & _ & Hask)]]; [exact IH|exact IH|].
    destruct (processMonitorOutput_keeps s m (s |> setIsLoading true))
      as (Hplan & _ & Hpos & _).
    eapply askQuestion_positionInPlan; [| |exact Hask]; [exact Hplan|].
    intros p Hp Hwf. rewrite Hplan in Hp. cbn in Hp.
    unfold position in Hpos. cbn in Hpos. injection Hpos as -> ->.
    apply IH; assumption.
Qed.

(** X5.  On a well-formed plan (accepted, and every question a non-empty
    string) the current position of every reachable state holds a question
    of the plan, so [handleSubmitAnswer] always finds the question an answer
    belongs to: its exit for an answer that cannot be associated with a
    question is never taken, and every answer taken whose monitor call
    resolves is assessed. *)
Theorem answered_question_is_always_found :
  forall s plan,
    reachable s ->
    interviewPlan s = Some plan ->
    wellFormed plan = true ->
    hasQuestion (Some plan) (currentTopicIndex s) (currentQuestionIndex s)
    = true
    /\ answerContext s <> None
    /\ forall a m,
         answerTaken s (textAnswer a) (codeToSend a) = true ->
         monitor a = Resolved m ->
         assessed s a = true.
Proof.
  intros s plan Hs Hplan Hwf.
  pose proof (reachable_positionInPlan s Hs plan Hplan Hwf) as Hhas.
  assert (Hctx : answerContext s <> None).
  { unfold answerContext. rewrite Hplan, Hhas.
    destruct (isFollowUpActive s), (pausedState s); discriminate. }
  split; [exact Hhas|]. split; [exact Hctx|].
  intros a m Htaken Hm. unfold assessed. rewrite Htaken, Hm.
  destruct (answerContext s); [reflexivity|congruence].
Qed.

Lemma answered_question_is_always_found_witness :
  answerContext Sample.digressing <> None.
Proof.
  exact (proj1 (proj2 (answered_question_is_always_found Sample.digressing
                         Sample.plan digressing_reachable eq_refl eq_refl))).
Defined.

(** ** The position only moves forward *)

Lemma askQuestion_position_forward c llm :
  forall topicIdx questionIdx code forceEnd s s',
    askQuestion c topicIdx questionIdx code forceEnd llm s = Some s' ->
    position s' = position s
    \/ atOrAfter (topicIdx, questionIdx) (position s').
Proof.
  induction llm as [|llmResponse llm IH]; intros t q code fe s s' H;
    [discriminate|].
  cbn [askQuestion] in H.
  pose proof (resolveAction_next (interviewPlan c) t q code fe) as Hnext.
  set (r := resolveAction (interviewPlan c) t q code fe) in *.
  revert H. ask_cases; intros H; try discriminate.
  all: try (injection H as <-; cbn;
            first [ left; reflexivity | right; exact Hnext ]).
  all: apply forcedNext_moves_on in Hforced as [_ Hearlier];
    apply IH in H; right; unfold atOrAfter, earlier, position in *;
    cbn in *; destruct H as [H | H]; [injection H as -> ->|]; lia.
Qed.

Lemma askQuestion_pausedAhead c llm :
  forall topicIdx questionIdx code forceEnd s s',
    atOrAfter (position s) (topicIdx, questionIdx) ->
    pausedAhead s ->
    askQuestion c topicIdx questionIdx code forceEnd llm s = Some s' ->
    pausedAhead s'.
Proof.
  induction llm as [|llmResponse llm IH];
    intros t q code fe s s' Hargs Hs H; [discriminate|].
  cbn [askQuestion] in H. revert H. ask_cases; intros H; try discriminate.
  all: try (injection H as <-; unfold pausedAhead in *; cbn;
            first [ exact Hs
                  | discriminate
                  | intros p Hp; injection Hp as <-; exact Hargs ]).
  all: eapply IH; [| |exact H];
    [unfold atOrAfter, position; cbn; lia
    |unfold pausedAhead; cbn; discriminate].
Qed.

Lemma processMonitorOutput_ahead c monitorOutput s :
  pausedAhead c ->
  atOrAfter (position c) (fst (snd (processMonitorOutput c monitorOutput s))).
Proof.
  intros Hc. unfold processMonitorOutput.
  destruct (isFollowUpActive c) eqn:Ha, (pausedState c) as [p|] eqn:Hp.
  - specialize (Hc p Hp).
    destruct (resumeAfterFollowUp_moves_on (interviewPlan c) p)
      as [_ Hearlier].
    cbn [fst snd]. unfold atOrAfter, earlier in *.
    destruct (resumeAfterFollowUp (interviewPlan c) p) as [[t q] code].
    cbn [fst snd] in *. lia.
  - unfold countAttempt, nextStep, atOrAfter, position.
    repeat match goal with
      | |- context [if ?b then _ else _] => destruct b
      end; cbn; lia.
  - unfold countAttempt, nextStep, atOrAfter, position.
    repeat match goal with
      | |- context [if ?b then _ else _] => destruct b
      end; cbn; lia.
  - unfold countAttempt, nextStep, atOrAfter, position.
    repeat match goal with
      | |- context [if ?b then _ else _] => destruct b
      end; cbn; lia.
Qed.

Lemma processMonitorOutput_pausedAhead c monitorOutput s :
  pausedAhead s ->
  pausedAhead (fst (processMonitorOutput c monitorOutput s)).
Proof.
  intros Hs. unfold processMonitorOutput, countAttempt.
  destruct (isFollowUpActive c), (pausedState c);
    repeat match goal with
      | |- context [if ?b then _ else _] => destruct b
      end; cbn [fst];
    first [ exact Hs | unfold pausedAhead; cbn; discriminate
          | unfold pausedAhead in *; cbn; exact Hs ].
Qed.

Lemma reachable_pausedAhead s :
  reachable s -> pausedAhead s.
Proof.
  induction 1 as [|s description planner _ IH|s llm s' _ IH Hstep
                  |s a s' _ IH Hstep].
  - intros ? Hp; discriminate.
  - unfold handleStartInterview.
    destruct (description =? "")%string; [exact IH|].
    destruct planner as [plan|]; [destruct (validPlan plan)|];
      intros ? Hp; discriminate.
  - unfold startInterviewEffect in Hstep.
    destruct (Phase_eqb (interviewState s) PLANNING_COMPLETE);
      [|injection Hstep as <-; exact IH].
    destruct (interviewPlan s); [|injection Hstep as <-; exact IH].
    eapply askQuestion_pausedAhead; [| |exact Hstep].
    + unfold atOrAfter, position. cbn. lia.
    + intros ? Hp; discriminate.
  - destruct (submitAnswer_cases _ _ _ Hstep)
      as [-> | [(_ & ->) | (_ & m & _ & Hask)]]; [exact IH|exact IH|].
    pose proof (processMonitorOutput_ahead s m (s |> setIsLoading true) IH)
      as Hahead.
    pose proof (processMonitorOutput_pausedAhead s m (s |> setIsLoading true)
                  IH) as Hpaused.
    destruct (processMonitorOutput_keeps s m (s |> setIsLoading true))
      as (_ & _ & Hpos & _).
    eapply askQuestion_pausedAhead; [|exact Hpaused|exact Hask].
    rewrite Hpos.
    destruct (snd (processMonitorOutput s m (s |> setIsLoading true)))
      as [[t q] code].
    exact Hahead.
Qed.

Lemma submitAnswer_forward a s s' :
  reachable s ->
  submitAnswer a s = Some s' ->
  atOrAfter (position s) (position s').
Proof.
  intros Hs Hstep. pose proof (reachable_pausedAhead s Hs) as Hpaused.
  destruct (submitAnswer_cases _ _ _ Hstep)
    as [-> | [(_ & ->) | (_ & m & _ & Hask)]];
    try (unfold atOrAfter, position; cbn; lia).
  pose proof (processMonitorOutput_ahead s m (s |> setIsLoading true) Hpaused)
    as Hahead.
  destruct (processMonitorOutput_keeps s m (s |> setIsLoading true))
    as (_ & _ & Hpos & _).
  apply askQuestion_position_forward in Hask.
  rewrite Hpos in Hask.
  destruct (snd (processMonitorOutput s m (s |> setIsLoading true)))
    as [[t q] code].
  cbn [fst snd] in *. unfold atOrAfter, position in *. cbn [fst snd] in *.
  destruct Hask as [H | H]; [injection H as -> ->|]; lia.
Qed.

(** Along a run of answers, each run to its end, the position stays or
    moves forward. *)
Lemma run_never_goes_back :
  forall answers s s',
    reachable s ->
    run s answers = Some s' ->
    atOrAfter (position s) (position s')
    /\ pausedAhead s'.
Proof.
  induction answers as [|a answers IH]; intros s s' Hs H; cbn [run] in H.
  - injection H as <-. split; [|exact (reachable_pausedAhead s Hs)].
    unfold atOrAfter. lia.
  - destruct (submitAnswer a s) as [s1|] eqn:Hstep; [|discriminate].
    pose proof (submitAnswer_forward a s s1 Hs Hstep) as H1.
    destruct (IH s1 s' (reach_submit s a s1 Hs Hstep) H) as [H2 Hp].
    split; [|exact Hp]. unfold atOrAfter in *. lia.
Qed.

(** ** How many calls of the interviewer LLM one answer takes *)

Lemma list_sum_skipn_le (weights : list nat) :
  forall n, list_sum (skipn n weights) <= list_sum weights.
Proof.
  induction weights as [|w weights IH]; intros [|n]; cbn [skipn];
    try (apply Nat.le_refl).
  specialize (IH n). unfold list_sum in *. cbn [fold_right]. lia.
Qed.

Lemma remaining_at_most_whole plan topicIdx questionIdx :
  remaining plan topicIdx questionIdx <= remaining plan 0 0.
Proof.
  destruct plan as [p|]; [|reflexivity]. unfold remaining.
  rewrite <- !skipn_map.
  set (weights := map (fun t => List.length (questions t) + 1) (topics p)).
  assert (Hhere : match nth_error (topics p) topicIdx with
                  | Some t => List.length (questions t) - questionIdx
                  | None => 0
                  end + list_sum (skipn (topicIdx + 1) weights)
                  <= list_sum (skipn topicIdx weights)).
  { destruct (nth_error (topics p) topicIdx) as [t|] eqn:Ht.
    - assert (Hw : nth_error weights topicIdx
                   = Some (List.length (questions t) + 1))
        by (unfold weights; rewrite nth_error_map, Ht; reflexivity).
      rewrite (skipn_nth_error _ _ _ Hw).
      replace (topicIdx + 1) with (S topicIdx) by lia. cbn. lia.
    - apply nth_error_None in Ht.
      rewrite !skipn_all2 by (unfold weights; rewrite length_map; lia).
      cbn. lia. }
  destruct topicIdx as [|n].
  - clear Hhere. destruct (nth_error (topics p) 0); lia.
  - assert (Hlater : list_sum (skipn (S n) weights)
                     <= list_sum (skipn (0 + 1) weights)).
    { replace (S n) with (n + (0 + 1)) by lia. rewrite <- skipn_skipn.
      apply list_sum_skipn_le. }
    lia.
Qed.

(** X7.  One submitted answer, and one call of [askQuestion], take a bounded
    number of calls of the interviewer LLM: the chain of calls completes as
    soon as the LLM answers two times more than there are questions and
    topics left in the plan from the position of the call on.  For a
    submitted answer, the questions of the plan, one more for each topic
    after the first, and two are enough. *)
Theorem chain_of_calls_is_bounded :
  (forall c llm topicIdx questionIdx code forceEnd s,
     remaining (interviewPlan c) topicIdx questionIdx + 2 <= List.length llm ->
     exists s',
       askQuestion c topicIdx questionIdx code forceEnd llm s = Some s')
  /\ (forall a s,
        remaining (interviewPlan s) 0 0 + 2 <= List.length (interviewer a) ->
        exists s', submitAnswer a s = Some s').
Proof.
  split.
  - intros c llm t q code fe s Hlen. apply askQuestion_completes. exact Hlen.
  - intros a s Hlen. unfold submitAnswer, handleSubmitAnswer.
    destruct (negb (answerTaken s (textAnswer a) (codeToSend a)));
      [eexists; reflexivity|].
    destruct (answerContext s); [|eexists; reflexivity].
    destruct (monitor a) as [m|]; [|eexists; reflexivity].
    destruct (processMonitorOutput s m (s |> setIsLoading true))
      as [s1 [[t q] code]].
    apply askQuestion_completes.
    pose proof (remaining_at_most_whole (interviewPlan s) t q). lia.
Qed.

Lemma chain_of_calls_is_bounded_witness :
  exists s',
    submitAnswer
      (Sample.answer NEXT_QUESTION
         [Sample.digresses "a"; Sample.digresses "b"; Sample.digresses "c";
          Sample.digresses "d"; Sample.digresses "e"; Sample.digresses "f";
          Sample.digresses "g"; Sample.digresses "h"])
      Sample.digressing = Some s'.
Proof.
  apply (proj2 chain_of_calls_is_bounded). vm_compute. lia.
Defined.

(** ** At the borders of the plan *)

(** A planned answer, reduced to the call of [askQuestion]. *)
Lemma submitAnswer_planned s a m :
  awaitsPlannedAnswer s = true ->
  answerTaken s (textAnswer a) (codeToSend a) = true ->
  monitor a = Resolved m ->
  let logged :=
    s |> setIsLoading true
      |> setInterviewLog (fun prev =>
           prev ++ [{| le_output := m; le_type := planned |}]) in
  let counted := countAttempt s (actionCode m) logged in
  let step := nextStep s (snd counted) in
  submitAnswer a s
  = askQuestion s (fst (fst step)) (snd (fst step)) (snd step) false
      (interviewer a) (fst counted).
Proof.
  intros Hs Htaken Hm logged counted step.
  unfold awaitsPlannedAnswer in Hs.
  apply andb_prop in Hs as [Hs Hhas]. apply andb_prop in Hs as [_ Hact].
  apply negb_true_iff in Hact.
  unfold submitAnswer, handleSubmitAnswer. rewrite Htaken. cbn [negb].
  unfold answerContext. rewrite Hact, Hhas, Hm.
  rewrite processMonitorOutput_planned by assumption. cbv zeta.
  fold logged. fold counted. fold step.
  destruct step as [[t q] code]. reflexivity.
Qed.

Lemma resolveAction_outside plan topicIdx questionIdx code forceEnd :
  forceEnd = true \/ topicAt plan topicIdx = None ->
  effectiveActionCode
    (resolveAction plan topicIdx questionIdx code forceEnd)
  = END_INTERVIEW.
Proof.
  unfold resolveAction. intros [-> | Htopic]; [reflexivity|].
  destruct forceEnd; [reflexivity|]. rewrite Htopic. reflexivity.
Qed.

Lemma askQuestion_end_keeps c topicIdx questionIdx code forceEnd llmResponse
    llm s :
  effectiveActionCode
    (resolveAction (interviewPlan c) topicIdx questionIdx code forceEnd)
  = END_INTERVIEW ->
  exists s',
    askQuestion c topicIdx questionIdx code forceEnd (llmResponse :: llm) s
    = Some s'
    /\ interviewState s' = ENDED
    /\ position s' = position s
    /\ interviewLog s' = interviewLog s
    /\ currentQuestionAttempts s' = currentQuestionAttempts s.
Proof.
  intros Heff. cbn [askQuestion]. rewrite Heff.
  destruct (callInterviewerLlm END_INTERVIEW llmResponse) as [out|];
    [|eexists; repeat split].
  rewrite Z.eqb_refl, andb_false_r, orb_true_r. cbn.
  eexists; repeat split.
Qed.

(** X8.  [askQuestion] called to force the end, or for a topic the plan does
    not have, or without a plan, ends the interview whatever action is asked
    for and whatever the interviewer LLM answers, a failure included; the
    position, the log and the attempt count stay.  So when the monitor asks
    for the next topic during the last topic, the interview ends, whatever
    questions that topic still has. *)
Theorem no_next_topic_ends_interview :
  (forall c topicIdx questionIdx code forceEnd llmResponse llm s,
     forceEnd = true \/ topicAt (interviewPlan c) topicIdx = None ->
     exists s',
       askQuestion c topicIdx questionIdx code forceEnd (llmResponse :: llm) s
       = Some s'
       /\ interviewState s' = ENDED
       /\ position s' = position s
       /\ interviewLog s' = interviewLog s
       /\ currentQuestionAttempts s' = currentQuestionAttempts s)
  /\ (forall s a m llmResponse llm,
        awaitsPlannedAnswer s = true ->
        answerTaken s (textAnswer a) (codeToSend a) = true ->
        monitor a = Resolved m ->
        actionCode m = NEXT_TOPIC ->
        topicAt (interviewPlan s) (currentTopicIndex s + 1) = None ->
        interviewer a = llmResponse :: llm ->
        exists s',
          submitAnswer a s = Some s'
          /\ interviewState s' = ENDED
          /\ position s' = position s
          /\ interviewLog s'
             = interviewLog s ++ [{| le_output := m; le_type := planned |}]).
Proof.
  split.
  - intros c t q code fe llmResponse llm s Houtside.
    apply askQuestion_end_keeps. apply resolveAction_outside. exact Houtside.
  - intros s a m llmResponse llm Hs Htaken Hm Hcode Hlast Hllm.
    rewrite (submitAnswer_planned s a m Hs Htaken Hm). cbv zeta.
    unfold countAttempt. rewrite Hcode. cbn [Z.eqb orb fst snd].
    unfold nextStep. cbn [Z.eqb orb fst snd]. rewrite Hllm.
    destruct (askQuestion_end_keeps s (currentTopicIndex s + 1) 0 NEXT_TOPIC
                false llmResponse llm
                (s |> setIsLoading true
                   |> setInterviewLog (fun prev =>
                        prev ++ [{| le_output := m; le_type := planned |}])))
      as (s' & Hask & Hended & Hpos & Hlog & _);
      [apply resolveAction_outside; right; exact Hlast|].
    exists s'. repeat split; assumption.
Qed.

Lemma no_next_topic_ends_interview_witness :
  exists s2 s3,
    submitAnswer (Sample.answer NEXT_TOPIC [Sample.says "What is Node.js?"])
      Sample.started = Some s2
    /\ position s2 = (1, 0)
    /\ submitAnswer (Sample.answer NEXT_TOPIC [Sample.says "Thank you."]) s2
       = Some s3
    /\ interviewState s3 = ENDED.
Proof.
  assert (E : exists s2,
             submitAnswer
               (Sample.answer NEXT_TOPIC [Sample.says "What is Node.js?"])
               Sample.started = Some s2
             /\ position s2 = (1, 0)
             /\ awaitsPlannedAnswer s2 = true
             /\ answerTaken s2 "an answer" "" = true
             /\ topicAt (interviewPlan s2) (currentTopicIndex s2 + 1) = None).
  { eexists. split; [vm_compute; reflexivity|]. repeat split. }
  destruct E as (s2 & Hstep & Hpos & Hs2 & Htaken & Hlast).
  destruct (proj2 no_next_topic_ends_interview s2
              (Sample.answer NEXT_TOPIC [Sample.says "Thank you."])
              (Sample.assessment NEXT_TOPIC) (Sample.says "Thank you.") []
              Hs2 Htaken eq_refl eq_refl Hlast eq_refl)
    as (s3 & Hstep3 & Hended & _).
  exists s2, s3. repeat split; assumption.
Defined.

Lemma resolveAction_next_topic plan topicIdx questionIdx topic next code :
  topicAt plan topicIdx = Some topic ->
  List.length (questions topic) <= questionIdx ->
  topicAt plan (topicIdx + 1) = Some next ->
  resolveAction plan topicIdx questionIdx code false =
  {| plannedTopicName := name next;
     plannedQuestionText := nth_error (questions next) 0;
     effectiveActionCode := NEXT_TOPIC;
     endInterview := false;
     nextStateTopicIndex := topicIdx + 1;
     nextStateQuestionIndex := 0 |}.
Proof.
  intros Htopic Hq Hnext. unfold resolveAction.
  rewrite Htopic. apply Nat.ltb_ge in Hq. rewrite Hq, Hnext. reflexivity.
Qed.

(** X9.  When a planned answer moves on from the last question of a topic
    (the monitor asks for the next question, or a repeat or a clarification
    reaches the attempt limit), [askQuestion] turns the step into
    [NEXT_TOPIC]: with a planned turn the session is at the first question
    of the following topic with the attempt count at 0; and when the plan has
    no following topic the interview ends, whatever the interviewer LLM
    answers. *)
Theorem moving_on_from_last_question_of_topic :
  forall s a m topic llmResponse llm,
    awaitsPlannedAnswer s = true ->
    answerTaken s (textAnswer a) (codeToSend a) = true ->
    monitor a = Resolved m ->
    actionCode m = NEXT_QUESTION
    \/ ((actionCode m = REPEAT_QUESTION \/ actionCode m = CLARIFY_QUESTION)
        /\ MAX_ATTEMPTS_PLANNED <= currentQuestionAttempts s + 1) ->
    topicAt (interviewPlan s) (currentTopicIndex s) = Some topic ->
    List.length (questions topic) <= currentQuestionIndex s + 1 ->
    interviewer a = llmResponse :: llm ->
    (topicAt (interviewPlan s) (currentTopicIndex s + 1) = None ->
     exists s',
       submitAnswer a s = Some s'
       /\ interviewState s' = ENDED
       /\ position s' = position s)
    /\ (forall next out,
          topicAt (interviewPlan s) (currentTopicIndex s + 1) = Some next ->
          callInterviewerLlm NEXT_TOPIC llmResponse = Resolved out ->
          io_type out <> "follow-up" ->
          exists s',
            submitAnswer a s = Some s'
            /\ interviewState s' = IN_PROGRESS
            /\ position s' = (currentTopicIndex s + 1, 0)
            /\ currentQuestionAttempts s' = 0
            /\ isFollowUpActive s' = false).
Proof.
  intros s a m topic llmResponse llm Hs Htaken Hm Hcode Htopic Hlast Hllm.
  rewrite (submitAnswer_planned s a m Hs Htaken Hm). cbv zeta.
  set (logged := s |> setIsLoading true
                   |> setInterviewLog (fun prev =>
                        prev ++ [{| le_output := m; le_type := planned |}])).
  assert (Hcounted : snd (countAttempt s (actionCode m) logged)
                     = NEXT_QUESTION
                     /\ position (fst (countAttempt s (actionCode m) logged))
                        = position s
                     /\ interviewState
                          (fst (countAttempt s (actionCode m) logged))
                        = interviewState s).
  { destruct Hcode as [-> | [Hrc Hmax]].
    - repeat split.
    - rewrite countAttempt_sent_back by assumption.
      apply Nat.leb_le in Hmax. rewrite Hmax. repeat split. }
  destruct Hcounted as (Hnq & Hpos & Hphase).
  rewrite Hnq, Hllm.
  change (nextStep s NEXT_QUESTION)
    with (currentTopicIndex s, currentQuestionIndex s + 1, NEXT_QUESTION).
  cbn [fst snd].
  assert (Hprogress : interviewState s = IN_PROGRESS).
  { unfold awaitsPlannedAnswer in Hs.
    apply andb_prop in Hs as [Hs _]. apply andb_prop in Hs as [Hs _].
    apply andb_prop in Hs as [Hs _].
    destruct (interviewState s); try discriminate. reflexivity. }
  split.
  - intros Hnone.
    destruct (askQuestion_end_keeps s (currentTopicIndex s)
                (currentQuestionIndex s + 1) NEXT_QUESTION false llmResponse
                llm (fst (countAttempt s (actionCode m) logged)))
      as (s' & Hask & Hended & Hp & _).
    { rewrite (resolveAction_exhausted_last _ _ _ _ Htopic _ _ Hlast Hnone).
      reflexivity. }
    exists s'. repeat split; try assumption. congruence.
  - intros next out Hnext Hcall Hty.
    cbn [askQuestion].
    rewrite (resolveAction_next_topic _ _ _ _ _ NEXT_QUESTION Htopic Hlast
               Hnext).
    cbn [effectiveActionCode endInterview nextStateTopicIndex
         nextStateQuestionIndex].
    rewrite Hcall. apply String.eqb_neq in Hty. rewrite Hty. cbn.
    eexists. split; [reflexivity|]. cbn.
    rewrite Hphase, Hprogress. repeat split.
Qed.

Lemma moving_on_from_last_question_of_topic_witness :
  exists s2 s3,
    run Sample.started
      [Sample.answer NEXT_QUESTION [Sample.says "How do props work?"];
       Sample.answer REPEAT_QUESTION [Sample.says "Once more, please."];
       Sample.answer CLARIFY_QUESTION [Sample.says "Could you say more?"]]
    = Some s2
    /\ position s2 = (0, 1)
    /\ submitAnswer
         (Sample.answer REPEAT_QUESTION [Sample.says "What is Node.js?"]) s2
       = Some s3
    /\ position s3 = (1, 0)
    /\ currentQuestionAttempts s3 = 0.
Proof.
  assert (E : exists s2,
             run Sample.started
               [Sample.answer NEXT_QUESTION
                  [Sample.says "How do props work?"];
                Sample.answer REPEAT_QUESTION
                  [Sample.says "Once more, please."];
                Sample.answer CLARIFY_QUESTION
                  [Sample.says "Could you say more?"]] = Some s2
             /\ position s2 = (0, 1)
             /\ awaitsPlannedAnswer s2 = true
             /\ answerTaken s2 "an answer" "" = true
             /\ MAX_ATTEMPTS_PLANNED <= currentQuestionAttempts s2 + 1
             /\ topicAt (interviewPlan s2) (currentTopicIndex s2)
                = nth_error (topics Sample.plan) 0
             /\ currentQuestionIndex s2 = 1
             /\ topicAt (interviewPlan s2) (currentTopicIndex s2 + 1)
                = nth_error (topics Sample.plan) 1).
  { eexists. split; [vm_compute; reflexivity|].
    repeat split. vm_compute. lia. }
  destruct E as (s2 & Hrun & Hpos & Hs2 & Htaken & Hmax & Htopic & Hq & Hnext).
  destruct (moving_on_from_last_question_of_topic s2
              (Sample.answer REPEAT_QUESTION [Sample.says "What is Node.js?"])
              (Sample.assessment REPEAT_QUESTION) _
              (Sample.says "What is Node.js?") []
              Hs2 Htaken eq_refl
              (or_intror (conj (or_introl eq_refl) Hmax)) Htopic)
    as [_ Hmove]; [rewrite Hq; cbn; lia | reflexivity |].
  destruct (Hmove _ {| io_type := "planned"; io_text := "What is Node.js?" |}
              Hnext eq_refl) as (s3 & Hstep & _ & Hp3 & Hn3 & _);
    [discriminate|].
  exists s2, s3. repeat split; try assumption.
  rewrite Hp3. unfold position in Hpos. injection Hpos as -> _. reflexivity.
Defined.

(** X10.  When the monitor asks to end the interview after a planned answer,
    the output is logged and the interview ends at once, whatever the
    interviewer LLM answers, a failure included; the position stays. *)
Theorem monitor_end_request_ends_interview :
  forall s a m llmResponse llm,
    awaitsPlannedAnswer s = true ->
    answerTaken s (textAnswer a) (codeToSend a) = true ->
    monitor a = Resolved m ->
    actionCode m = END_INTERVIEW ->
    interviewer a = llmResponse :: llm ->
    exists s',
      submitAnswer a s = Some s'
      /\ interviewState s' = ENDED
      /\ position s' = position s
      /\ interviewLog s'
         = interviewLog s ++ [{| le_output := m; le_type := planned |}].
Proof.
  intros s a m llmResponse llm Hs Htaken Hm Hcode Hllm.
  rewrite (submitAnswer_planned s a m Hs Htaken Hm). cbv zeta.
  unfold countAttempt. rewrite Hcode. cbn [Z.eqb orb fst snd].
  unfold nextStep. cbn [Z.eqb orb fst snd]. rewrite Hllm.
  unfold awaitsPlannedAnswer in Hs. apply andb_prop in Hs as [_ Hhas].
  destruct (askQuestion_end_keeps s (currentTopicIndex s)
              (currentQuestionIndex s) END_INTERVIEW false llmResponse llm
              (s |> setIsLoading true
                 |> setInterviewLog (fun prev =>
                      prev ++ [{| le_output := m; le_type := planned |}])))
    as (s' & Hask & Hended & Hpos & Hlog & _);
    [apply resolveAction_end_in_topic; exact Hhas|].
  exists s'. repeat split; assumption.
Qed.

Lemma monitor_end_request_ends_interview_witness :
  exists s',
    submitAnswer (Sample.answer END_INTERVIEW [Rejected]) Sample.started
    = Some s'
    /\ interviewState s' = ENDED.
Proof.
  destruct (monitor_end_request_ends_interview Sample.started
              (Sample.answer END_INTERVIEW [Rejected])
              (Sample.assessment END_INTERVIEW) Rejected []
              eq_refl eq_refl eq_refl eq_refl eq_refl)
    as (s' & Hstep & Hended & _).
  exists s'. split; assumption.
Defined.

(** ** The start of a session *)

Lemma validPlan_first_topic plan :
  validPlan plan = true ->
  exists topic,
    topicAt (Some plan) 0 = Some topic
    /\ 0 < List.length (questions topic).
Proof.
  unfold validPlan. intros H. apply andb_prop in H as [Hlen Hall].
  destruct (topics plan) as [|topic rest] eqn:Htopics; [discriminate|].
  exists topic. split; [cbn; rewrite Htopics; reflexivity|].
  cbn [forallb] in Hall. apply andb_prop in Hall as [Hfirst _].
  apply andb_prop in Hfirst as [_ Hq]. apply negb_true_iff in Hq.
  apply Nat.eqb_neq in Hq. lia.
Qed.

(** X11.  [handleStartInterview] called with a description, followed by the
    start effect.  When the planner fails or its plan is refused, the page is
    back in [SETUP] with no plan and nothing loading, and the effect asks
    nothing.  When the plan is accepted, planning is complete, and the effect
    asks the first question: whatever the interviewer LLM answers, the log is
    empty, the position is the first question of the first topic and the
    attempt count is 0; the interview is in progress when the LLM call
    resolves and ended when it fails. *)
Theorem session_starts_at_first_question :
  forall s description planner,
    description <> "" ->
    (planner = Rejected
     \/ (exists plan, planner = Resolved plan /\ validPlan plan = false) ->
     interviewState (handleStartInterview description planner s) = SETUP
     /\ interviewPlan (handleStartInterview description planner s) = None
     /\ isLoading (handleStartInterview description planner s) = false
     /\ forall llm,
          startInterviewEffect (handleStartInterview description planner s)
            llm (handleStartInterview description planner s)
          = Some (handleStartInterview description planner s))
    /\ (forall plan,
          planner = Resolved plan ->
          validPlan plan = true ->
          interviewState (handleStartInterview description planner s)
          = PLANNING_COMPLETE
          /\ interviewPlan (handleStartInterview description planner s)
             = Some plan
          /\ forall llmResponse llm,
               exists s2,
                 startInterviewEffect
                   (handleStartInterview description planner s)
                   (llmResponse :: llm)
                   (handleStartInterview description planner s) = Some s2
                 /\ interviewLog s2 = []
                 /\ position s2 = (0, 0)
                 /\ currentQuestionAttempts s2 = 0
                 /\ interviewState s2
                    = match llmResponse with
                      | Resolved _ => IN_PROGRESS
                      | Rejected => ENDED
                      end).
Proof.
  intros s description planner Hdescription.
  apply String.eqb_neq in Hdescription.
  unfold handleStartInterview. rewrite Hdescription. split.
  - intros [-> | (plan & -> & Hvalid)]; [|rewrite Hvalid];
      repeat split.
  - intros plan -> Hvalid. rewrite Hvalid. split; [reflexivity|].
    split; [reflexivity|]. intros llmResponse llm.
    destruct (validPlan_first_topic plan Hvalid) as (topic & Htopic & Hq).
    unfold startInterviewEffect. cbn [interviewState setInterviewState
      setInterviewPlan Phase_eqb interviewPlan].
    cbn [askQuestion]. cbn [interviewPlan setInterviewState setInterviewPlan].
    rewrite (resolveAction_in_topic _ _ _ _ Htopic NEXT_QUESTION Hq)
      by discriminate.
    cbn [effectiveActionCode endInterview nextStateTopicIndex
         nextStateQuestionIndex Z.eqb].
    change (NEXT_QUESTION =? NEXT_TOPIC)%Z with false. cbv iota.
    destruct llmResponse as [parsed|]; cbn [callInterviewerLlm];
      [|eexists; repeat split].
    change (NEXT_QUESTION =? END_INTERVIEW)%Z with false. cbv iota.
    cbn [io_type io_text negb andb].
    match goal with
    | |- context [if (?ty =? "follow-up")%string && true then _ else _] =>
        destruct (ty =? "follow-up")%string
    end; cbn; eexists; repeat split.
Qed.

Lemma session_starts_at_first_question_witness :
  exists s2,
    startInterviewEffect Sample.planned_session [Sample.digresses "Hello?"]
      Sample.planned_session = Some s2
    /\ position s2 = (0, 0)
    /\ interviewState s2 = IN_PROGRESS.
Proof.
  destruct (session_starts_at_first_question initialState
              "a job description" (Resolved Sample.plan))
    as [_ Hstart]; [discriminate|].
  destruct (Hstart Sample.plan eq_refl eq_refl) as (_ & _ & Heffect).
  destruct (Heffect (Sample.digresses "Hello?") [])
    as (s2 & Hstep & _ & Hpos & _ & Hphase).
  exists s2. repeat split; assumption.
Defined.

(** * Properties of the helpers around the LLM calls *)

(** ** [parseLlmJson] for the interviewer *)

Lemma interviewerOutputOf_plannedText text :
  interviewerOutputOf (plannedText text)
  = Some {| io_type := "planned"; io_text := text |}.
Proof. reflexivity. Qed.

Lemma parseAndCheck_shape h jsonString expectedKeys v :
  expectsTypeAndText expectedKeys = true ->
  parseAndCheck h jsonString expectedKeys = Some v ->
  exists out, interviewerOutputOf v = Some out.
Proof.
  intros Hexpects. unfold parseAndCheck.
  destruct (JSON_parse h jsonString) as [parsed|]; [|discriminate].
  match goal with
  | |- context [if negb ?accepted then _ else _] => destruct accepted
  end; cbn [negb]; [|discriminate].
  rewrite Hexpects.
  destruct (jsGet parsed "type") as [type|] eqn:Htype; [|discriminate].
  destruct (jsGet parsed "text") as [text|] eqn:Htext; [|discriminate].
  destruct type as [[| | |ty| |]|], text as [[| | |tx| |]|];
    cbn [typeof String.eqb Ascii.eqb Bool.eqb negb orb andb];
    repeat match goal with
      | |- context [if ?b then _ else _] => destruct b
      end;
    intros H; try discriminate; injection H as <-;
    try (eexists; apply interviewerOutputOf_plannedText).
  unfold interviewerOutputOf. rewrite Htype, Htext. eexists; reflexivity.
Qed.

(** Without JSON text to parse, [parseLlmJson] takes the text as it is when
    [type] and [text] are expected, and fails otherwise. *)
Lemma extractJson_leave h trimmedContent expectedKeys r :
  extractJson h trimmedContent expectedKeys = Leave r ->
  r = if expectsTypeAndText expectedKeys
      then Resolved (plannedText trimmedContent)
      else Rejected.
Proof.
  unfold extractJson.
  destruct (expectsTypeAndText expectedKeys);
    repeat match goal with
      | |- context [match ?x with _ => _ end] => destruct x
      end;
    intros H; try discriminate; injection H as <-; reflexivity.
Qed.

(** What [parseLlmJson] returns for the interviewer carries an output. *)
Lemma parseLlmJson_output h llmContent expectedKeys v :
  expectsTypeAndText expectedKeys = true ->
  parseLlmJson h llmContent expectedKeys = Resolved v ->
  exists out, interviewerOutputOf v = Some out.
Proof.
  intros Hexpects H. unfold parseLlmJson in H.
  destruct (negb (truthy llmContent)); [discriminate|].
  destruct (extractJson h (trim h llmContent) expectedKeys)
    as [jsonString|r] eqn:Hextract.
  - destruct (parseAndCheck h jsonString expectedKeys) as [parsed|] eqn:P.
    + injection H as <-. eapply parseAndCheck_shape; eassumption.
    + destruct (expectsTypeAndText expectedKeys
                && (5 <? jsLength jsonString)); [|discriminate].
      injection H as <-. eexists. apply interviewerOutputOf_plannedText.
  - apply extractJson_leave in Hextract. rewrite Hexpects in Hextract.
    subst r. injection H as <-. eexists.
    apply interviewerOutputOf_plannedText.
Qed.

Lemma interviewerOutputOf_strings v out :
  interviewerOutputOf v = Some out ->
  jsGet v "type" = Some (Some (JStr (io_type out)))
  /\ jsGet v "text" = Some (Some (JStr (io_text out))).
Proof.
  unfold interviewerOutputOf.
  destruct (jsGet v "type") as [[[| | |ty| |]|]|]; try discriminate.
  destruct (jsGet v "text") as [[[| | |tx| |]|]|]; try discriminate.
  intros H. injection H as <-. split; reflexivity.
Qed.

(** X12.  For the interviewer (expected keys [type] and [text]),
    whatever the LLM wrote and whatever the platform's parser makes of it,
    [parseLlmJson] returns, when it returns, an object whose [type] and
    [text] are both strings. *)
Theorem interviewer_reply_has_string_type_and_text :
  forall h llmContent expectedKeys v,
    expectsTypeAndText expectedKeys = true ->
    parseLlmJson h llmContent expectedKeys = Resolved v ->
    exists type text,
      jsGet v "type" = Some (Some (JStr type))
      /\ jsGet v "text" = Some (Some (JStr text))
      /\ interviewerOutputOf v
         = Some {| io_type := type; io_text := text |}.
Proof.
  intros h llmContent expectedKeys v Hexpects H.
  destruct (parseLlmJson_output _ _ _ _ Hexpects H) as [[type text] Hout].
  destruct (interviewerOutputOf_strings _ _ Hout) as [Htype Htext].
  exists type, text. repeat split; assumption.
Qed.

Lemma interviewer_reply_has_string_type_and_text_witness :
  exists type text,
    jsGet (plannedText SampleHost.numberAsType) "type"
    = Some (Some (JStr type))
    /\ jsGet (plannedText SampleHost.numberAsType) "text"
       = Some (Some (JStr text)).
Proof.
  destruct (interviewer_reply_has_string_type_and_text SampleHost.host
              SampleHost.numberAsType interviewerKeys
              (plannedText SampleHost.numberAsType) eq_refl)
    as (type & text & Htype & Htext & _); [vm_compute; reflexivity|].
  exists type, text. split; assumption.
Defined.

(** X13.  For the interviewer, [parseLlmJson] fails only on an empty content
    or on a JSON text of length at most 5 (in UTF-16 code units, as
    [length] counts) that does not pass the [try] block: a content in which
    no JSON text is found (no fence, no pair of braces) is returned as a
    planned text, and so is every JSON text of length above 5 that cannot be
    parsed or whose keys are not as expected. *)
Theorem interviewer_reply_rarely_fails :
  forall h llmContent expectedKeys,
    expectsTypeAndText expectedKeys = true ->
    llmContent <> "" ->
    (parseLlmJson h llmContent expectedKeys = Rejected ->
     exists jsonString,
       extractJson h (trim h llmContent) expectedKeys = Parse jsonString
       /\ jsLength jsonString <= 5
       /\ parseAndCheck h jsonString expectedKeys = None)
    /\ (fenceCapture h (trim h llmContent) = None ->
        indexOf "{"%char (trim h llmContent) = None ->
        parseLlmJson h llmContent expectedKeys
        = Resolved (plannedText (trim h llmContent)))
    /\ (forall jsonString,
          extractJson h (trim h llmContent) expectedKeys = Parse jsonString ->
          parseAndCheck h jsonString expectedKeys = None ->
          5 < jsLength jsonString ->
          parseLlmJson h llmContent expectedKeys
          = Resolved (plannedText jsonString)).
Proof.
  intros h llmContent expectedKeys Hexpects Hcontent.
  assert (Htruthy : negb (truthy llmContent) = false).
  { unfold truthy. apply String.eqb_neq in Hcontent. rewrite Hcontent.
    reflexivity. }
  unfold parseLlmJson. rewrite Htruthy. split; [|split].
  - destruct (extractJson h (trim h llmContent) expectedKeys)
      as [jsonString|r] eqn:Hextract.
    + destruct (parseAndCheck h jsonString expectedKeys) eqn:P;
        [discriminate|].
      rewrite Hexpects. cbn [andb].
      destruct (5 <? jsLength jsonString) eqn:Hlen; [discriminate|].
      intros _. exists jsonString. apply Nat.ltb_ge in Hlen.
      repeat split; assumption.
    + apply extractJson_leave in Hextract. rewrite Hexpects in Hextract.
      subst r. discriminate.
  - intros Hfence Hbrace. unfold extractJson.
    rewrite Hfence, Hbrace, Hexpects. reflexivity.
  - intros jsonString -> -> Hlen. rewrite Hexpects.
    apply Nat.ltb_lt in Hlen. rewrite Hlen. reflexivity.
Qed.

Lemma interviewer_reply_rarely_fails_witness :
  parseLlmJson SampleHost.host "  Thank you for your time.  " interviewerKeys
  = Resolved (plannedText "Thank you for your time.").
Proof.
  destruct (interviewer_reply_rarely_fails SampleHost.host
              "  Thank you for your time.  " interviewerKeys eq_refl)
    as (_ & Hplain & _); [discriminate|].
  exact (Hplain eq_refl eq_refl).
Defined.

(** A text of four characters and eight bytes that does not parse is not
    taken as a closing statement. *)
Example short_text_is_measured_in_code_units :
  jsLength SampleHost.twoEuros = 4
  /\ String.length SampleHost.twoEuros = 8
  /\ parseLlmJson SampleHost.host SampleHost.twoEuros interviewerKeys
     = Rejected.
Proof. repeat split. Qed.

(** ** [parseLlmJson] for the planner and for the monitor *)

Lemma jsIn_total key v present :
  jsIn key v = Some present ->
  forall key', exists present', jsIn key' v = Some present'.
Proof.
  destruct v; cbn; intros H key'; try discriminate; eexists; reflexivity.
Qed.

Lemma missingKeys_length v expectedKeys :
  forall missing,
    missingKeys v expectedKeys = Some missing ->
    List.length missing <= List.length expectedKeys
    /\ (List.length missing = List.length expectedKeys <->
        forall key, In key expectedKeys -> jsIn key v = Some false).
Proof.
  induction expectedKeys as [|key keys IH]; intros missing H.
  - injection H as <-. cbn. split; [lia|]. split; [intros _ k []|reflexivity].
  - cbn [missingKeys] in H.
    destruct (jsIn key v) as [present|] eqn:Hin; [|discriminate].
    destruct (missingKeys v keys) as [rest|]; [|discriminate].
    destruct (IH rest eq_refl) as [Hle Hall].
    cbn [option_map] in H. injection H as <-.
    destruct present; cbn [List.length].
    + split; [lia|]. split; [lia|].
      intros Hfalse. specialize (Hfalse key (or_introl eq_refl)). congruence.
    + split; [lia|]. split.
      * intros Hlen k [<- | Hk]; [exact Hin|]. apply Hall; [lia|exact Hk].
      * intros Hfalse. f_equal. apply Hall.
        intros k Hk. apply Hfalse. right. exact Hk.
Qed.

Lemma missingKeys_defined v expectedKeys key present :
  jsIn key v = Some present ->
  exists missing, missingKeys v expectedKeys = Some missing.
Proof.
  intros Hin. induction expectedKeys as [|k keys [rest IH]];
    [eexists; reflexivity|].
  cbn [missingKeys]. destruct (jsIn_total _ _ _ Hin k) as [b ->].
  rewrite IH. eexists; reflexivity.
Qed.

Lemma some_key_present v :
  forall keys,
    (forall key, In key keys -> exists b, jsIn key v = Some b) ->
    (forall key, In key keys -> jsIn key v = Some false)
    \/ exists key, In key keys /\ jsIn key v = Some true.
Proof.
  induction keys as [|x l IHl]; intros Htot; [left; intros ? []|].
  destruct (Htot x (or_introl eq_refl)) as [[|] Hx].
  - right. exists x. split; [left; reflexivity|exact Hx].
  - destruct IHl as [Hf | (key & Hkey & Hin)].
    + intros key Hkey. apply Htot. right. exact Hkey.
    + left. intros key [<- | Hkey]; [exact Hx|apply Hf; exact Hkey].
    + right. exists key. split; [right; exact Hkey|exact Hin].
Qed.

(** The check of the keys when at least one key is expected: it passes when
    [in] does not throw and some expected key is present. *)
Lemma keys_accepted v k keys :
  (exists missing,
      missingKeys v (k :: keys) = Some missing
      /\ List.length missing <> List.length (k :: keys))
  <-> exists key, In key (k :: keys) /\ jsIn key v = Some true.
Proof.
  split.
  - intros (missing & Hmissing & Hlen).
    destruct (missingKeys_length _ _ _ Hmissing) as [_ [_ Hall]].
    destruct (some_key_present v (k :: keys)) as [Hf | Hfound];
      [|exfalso; apply Hlen; apply Hall; exact Hf|exact Hfound].
    intros key _. cbn [missingKeys] in Hmissing.
    destruct (jsIn k v) as [b|] eqn:Hk; [|discriminate].
    exact (jsIn_total _ _ _ Hk key).
  - intros (key & Hkey & Hin).
    destruct (missingKeys_defined v (k :: keys) _ _ Hin) as [missing Hm].
    exists missing. split; [exact Hm|].
    destruct (missingKeys_length _ _ _ Hm) as [_ [Hall _]].
    intros Hlen. specialize (Hall Hlen key Hkey). congruence.
Qed.

(** The [try] block when [type] and [text] are not both expected. *)
Lemma parseAndCheck_other_keys h jsonString expectedKeys v :
  expectsTypeAndText expectedKeys = false ->
  parseAndCheck h jsonString expectedKeys = Some v <->
  JSON_parse h jsonString = Some v
  /\ (expectedKeys = []
      \/ exists key, In key expectedKeys /\ jsIn key v = Some true).
Proof.
  intros Hexpects. unfold parseAndCheck. rewrite Hexpects. cbn [andb negb].
  destruct (JSON_parse h jsonString) as [parsed|];
    [|split; [discriminate|intros [H _]; discriminate]].
  destruct expectedKeys as [|k keys].
  { cbn. split; [intros H; injection H as <-; auto
                |intros [H _]; exact H]. }
  change (0 <? List.length (k :: keys)) with true. cbv iota.
  pose proof (keys_accepted parsed k keys) as [Hfrom Hto].
  destruct (missingKeys parsed (k :: keys)) as [missing|] eqn:Hmissing.
  - rewrite andb_true_r.
    destruct (List.length missing =? List.length (k :: keys)) eqn:Hlen.
    + apply Nat.eqb_eq in Hlen.
      assert (Hpos : (0 <? List.length missing) = true)
        by (apply Nat.ltb_lt; rewrite Hlen; cbn; lia).
      rewrite Hpos. cbn [negb]. split; [discriminate|].
      intros [Hv [Hnil | Hkey]]; [discriminate|].
      injection Hv as ->. destruct (Hto Hkey) as (m & Hm & Hneq).
      congruence.
    + apply Nat.eqb_neq in Hlen.
      assert (Hkey : exists key, In key (k :: keys)
                                 /\ jsIn key parsed = Some true)
        by (apply Hfrom; exists missing; split; [reflexivity|exact Hlen]).
      destruct (0 <? List.length missing); cbn [negb];
        (split; [intros H; injection H as <-; split; [reflexivity|right; exact Hkey]
                |intros [H _]; exact H]).
  - cbn [negb]. split; [discriminate|].
    intros [Hv [Hnil | Hkey]]; [discriminate|].
    injection Hv as ->. destruct (Hto Hkey) as (m & Hm & _). discriminate.
Qed.

(** X14.  For the planner and the monitor (expected keys other than both
    [type] and [text]), [parseLlmJson] returns a value exactly when the
    content is not empty, a JSON text is found in it, the text parses, and
    at least one of the expected keys is in the parsed value (or no key is
    expected); the value is the parsed one.  One key out of the expected ones
    is enough. *)
Theorem reply_needs_one_expected_key :
  forall h llmContent expectedKeys v,
    expectsTypeAndText expectedKeys = false ->
    parseLlmJson h llmContent expectedKeys = Resolved v <->
    llmContent <> ""
    /\ exists jsonString,
        extractJson h (trim h llmContent) expectedKeys = Parse jsonString
        /\ JSON_parse h jsonString = Some v
        /\ (expectedKeys = []
            \/ exists key, In key expectedKeys /\ jsIn key v = Some true).
Proof.
  intros h llmContent expectedKeys v Hexpects. unfold parseLlmJson, truthy.
  destruct (llmContent =? "")%string eqn:Hcontent; cbn [negb].
  - apply String.eqb_eq in Hcontent.
    split; [discriminate|intros [H _]; contradiction].
  - apply String.eqb_neq in Hcontent.
    destruct (extractJson h (trim h llmContent) expectedKeys)
      as [jsonString|r] eqn:Hextract.
    + pose proof (parseAndCheck_other_keys h jsonString expectedKeys v
                    Hexpects) as Hcheck.
      rewrite Hexpects. cbn [andb].
      destruct (parseAndCheck h jsonString expectedKeys) as [parsed|].
      * split.
        -- intros H. injection H as ->. split; [exact Hcontent|].
           exists jsonString. split; [reflexivity|].
           apply Hcheck. reflexivity.
        -- intros (_ & js & Hjs & Hparse). injection Hjs as <-.
           f_equal. apply Hcheck in Hparse. congruence.
      * split; [discriminate|].
        intros (_ & js & Hjs & Hparse). injection Hjs as <-.
        apply Hcheck in Hparse. discriminate.
    + apply extractJson_leave in Hextract. rewrite Hexpects in Hextract.
      subst r. split; [discriminate|].
      intros (_ & js & Hjs & _). discriminate.
Qed.

Lemma reply_needs_one_expected_key_witness :
  parseLlmJson SampleHost.host SampleHost.reasonOnly monitorKeys
  = Resolved (JObj [("reason", JStr "Too vague.")]).
Proof.
  apply (reply_needs_one_expected_key SampleHost.host SampleHost.reasonOnly
           monitorKeys (JObj [("reason", JStr "Too vague.")]) eq_refl).
  split; [discriminate|].
  exists SampleHost.reasonOnly. split; [reflexivity|].
  split; [reflexivity|].
  right. exists "reason". split; [cbn; tauto|reflexivity].
Defined.

(** ** [callInterviewerLlm] on the text of the LLM *)

(** X15.  Whenever [parseLlmJson] returns a value for the interviewer,
    [callInterviewerLlm] returns an output: the one the call on the typed
    reply gives, with the text of the parsed value (the fall back to the
    empty text never applies), and a type that is "planned" or "follow-up",
    "planned" when the interview ends. *)
Theorem interviewer_call_on_text_is_typed_call :
  forall h code content v,
    parseLlmJson h content interviewerKeys = Resolved v ->
    exists parsedResponse out,
      interviewerOutputOf v = Some parsedResponse
      /\ callInterviewerLlm_text h code (Resolved content) = Resolved out
      /\ callInterviewerLlm code (Resolved parsedResponse) = Resolved out
      /\ io_text out = io_text parsedResponse
      /\ (io_type out = "planned" \/ io_type out = "follow-up")
      /\ (code = END_INTERVIEW -> io_type out = "planned").
Proof.
  intros h code content v Hparse.
  destruct (parseLlmJson_output h content interviewerKeys v eq_refl Hparse)
    as [[type text] Hout].
  destruct (interviewerOutputOf_strings _ _ Hout) as [Htype Htext].
  cbn [io_type io_text] in Htype, Htext.
  exists {| io_type := type; io_text := text |}.
  unfold callInterviewerLlm_text, callInterviewerLlm. rewrite Hparse.
  cbn [io_type io_text].
  destruct v as [| | | | |fields]; try discriminate.
  rewrite Htype, Htext.
  eexists. split; [exact Hout|].
  split; [reflexivity|].
  split; [reflexivity|]. cbn [io_type io_text].
  split; [reflexivity|].
  split.
  - destruct (code =? END_INTERVIEW)%Z; [left; reflexivity|].
    destruct (type =? "planned")%string eqn:Hplanned; cbn [negb andb].
    + left. apply String.eqb_eq. exact Hplanned.
    + destruct (type =? "follow-up")%string eqn:Hfollow; cbn [negb].
      * right. apply String.eqb_eq. exact Hfollow.
      * left. reflexivity.
  - intros ->. reflexivity.
Qed.

Lemma interviewer_call_on_text_is_typed_call_witness :
  exists out,
    callInterviewerLlm_text SampleHost.host NEXT_QUESTION
      (Resolved "  Thank you for your time.  ") = Resolved out
    /\ io_text out = "Thank you for your time.".
Proof.
  destruct (interviewer_call_on_text_is_typed_call SampleHost.host
              NEXT_QUESTION "  Thank you for your time.  "
              (plannedText "Thank you for your time.") eq_refl)
    as (parsedResponse & out & Hof & Hcall & _ & Htext & _).
  exists out. split; [exact Hcall|].
  injection Hof as <-. exact Htext.
Defined.

(** ** The names of the action codes *)

(** X16.  For the five codes 1 to 5, [getActionCodeName] gives the key of
    [ACTION_CODES] that holds the code: looking the name up in [ACTION_CODES]
    gives the code again.  For every other integer the name is the text
    "Unknown (code)", which is no key of [ACTION_CODES].  So the name can be
    looked up to the code exactly for the codes 1 to 5. *)
Theorem action_code_name_round_trip :
  forall h code,
    ((1 <= code <= 5)%Z ->
     In (getActionCodeName h code, code) ACTION_CODES_entries
     /\ actionCodeOf (getActionCodeName h code) = Some code)
    /\ (~ (1 <= code <= 5)%Z ->
        getActionCodeName h code
        = ("Unknown (" ++ numberToString h code ++ ")")%string
        /\ actionCodeOf (getActionCodeName h code) = None)
    /\ (actionCodeOf (getActionCodeName h code) = Some code
        <-> (1 <= code <= 5)%Z).
Proof.
  intros h code.
  assert (Hunknown : forall text,
             actionCodeOf ("Unknown (" ++ text ++ ")")%string = None)
    by (intros text; reflexivity).
  unfold getActionCodeName, ACTION_CODES_entries.
  unfold REPEAT_QUESTION, CLARIFY_QUESTION, NEXT_QUESTION, NEXT_TOPIC,
    END_INTERVIEW.
  cbn [find snd fst].
  destruct (1 =? code)%Z eqn:H1;
    [apply Z.eqb_eq in H1; subst;
     split; [intros _; split; [cbn; tauto|reflexivity]
            |split; [lia|split; [lia|reflexivity]]]|].
  destruct (2 =? code)%Z eqn:H2;
    [apply Z.eqb_eq in H2; subst;
     split; [intros _; split; [cbn; tauto|reflexivity]
            |split; [lia|split; [lia|reflexivity]]]|].
  destruct (3 =? code)%Z eqn:H3;
    [apply Z.eqb_eq in H3; subst;
     split; [intros _; split; [cbn; tauto|reflexivity]
            |split; [lia|split; [lia|reflexivity]]]|].
  destruct (4 =? code)%Z eqn:H4;
    [apply Z.eqb_eq in H4; subst;
     split; [intros _; split; [cbn; tauto|reflexivity]
            |split; [lia|split; [lia|reflexivity]]]|].
  destruct (5 =? code)%Z eqn:H5;
    [apply Z.eqb_eq in H5; subst;
     split; [intros _; split; [cbn; tauto|reflexivity]
            |split; [lia|split; [lia|reflexivity]]]|].
  apply Z.eqb_neq in H1, H2, H3, H4, H5.
  split; [lia|]. split.
  - intros _. split; [reflexivity|apply Hunknown].
  - split; [|lia]. intros H. rewrite Hunknown in H. discriminate.
Qed.

Lemma action_code_name_round_trip_witness :
  (In (getActionCodeName SampleHost.host 3, 3%Z) ACTION_CODES_entries
   /\ actionCodeOf (getActionCodeName SampleHost.host 3) = Some 3%Z)
  /\ (getActionCodeName SampleHost.host 9
      = ("Unknown (" ++ numberToString SampleHost.host 9 ++ ")")%string
      /\ actionCodeOf (getActionCodeName SampleHost.host 9) = None).
Proof.
  split.
  - apply (proj1 (action_code_name_round_trip SampleHost.host 3)). lia.
  - apply (proj1 (proj2 (action_code_name_round_trip SampleHost.host 9))).
    lia.
Defined.

(** ** The visualizer *)

(** X17.  The visualizer is handed a source of sound only while the
    interview is in progress: the microphone stream when the recording is on
    and there is a stream, otherwise the audio of the speech being played
    when there is one. *)
Theorem visualizer_source_only_in_progress :
  forall (Stream Audio : Type) phase isRecording isTTSPlaying loading
         (micStream : option Stream) (currentTTSAudio : option Audio) source,
    visualizerAudioSource
      (visualizerMode phase isRecording isTTSPlaying loading)
      isRecording micStream isTTSPlaying currentTTSAudio = Some source ->
    phase = IN_PROGRESS
    /\ ((isRecording = true /\ micStream <> None
         /\ option_map inl micStream = Some source)
        \/ ((isRecording = false \/ micStream = None)
            /\ isTTSPlaying = true
            /\ option_map inr currentTTSAudio = Some source)).
Proof.
  intros Stream Audio phase isRecording isTTSPlaying loading micStream
    currentTTSAudio source.
  unfold visualizerAudioSource, visualizerMode.
  destruct phase; cbn; try discriminate;
    destruct isRecording, isTTSPlaying, loading, micStream, currentTTSAudio;
    cbn; intros H; try discriminate; injection H as <-;
    (split; [reflexivity|]);
    first [ left; repeat split; discriminate
          | right; repeat split; auto ].
Qed.

Lemma visualizer_source_only_in_progress_witness :
  visualizerAudioSource (Stream := nat) (Audio := string)
    (visualizerMode IN_PROGRESS false true true) false (Some 7) true
    (Some "speech") = Some (inr "speech")
  /\ IN_PROGRESS = IN_PROGRESS.
Proof.
  split; [reflexivity|].
  exact (proj1 (visualizer_source_only_in_progress nat string IN_PROGRESS
                  false true true (Some 7) (Some "speech") (inr "speech")
                  eq_refl)).
Defined.

(** ** The rotating quotes *)

Lemma nextQuoteIndex_iter n :
  Nat.iter n nextQuoteIndex 0 = n mod List.length quotes.
Proof.
  induction n as [|n IH]; [reflexivity|].
  change (Nat.iter (S n) nextQuoteIndex 0)
    with (nextQuoteIndex (Nat.iter n nextQuoteIndex 0)).
  rewrite IH. unfold nextQuoteIndex.
  change (List.length quotes) with 5.
  rewrite Nat.Div0.add_mod_idemp_l. f_equal. lia.
Qed.

(** X18.  After any number of ticks the quote index names one of the five
    quotes: it is the number of ticks modulo five, so the quotes are shown in
    their order, each one again after five ticks. *)
Theorem quote_index_names_a_quote :
  forall n,
    Nat.iter n nextQuoteIndex 0 = n mod 5
    /\ (exists quote,
           nth_error quotes (Nat.iter n nextQuoteIndex 0) = Some quote)
    /\ Nat.iter (n + 5) nextQuoteIndex 0 = Nat.iter n nextQuoteIndex 0.
Proof.
  intros n. rewrite !nextQuoteIndex_iter. change (List.length quotes) with 5.
  split; [reflexivity|]. split.
  - assert (Hlt : n mod 5 < List.length quotes)
      by (change (List.length quotes) with 5; apply Nat.mod_upper_bound; lia).
    apply nth_error_Some in Hlt.
    destruct (nth_error quotes (n mod 5)) as [quote|]; [|contradiction].
    exists quote. reflexivity.
  - replace (n + 5) with (n + 1 * 5) by lia. apply Nat.Div0.mod_add.
Qed.

(** ** Answers outside a running interview *)

(** Outside the phase IN_PROGRESS, and while a call is loading, no answer is
    taken. *)
Lemma idle_takes_no_answer answers :
  forall s,
    interviewState s <> IN_PROGRESS \/ isLoading s = true ->
    run s answers = Some s.
Proof.
  induction answers as [|a answers IH]; intros s Hs; [reflexivity|].
  assert (Htaken : answerTaken s (textAnswer a) (codeToSend a) = false).
  { unfold answerTaken. destruct Hs as [Hs | Hs].
    - destruct (interviewState s); try congruence; cbn; apply andb_false_r.
    - rewrite Hs. cbn. rewrite andb_false_r. reflexivity. }
  cbn [run]. rewrite (untaken_answer_changes_nothing a s Htaken).
  exact (IH s Hs).
Qed.

(** X19.  [handleSubmitAnswer] takes an answer only while the interview is
    in progress and nothing is loading: in every other state a run of
    submitted answers changes nothing.  In particular, from any state,
    [handleStartInterview] with a description gives a session with an empty
    log, at position (0, 0), with no follow-up, in which no answer is taken
    until the start effect has asked the first question, whether the
    planning succeeded or not. *)
Theorem no_answer_is_taken_outside_interview :
  forall s answers,
    (interviewState s <> IN_PROGRESS \/ isLoading s = true ->
     run s answers = Some s)
    /\ (forall description planner,
          description <> "" ->
          interviewLog (handleStartInterview description planner s) = []
          /\ position (handleStartInterview description planner s) = (0, 0)
          /\ isFollowUpActive (handleStartInterview description planner s)
             = false
          /\ run (handleStartInterview description planner s) answers
             = Some (handleStartInterview description planner s)).
Proof.
  intros s answers. split; [apply idle_takes_no_answer|].
  intros description planner Hdescription.
  assert (Hstart :
            interviewLog (handleStartInterview description planner s) = []
            /\ position (handleStartInterview description planner s) = (0, 0)
            /\ isFollowUpActive (handleStartInterview description planner s)
               = false
            /\ interviewState (handleStartInterview description planner s)
               <> IN_PROGRESS).
  { unfold handleStartInterview.
    apply String.eqb_neq in Hdescription. rewrite Hdescription.
    destruct planner as [plan|]; [destruct (validPlan plan)|];
      repeat split; discriminate. }
  destruct Hstart as (Hlog & Hposition & Hfollow & Hphase).
  repeat split; try assumption.
  apply idle_takes_no_answer. left. exact Hphase.
Qed.

Lemma no_answer_is_taken_outside_interview_witness :
  run (handleStartInterview "Frontend engineer" Rejected Sample.started)
    [Sample.answer NEXT_QUESTION [Sample.says "How do props work?"]]
  = Some (handleStartInterview "Frontend engineer" Rejected Sample.started).
Proof.
  refine (proj2 (proj2 (proj2
    (proj2 (no_answer_is_taken_outside_interview Sample.started
              [Sample.answer NEXT_QUESTION
                 [Sample.says "How do props work?"]])
       "Frontend engineer" Rejected _)))).
  discriminate.
Defined.

(** * Sessions in which calls overlap *)

(** ** One chain of calls, cut at its calls *)

(** [askQuestion] sets [isLoading] before anything else. *)
Lemma askQuestion_loading c topicIdx questionIdx code forceEnd llm b s :
  askQuestion c topicIdx questionIdx code forceEnd llm (setIsLoading b s)
  = askQuestion c topicIdx questionIdx code forceEnd llm s.
Proof. destruct llm; reflexivity. Qed.

(** The chain of calls followed by [askQuestion] is the step
    [askQuestion_return] followed by what the call left awaited goes on
    with. *)
Lemma askQuestion_return_chain c topicIdx questionIdx code forceEnd
    llmResponse llm s :
  askQuestion c topicIdx questionIdx code forceEnd (llmResponse :: llm) s
  = let p := askQuestion_return c topicIdx questionIdx code forceEnd
               llmResponse {| shown := s; awaited := [] |} in
    match awaited p with
    | [] => Some (shown p)
    | [interviewerCall c' topicIdx' questionIdx' code' forceEnd'] =>
        askQuestion c' topicIdx' questionIdx' code' forceEnd' llm (shown p)
    | [closingCall] =>
        match llm with
        | [] => None
        | _ :: _ => Some (shown p |> setIsLoading false)
        end
    | _ => None
    end.
Proof.
  cbn [askQuestion]. unfold askQuestion_return. cbn [shown awaited].
  destruct (callInterviewerLlm _ llmResponse) as [out|]; [|reflexivity].
  destruct ((io_type out =? "follow-up")%string && _).
  - destruct (currentFollowUpStreak c <? MAX_FOLLOW_UP_STREAK);
      [reflexivity|].
    destruct (forcedNext (interviewPlan c) topicIdx questionIdx)
      as [[[ft fq] fa]|].
    + cbn [askQuestion_call shown awaited app].
      destruct llm; reflexivity.
    + cbn [shown awaited app]. destruct llm; reflexivity.
  - destruct ((effectiveActionCode _ =? NEXT_QUESTION)%Z || _);
      destruct (endInterview _ || _); reflexivity.
Qed.

(** ** Sessions in which no answer is sent while a call is awaited *)

Lemma answerTaken_in_progress c textAnswer codeToSend :
  answerTaken c textAnswer codeToSend = true ->
  interviewState c = IN_PROGRESS.
Proof.
  unfold answerTaken. intros H. apply andb_prop in H as [_ H].
  destruct (interviewState c); try discriminate. reflexivity.
Qed.

Lemma takeCall_single (call : Call) i found others :
  takeCall i [call] = Some (found, others) ->
  i = 0 /\ found = call /\ others = [].
Proof.
  unfold takeCall. destruct i as [|i]; cbn.
  - intros H. injection H as <- <-. repeat split.
  - destruct i; discriminate.
Qed.

(** The calls awaited after the return of a call of the interviewer LLM:
    the same ones, or one more when the follow-up limit forces the next
    step. *)
Lemma askQuestion_return_awaited c topicIdx questionIdx code forceEnd
    llmResponse p :
  let p' := askQuestion_return c topicIdx questionIdx code forceEnd
              llmResponse p in
  awaited p' = awaited p
  \/ (exists ft fq fa,
         forcedNext (interviewPlan c) topicIdx questionIdx
         = Some (ft, fq, fa)
         /\ awaited p' = awaited p ++ [interviewerCall c ft fq fa false]
         /\ interviewState (shown p') = interviewState (shown p))
  \/ (awaited p' = awaited p ++ [closingCall]
      /\ interviewState (shown p') = ENDED).
Proof.
  unfold askQuestion_return.
  destruct (callInterviewerLlm _ llmResponse) as [out|];
    [|left; reflexivity].
  destruct ((io_type out =? "follow-up")%string && _).
  - destruct (currentFollowUpStreak c <? MAX_FOLLOW_UP_STREAK);
      [left; reflexivity|].
    destruct (forcedNext (interviewPlan c) topicIdx questionIdx)
      as [[[ft fq] fa]|].
    + right; left. exists ft, fq, fa. repeat split.
    + right; right. split; reflexivity.
  - destruct ((effectiveActionCode _ =? NEXT_QUESTION)%Z || _);
      destruct (endInterview _ || _); left; reflexivity.
Qed.

Section Orderly.

Variable R : State -> Prop.
Variable restarts : bool.

Hypothesis R_answered :
  forall a s s', R s -> submitAnswer a s = Some s' -> R s'.
Hypothesis R_started :
  restarts = true ->
  forall description planner s,
    R s -> R (handleStartInterview description planner s).
Hypothesis R_planned :
  restarts = true ->
  forall llm s s',
    R s -> startInterviewEffect s llm s = Some s' -> R s'.

(** A call of [askQuestion] whose every outcome leads into [R] is in step. *)
Lemma askQuestion_call_inStep c topicIdx questionIdx code forceEnd s :
  interviewState s = IN_PROGRESS ->
  (forall llm s',
      askQuestion c topicIdx questionIdx code forceEnd llm s = Some s' ->
      R s') ->
  inStep R (askQuestion_call c topicIdx questionIdx code forceEnd
              {| shown := s; awaited := [] |}).
Proof.
  intros Hphase Hlead. unfold inStep, askQuestion_call. cbn.
  split; [exact Hphase|].
  intros llm s' H. rewrite askQuestion_loading in H. eauto.
Qed.

(** The return of the one call of the interviewer LLM that is awaited. *)
Lemma askQuestion_return_inStep c topicIdx questionIdx code forceEnd
    llmResponse s :
  interviewState s = IN_PROGRESS ->
  (forall llm s',
      askQuestion c topicIdx questionIdx code forceEnd llm s = Some s' ->
      R s') ->
  inStep R (askQuestion_return c topicIdx questionIdx code forceEnd
              llmResponse {| shown := s; awaited := [] |}).
Proof.
  intros Hphase Hlead.
  pose proof (fun llm => askQuestion_return_chain c topicIdx questionIdx code
                           forceEnd llmResponse llm s) as Hchain.
  cbv zeta in Hchain.
  destruct (askQuestion_return_awaited c topicIdx questionIdx code forceEnd
              llmResponse {| shown := s; awaited := [] |})
    as [Hnone | [(ft & fq & fa & _ & Hcall & Hsame) | (Hclosing & Hended)]];
    cbn [awaited shown app] in *; unfold inStep.
  - rewrite Hnone in *. apply (Hlead [llmResponse]). apply Hchain.
  - rewrite Hcall in *. split; [congruence|].
    intros llm s' H. apply (Hlead (llmResponse :: llm)).
    rewrite Hchain. exact H.
  - rewrite Hclosing in *. split; [exact Hended|].
    apply (Hlead [llmResponse; llmResponse]). apply Hchain.
Qed.

(** An answer sent when no call is awaited. *)
Lemma handleSubmitAnswer_call_inStep text code s :
  R s ->
  inStep R (handleSubmitAnswer_call text code
              {| shown := s; awaited := [] |}).
Proof.
  intros Hs. unfold handleSubmitAnswer_call. cbn [shown awaited].
  destruct (answerTaken s text code) eqn:Htaken; cbn [negb];
    [|exact Hs].
  destruct (answerContext s) as [context|] eqn:Hcontext.
  - unfold inStep. cbn [awaited shown app].
    split; [exact Hs|]. split; [eauto|]. split; [congruence|reflexivity].
  - unfold inStep. cbn [awaited shown].
    apply (R_answered {| textAnswer := text; codeToSend := code;
                         monitor := Rejected; interviewer := [] |} s);
      [exact Hs|].
    unfold submitAnswer, handleSubmitAnswer.
    cbn [textAnswer codeToSend monitor interviewer].
    rewrite Htaken, Hcontext. reflexivity.
Qed.

(** The return of the one call of the monitor LLM that is awaited. *)
Lemma handleSubmitAnswer_return_inStep c outcome :
  R c ->
  (exists text code, answerTaken c text code = true) ->
  answerContext c <> None ->
  inStep R (handleSubmitAnswer_return c outcome
              {| shown := c |> setIsLoading true; awaited := [] |}).
Proof.
  intros Hc (text & code & Htaken) Hcontext.
  destruct (answerContext c) as [context|] eqn:Econtext; [|congruence].
  assert (Hstep : forall llm,
             submitAnswer {| textAnswer := text; codeToSend := code;
                             monitor := outcome; interviewer := llm |} c
             = match outcome with
               | Rejected =>
                   Some (c |> setIsLoading true |> setIsLoading false
                           |> setInterviewState ENDED)
               | Resolved monitorOutput =>
                   let '(s, (t, q, code)) :=
                     processMonitorOutput c monitorOutput
                       (c |> setIsLoading true) in
                   askQuestion c t q code false llm s
               end).
  { intros llm. unfold submitAnswer, handleSubmitAnswer.
    cbn [textAnswer codeToSend monitor interviewer].
    rewrite Htaken, Econtext. reflexivity. }
  unfold handleSubmitAnswer_return. cbn [shown awaited].
  destruct outcome as [monitorOutput|].
  - pose proof (processMonitorOutput_keeps c monitorOutput
                  (c |> setIsLoading true)) as (_ & Hphase & _).
    destruct (processMonitorOutput c monitorOutput (c |> setIsLoading true))
      as [s1 [[t q] code']].
    cbn [fst] in Hphase.
    apply askQuestion_call_inStep.
    + rewrite Hphase. cbn. eapply answerTaken_in_progress; eassumption.
    + intros llm s' H. eapply R_answered; [exact Hc|].
      rewrite Hstep. exact H.
  - unfold inStep. cbn [awaited shown].
    eapply R_answered; [exact Hc|]. apply (Hstep []).
Qed.

(** The effect that starts the interview. *)
Lemma startInterviewEffect_call_inStep s :
  restarts = true ->
  R s ->
  inStep R (startInterviewEffect_call {| shown := s; awaited := [] |}).
Proof.
  intros Hrestarts Hs. unfold startInterviewEffect_call. cbn [shown awaited].
  destruct (Phase_eqb (interviewState s) PLANNING_COMPLETE) eqn:Hphase;
    [|exact Hs].
  destruct (interviewPlan s) as [plan|] eqn:Hplan; [|exact Hs].
  apply askQuestion_call_inStep; [reflexivity|].
  intros llm s' H. apply (R_planned Hrestarts llm s s' Hs).
  unfold startInterviewEffect. rewrite Hphase, Hplan. exact H.
Qed.

(** The effect does nothing on a page that is not planning. *)
Lemma startInterviewEffect_call_idle p :
  interviewState (shown p) <> PLANNING_COMPLETE ->
  startInterviewEffect_call p = p.
Proof.
  intros H. unfold startInterviewEffect_call.
  destruct (interviewState (shown p)); try reflexivity. congruence.
Qed.

(** One event keeps a session in step. *)
Lemma fire_inStep e p p' :
  inStep R p ->
  permitted restarts e = true ->
  (forall textAnswer codeToSend,
      e = sends textAnswer codeToSend -> awaited p = []) ->
  fire e p = Some p' ->
  inStep R p'.
Proof.
  intros Hp Hpermitted Horderly Hfire.
  destruct p as [s calls]. unfold inStep in Hp. cbn [awaited shown] in Hp.
  destruct calls as [|call [|call' calls]];
    [| |destruct call; contradiction].
  - (* no call is awaited *)
    destruct e as [description planner| |text code|i outcome|i llmResponse|i];
      cbn [fire awaited shown] in Hfire;
      try (destruct i; discriminate); injection Hfire as <-.
    + unfold inStep. cbn [awaited shown].
      apply R_started; assumption.
    + apply startInterviewEffect_call_inStep; assumption.
    + apply handleSubmitAnswer_call_inStep; assumption.
  - (* one call is awaited *)
    destruct e as [description planner| |textAnswer codeToSend|i monitor
                   |i llmResponse|i];
      cbn [fire awaited shown] in Hfire.
    + discriminate.
    + injection Hfire as <-.
      rewrite startInterviewEffect_call_idle; [exact Hp|].
      cbn [shown]. destruct call; cbn [awaited shown] in Hp.
      * destruct Hp as (_ & (t & c0 & Htaken) & _ & ->).
        apply answerTaken_in_progress in Htaken. cbn. congruence.
      * destruct Hp as [Hphase _]. congruence.
      * destruct Hp as [Hphase _]. congruence.
    + specialize (Horderly _ _ eq_refl). discriminate.
    + destruct (takeCall i [call]) as [[found others]|] eqn:Htake;
        [|discriminate].
      apply takeCall_single in Htake as (-> & -> & ->).
      destruct call; try discriminate. injection Hfire as <-.
      destruct Hp as (Hc & Htaken & Hcontext & ->).
      apply handleSubmitAnswer_return_inStep; assumption.
    + destruct (takeCall i [call]) as [[found others]|] eqn:Htake;
        [|discriminate].
      apply takeCall_single in Htake as (-> & -> & ->).
      destruct call; try discriminate. injection Hfire as <-.
      destruct Hp as [Hphase Hlead].
      apply askQuestion_return_inStep; assumption.
    + destruct (takeCall i [call]) as [[found others]|] eqn:Htake;
        [|discriminate].
      apply takeCall_single in Htake as (-> & -> & ->).
      destruct call; try discriminate. injection Hfire as <-.
      destruct Hp as [_ Hp]. exact Hp.
Qed.

(** A run of events keeps a session in step. *)
Lemma fireAll_inStep events :
  forall p p',
    inStep R p ->
    forallb (permitted restarts) events = true ->
    orderly p events = true ->
    fireAll p events = Some p' ->
    inStep R p'.
Proof.
  induction events as [|e events IH]; intros p p' Hp Hpermitted Horderly H.
  - injection H as <-. exact Hp.
  - cbn [forallb] in Hpermitted. apply andb_prop in Hpermitted as [He Hes].
    cbn [fireAll] in H. cbn [orderly] in Horderly.
    destruct (fire e p) as [p1|] eqn:Hfire; [|discriminate].
    assert (Hsends : forall textAnswer codeToSend,
               e = sends textAnswer codeToSend -> awaited p = []).
    { intros t c ->. destruct (awaited p); [reflexivity|discriminate]. }
    apply (IH p1 p'); [|exact Hes| |exact H].
    + eapply fire_inStep; eassumption.
    + destruct e, (awaited p); try exact Horderly; discriminate.
Qed.

End Orderly.

Lemma permitted_always events :
  forallb (permitted true) events = true.
Proof.
  induction events as [|e events IH]; [reflexivity|].
  cbn [forallb]. rewrite IH. destruct e; reflexivity.
Qed.

Lemma fireAll_app events1 :
  forall p p1 events2,
    fireAll p events1 = Some p1 ->
    fireAll p (events1 ++ events2) = fireAll p1 events2.
Proof.
  induction events1 as [|e events1 IH]; intros p p1 events2 H.
  - injection H as <-. reflexivity.
  - cbn [fireAll app] in *. destruct (fire e p) as [p'|]; [|discriminate].
    apply IH. exact H.
Qed.

Lemma orderly_app events1 :
  forall p p1 events2,
    fireAll p events1 = Some p1 ->
    orderly p events1 = true ->
    orderly p1 events2 = true ->
    orderly p (events1 ++ events2) = true.
Proof.
  induction events1 as [|e events1 IH]; intros p p1 events2 H H1 H2.
  - injection H as <-. exact H2.
  - cbn [fireAll orderly app] in *.
    destruct (fire e p) as [p'|] eqn:Hfire; [|discriminate].
    destruct e, (awaited p); try discriminate; eapply IH; eassumption.
Qed.

Lemma fireAll_session events :
  forall p p', session p -> fireAll p events = Some p' -> session p'.
Proof.
  induction events as [|e events IH]; intros p p' Hp H; cbn [fireAll] in H.
  - injection H as <-. exact Hp.
  - destruct (fire e p) as [p1|] eqn:Hfire; [|discriminate].
    eapply IH; [|exact H]. eapply session_fire; eassumption.
Qed.

(** The chain of calls [askQuestion] follows, as returns of calls. *)
Lemma askQuestion_events llm :
  forall c topicIdx questionIdx code forceEnd s s',
    askQuestion c topicIdx questionIdx code forceEnd llm s = Some s' ->
    exists events,
      fireAll {| shown := s;
                 awaited := [interviewerCall c topicIdx questionIdx code
                               forceEnd] |} events
      = Some {| shown := s'; awaited := [] |}
      /\ orderly {| shown := s;
                    awaited := [interviewerCall c topicIdx questionIdx code
                                  forceEnd] |} events = true.
Proof.
  induction llm as [|llmResponse llm IH];
    intros c topicIdx questionIdx code forceEnd s s' H; [discriminate|].
  rewrite askQuestion_return_chain in H. cbv zeta in H.
  destruct (askQuestion_return_awaited c topicIdx questionIdx code forceEnd
              llmResponse {| shown := s; awaited := [] |})
    as [Hnone | [(ft & fq & fa & _ & Hcall & _) | (Hclosing & _)]];
    cbn [awaited shown app] in *.
  - rewrite Hnone in H. injection H as <-.
    exists [interviewerReturns 0 llmResponse].
    cbn [fireAll fire orderly takeCall nth_error firstn skipn app awaited
         shown].
    split; [|reflexivity]. f_equal.
    destruct (askQuestion_return _ _ _ _ _ _ _) as [s1 calls].
    cbn [awaited] in Hnone. subst calls. reflexivity.
  - rewrite Hcall in H.
    destruct (IH _ _ _ _ _ _ _ H) as (events & Hfire & Horderly).
    exists (interviewerReturns 0 llmResponse :: events).
    cbn [fireAll fire orderly takeCall nth_error firstn skipn app awaited
         shown].
    destruct (askQuestion_return _ _ _ _ _ _ _) as [s1 calls].
    cbn [awaited shown] in *. subst calls. split; assumption.
  - rewrite Hclosing in H. destruct llm as [|closing llm]; [discriminate|].
    injection H as <-.
    exists [interviewerReturns 0 llmResponse; closingReturns 0].
    cbn [fireAll fire orderly takeCall nth_error firstn skipn app awaited
         shown].
    destruct (askQuestion_return _ _ _ _ _ _ _) as [s1 calls].
    cbn [awaited shown] in *. subst calls. split; reflexivity.
Qed.

(** A step run to its end is a run of events in which no answer is sent
    while a call is awaited. *)
Lemma askQuestion_call_events c topicIdx questionIdx code forceEnd llm s s' :
  askQuestion c topicIdx questionIdx code forceEnd llm s = Some s' ->
  exists events,
    fireAll (askQuestion_call c topicIdx questionIdx code forceEnd
               {| shown := s; awaited := [] |}) events
    = Some {| shown := s'; awaited := [] |}
    /\ orderly (askQuestion_call c topicIdx questionIdx code forceEnd
                  {| shown := s; awaited := [] |}) events = true.
Proof.
  intros H. rewrite <- (askQuestion_loading _ _ _ _ _ _ true) in H.
  exact (askQuestion_events _ _ _ _ _ _ _ _ H).
Qed.

Lemma startInterviewEffect_events s llm s' :
  startInterviewEffect s llm s = Some s' ->
  exists events,
    fireAll {| shown := s; awaited := [] |} events
    = Some {| shown := s'; awaited := [] |}
    /\ orderly {| shown := s; awaited := [] |} events = true.
Proof.
  intros H. unfold startInterviewEffect in H.
  destruct (Phase_eqb (interviewState s) PLANNING_COMPLETE) eqn:Hphase;
    [|injection H as <-; exists []; split; reflexivity].
  destruct (interviewPlan s) as [plan|] eqn:Hplan;
    [|injection H as <-; exists []; split; reflexivity].
  destruct (askQuestion_call_events _ _ _ _ _ _ _ _ H)
    as (events & Hfire & Horderly).
  exists (planningCompletes :: events).
  cbn [fireAll fire orderly awaited]. unfold startInterviewEffect_call.
  cbn [shown awaited]. rewrite Hphase, Hplan. split; assumption.
Qed.

Lemma submitAnswer_events a s s' :
  submitAnswer a s = Some s' ->
  exists events,
    fireAll {| shown := s; awaited := [] |} events
    = Some {| shown := s'; awaited := [] |}
    /\ orderly {| shown := s; awaited := [] |} events = true.
Proof.
  intros H. unfold submitAnswer, handleSubmitAnswer in H.
  destruct (answerTaken s (textAnswer a) (codeToSend a)) eqn:Htaken;
    cbn [negb] in H;
    [|injection H as <-; exists []; repeat split].
  destruct (answerContext s) as [context|] eqn:Hcontext.
  - destruct (monitor a) as [monitorOutput|] eqn:Hmonitor.
    + destruct (processMonitorOutput s monitorOutput (s |> setIsLoading true))
        as [s1 [[t q] code]] eqn:Hprocess.
      destruct (askQuestion_call_events _ _ _ _ _ _ _ _ H)
        as (events & Hfire & Horderly).
      exists (sends (textAnswer a) (codeToSend a)
                :: monitorReturns 0 (Resolved monitorOutput) :: events).
      cbn [fireAll fire orderly awaited].
      unfold handleSubmitAnswer_call. cbn [shown awaited].
      rewrite Htaken, Hcontext.
      cbn [negb fire awaited shown app takeCall nth_error firstn skipn].
      unfold handleSubmitAnswer_return. cbn [shown awaited].
      rewrite Hprocess. split; assumption.
    + injection H as <-.
      exists [sends (textAnswer a) (codeToSend a); monitorReturns 0 Rejected].
      cbn [fireAll fire orderly awaited].
      unfold handleSubmitAnswer_call. cbn [shown awaited].
      rewrite Htaken, Hcontext.
      cbn [negb fire awaited shown app takeCall nth_error firstn skipn].
      split; reflexivity.
  - injection H as <-.
    exists [sends (textAnswer a) (codeToSend a)].
    cbn [fireAll fire orderly awaited].
    unfold handleSubmitAnswer_call. cbn [shown awaited].
    rewrite Htaken, Hcontext. split; reflexivity.
Qed.

(** Every state between two events is shown by a session in which no answer
    is sent while a call is awaited. *)
Lemma reachable_events s :
  reachable s ->
  exists events,
    fireAll initialPage events = Some {| shown := s; awaited := [] |}
    /\ orderly initialPage events = true.
Proof.
  induction 1 as [|s description planner _ (events & Hfire & Horderly)
                  |s llm s' _ (events & Hfire & Horderly) Hstep
                  |s a s' _ (events & Hfire & Horderly) Hstep].
  - exists []. split; reflexivity.
  - exists (events ++ [starts description planner]). split.
    + rewrite (fireAll_app _ _ _ _ Hfire). reflexivity.
    + eapply orderly_app; [exact Hfire|exact Horderly|reflexivity].
  - destruct (startInterviewEffect_events _ _ _ Hstep)
      as (more & Hmore & Hquiet).
    exists (events ++ more). split.
    + rewrite (fireAll_app _ _ _ _ Hfire). exact Hmore.
    + eapply orderly_app; eassumption.
  - destruct (submitAnswer_events _ _ _ Hstep) as (more & Hmore & Hquiet).
    exists (events ++ more). split.
    + rewrite (fireAll_app _ _ _ _ Hfire). exact Hmore.
    + eapply orderly_app; eassumption.
Qed.

(** The pages with no call awaited of such a session show a state between
    two events. *)
Lemma orderly_reachable events p :
  fireAll initialPage events = Some p ->
  orderly initialPage events = true ->
  awaited p = [] ->
  reachable (shown p).
Proof.
  intros Hfire Horderly Hquiet.
  assert (Hstep : inStep reachable p).
  { apply (fireAll_inStep reachable true) with (events := events)
                                                (p := initialPage).
    - intros a s s'. apply reach_submit.
    - intros _ description planner s. apply reach_start.
    - intros _ llm s s'. apply reach_effect.
    - exact reach_initial.
    - apply permitted_always.
    - exact Horderly.
    - exact Hfire. }
  unfold inStep in Hstep. rewrite Hquiet in Hstep. exact Hstep.
Qed.

(** ** The states between two events *)

(** X20.  The states [reachable] holds, those reached when each event (the
    start, the start effect, a submitted answer) runs to its end before the
    next one starts, are the states shown with no call awaited by the
    sessions in which no answer is sent while a call is awaited. *)
Theorem states_between_events_are_orderly_pages :
  forall s,
    reachable s
    <-> exists events,
          fireAll initialPage events = Some {| shown := s; awaited := [] |}
          /\ orderly initialPage events = true.
Proof.
  intros s. split; [apply reachable_events|].
  intros (events & Hfire & Horderly).
  exact (orderly_reachable events _ Hfire Horderly eq_refl).
Qed.

(** ** The window left open when the follow-up limit forces a step *)

(** X21.  When a call of the interviewer LLM made by an [askQuestion] whose
    closure has the streak at the limit returns a follow-up, and the plan
    has a next step to force, the page that results shows the forced
    position with the attempt count as it was, no follow-up, the streak at
    0 and [isLoading] false, while the call for the forced question is
    awaited.  An answer sent on that page during the interview, for a
    position that holds a question, is taken: its call of the monitor is
    awaited as well. *)
Theorem follow_up_limit_leaves_page_open :
  forall c topicIdx questionIdx code llmResponse out ft fq fa p,
    let r := resolveAction (interviewPlan c) topicIdx questionIdx code
               false in
    let p' := askQuestion_return c topicIdx questionIdx code false
                llmResponse p in
    MAX_FOLLOW_UP_STREAK <= currentFollowUpStreak c ->
    callInterviewerLlm (effectiveActionCode r) llmResponse = Resolved out ->
    io_type out = "follow-up" ->
    forcedNext (interviewPlan c) topicIdx questionIdx = Some (ft, fq, fa) ->
    awaited p' = awaited p ++ [interviewerCall c ft fq fa false]
    /\ isLoading (shown p') = false
    /\ position (shown p') = (ft, fq)
    /\ currentQuestionAttempts (shown p')
       = currentQuestionAttempts (shown p)
    /\ interviewState (shown p') = interviewState (shown p)
    /\ isFollowUpActive (shown p') = false
    /\ currentFollowUpStreak (shown p') = 0
    /\ (forall text code',
          interviewState (shown p) = IN_PROGRESS ->
          interviewPlan (shown p) = interviewPlan c ->
          hasQuestion (interviewPlan c) ft fq = true ->
          text <> "" ->
          awaited (handleSubmitAnswer_call text code' p')
          = awaited p ++ [interviewerCall c ft fq fa false;
                          monitorCall (shown p')]).
Proof.
  intros c t q code llmResponse out ft fq fa p r p' Hc Hcall Hty Hforced.
  pose proof (follow_up_not_at_end _ _ _ Hcall Hty) as Hend.
  apply Z.eqb_neq in Hend. apply Nat.ltb_ge in Hc.
  assert (Hp' : p' = {| shown := shown p
                                 |> setIsFollowUpActive false
                                 |> setCurrentFollowUpQuestionText None
                                 |> setPausedState None
                                 |> setCurrentFollowUpStreak (fun _ => 0)
                                 |> setCurrentTopicIndex ft
                                 |> setCurrentQuestionIndex fq
                                 |> setIsLoading true
                                 |> setIsLoading false;
                        awaited := awaited p
                                   ++ [interviewerCall c ft fq fa false] |}).
  { subst p'. unfold askQuestion_return. fold r.
    rewrite Hcall, Hty, Hend, Hc, Hforced. reflexivity. }
  rewrite Hp'. cbn [shown awaited].
  repeat split.
  intros text code' Hphase Hplan Hhas Htext.
  unfold handleSubmitAnswer_call. cbn [shown awaited].
  assert (Htaken : answerTaken
                     (shown p
                        |> setIsFollowUpActive false
                        |> setCurrentFollowUpQuestionText None
                        |> setPausedState None
                        |> setCurrentFollowUpStreak (fun _ => 0)
                        |> setCurrentTopicIndex ft
                        |> setCurrentQuestionIndex fq
                        |> setIsLoading true
                        |> setIsLoading false) text code' = true).
  { unfold answerTaken. cbn. rewrite Hphase.
    apply String.eqb_neq in Htext. rewrite Htext. reflexivity. }
  rewrite Htaken. cbn [negb].
  unfold answerContext. cbn. rewrite Hplan, Hhas. cbn [awaited].
  rewrite <- app_assoc. reflexivity.
Qed.

Lemma follow_up_limit_leaves_page_open_witness :
  exists window,
    fireAll initialPage Overlap.toWindow = Some window
    /\ isLoading (shown window) = false
    /\ position (shown window) = (0, 5)
    /\ awaited window <> [].
Proof.
  assert (E : exists before c,
             fireAll initialPage Overlap.beforeWindow
             = Some {| shown := before;
                       awaited := [interviewerCall c 0 4 NEXT_QUESTION
                                     false] |}
             /\ currentFollowUpStreak c = 3
             /\ interviewPlan c = Some Overlap.plan).
  { eexists. eexists. split; [vm_compute; reflexivity|].
    split; reflexivity. }
  destruct E as (before & c & Hbefore & Hstreak & Hplan).
  pose proof (follow_up_limit_leaves_page_open c 0 4 NEXT_QUESTION
                (Sample.digresses "And on the server?")
                {| io_type := "follow-up"; io_text := "And on the server?" |}
                0 5 NEXT_QUESTION {| shown := before; awaited := [] |}) as H.
  cbv zeta in H.
  destruct H as (Hawaited & Hloading & Hposition & _).
  - rewrite Hstreak. unfold MAX_FOLLOW_UP_STREAK. lia.
  - rewrite Hplan. reflexivity.
  - reflexivity.
  - rewrite Hplan. reflexivity.
  - exists (askQuestion_return c 0 4 NEXT_QUESTION false
              (Sample.digresses "And on the server?")
              {| shown := before; awaited := [] |}).
    split; [|split; [exact Hloading|split; [exact Hposition|]]].
    + unfold Overlap.toWindow.
      rewrite (fireAll_app _ _ _ _ Hbefore). reflexivity.
    + rewrite Hawaited. discriminate.
Defined.

(** ** The follow-up streak *)

(** C4.  The follow-up streak passes [MAX_FOLLOW_UP_STREAK] = 3.  In the
    session [Overlap.toWindow] three follow-ups are asked and answered and
    the interviewer LLM asks for a fourth one: the limit forces the next
    question, the call for it is awaited, and the page is left with
    [isLoading] false.  Answers are sent from then on while calls are
    awaited ([Overlap.threeFollowUps]); each call of [askQuestion] they lead
    to holds the streak of the moment it was made, and each one that returns
    a follow-up enters it and adds one to the streak of the page.  With the
    streak of the page at 3 and a follow-up active, the call still awaited
    holds a streak of 2: the follow-up it returns is entered, and the streak
    is 4. *)
Theorem follow_up_streak_passes_limit_when_calls_overlap :
  exists window atLimit c last,
    fireAll initialPage Overlap.toWindow = Some window
    /\ interviewState (shown window) = IN_PROGRESS
    /\ isLoading (shown window) = false
    /\ awaited window <> []
    /\ fireAll window Overlap.threeFollowUps = Some atLimit
    /\ currentFollowUpStreak (shown atLimit) = MAX_FOLLOW_UP_STREAK
    /\ awaited atLimit = [interviewerCall c 0 7 NEXT_QUESTION false]
    /\ currentFollowUpStreak c = 2
    /\ fire Overlap.fourthFollowUp atLimit = Some last
    /\ session last
    /\ interviewState (shown last) = IN_PROGRESS
    /\ isFollowUpActive (shown last) = true
    /\ pausedState (shown last)
       = Some {| topicIndex := 0; questionIndex := 7; attempts := 0;
                 resumingActionCode := NEXT_QUESTION |}
    /\ currentFollowUpStreak (shown last) = 4.
Proof.
  assert (E : exists window atLimit c last,
             fireAll initialPage Overlap.toWindow = Some window
             /\ interviewState (shown window) = IN_PROGRESS
             /\ isLoading (shown window) = false
             /\ awaited window <> []
             /\ fireAll window Overlap.threeFollowUps = Some atLimit
             /\ currentFollowUpStreak (shown atLimit) = MAX_FOLLOW_UP_STREAK
             /\ awaited atLimit = [interviewerCall c 0 7 NEXT_QUESTION false]
             /\ currentFollowUpStreak c = 2
             /\ fire Overlap.fourthFollowUp atLimit = Some last
             /\ interviewState (shown last) = IN_PROGRESS
             /\ isFollowUpActive (shown last) = true
             /\ pausedState (shown last)
                = Some {| topicIndex := 0; questionIndex := 7; attempts := 0;
                          resumingActionCode := NEXT_QUESTION |}
             /\ currentFollowUpStreak (shown last) = 4).
  { eexists. eexists. eexists. eexists.
    split; [vm_compute; reflexivity|].
    split; [reflexivity|]. split; [reflexivity|]. split; [discriminate|].
    split; [vm_compute; reflexivity|].
    split; [reflexivity|]. split; [reflexivity|]. split; [reflexivity|].
    split; [vm_compute; reflexivity|].
    split; [reflexivity|]. split; [reflexivity|]. split; reflexivity. }
  destruct E as (window & atLimit & c & last & Hwindow & Hphase & Hloading
                 & Hawaited & HatLimit & Hstreak & Hcall & Hc & Hlast
                 & Hrest).
  exists window, atLimit, c, last.
  repeat (split; [assumption|]).
  split; [|exact Hrest].
  eapply session_fire; [|exact Hlast].
  eapply fireAll_session; [|exact HatLimit].
  eapply fireAll_session; [exact session_initial|exact Hwindow].
Qed.

(** X22.  In a session in which no answer is sent while a call is awaited,
    the follow-up streak is at most [MAX_FOLLOW_UP_STREAK] = 3 on every page
    with no call awaited. *)
Theorem follow_up_streak_is_bounded_in_orderly_sessions :
  forall events p,
    fireAll initialPage events = Some p ->
    orderly initialPage events = true ->
    awaited p = [] ->
    currentFollowUpStreak (shown p) <= MAX_FOLLOW_UP_STREAK.
Proof.
  intros events p Hfire Horderly Hquiet.
  apply reachable_streak. eapply orderly_reachable; eassumption.
Qed.

Lemma follow_up_streak_is_bounded_in_orderly_sessions_witness :
  exists p,
    fireAll initialPage
      (Overlap.opening
       ++ Overlap.turn NEXT_QUESTION (Sample.digresses "Why components?"))
    = Some p
    /\ currentFollowUpStreak (shown p) <= MAX_FOLLOW_UP_STREAK.
Proof.
  assert (E : exists p,
             fireAll initialPage
               (Overlap.opening
                ++ Overlap.turn NEXT_QUESTION
                     (Sample.digresses "Why components?"))
             = Some p
             /\ awaited p = [])
    by (eexists; split; [vm_compute; reflexivity|reflexivity]).
  destruct E as (p & Hfire & Hquiet). exists p. split; [exact Hfire|].
  apply (follow_up_streak_is_bounded_in_orderly_sessions _ p Hfire);
    [vm_compute; reflexivity|exact Hquiet].
Defined.

(** ** The bound on the attempt count *)

(** X3.  In a session in which no answer is sent while a call is awaited,
    the attempt count is at most [MAX_ATTEMPTS_PLANNED] = 3 on every page
    with no call awaited, and it is below 3 there whenever the interview is
    in progress with no follow-up active.  The condition is needed: in the
    session [Overlap.countedToWindow] the count is at 3 when the follow-up
    limit forces the next question, and an answer sent back while the call
    for that question is awaited takes the count to 4. *)
Theorem attempt_count_is_bounded :
  (forall events p,
      fireAll initialPage events = Some p ->
      orderly initialPage events = true ->
      awaited p = [] ->
      currentQuestionAttempts (shown p) <= MAX_ATTEMPTS_PLANNED
      /\ (interviewState (shown p) = IN_PROGRESS ->
          isFollowUpActive (shown p) = false ->
          currentQuestionAttempts (shown p) < MAX_ATTEMPTS_PLANNED))
  /\ (exists p,
         fireAll initialPage
           (Overlap.countedToWindow ++ Overlap.early REPEAT_QUESTION)
         = Some p
         /\ interviewState (shown p) = IN_PROGRESS
         /\ isFollowUpActive (shown p) = false
         /\ currentQuestionAttempts (shown p) = 4).
Proof.
  split.
  - intros events p Hfire Horderly Hquiet.
    apply reachable_attempts. eapply orderly_reachable; eassumption.
  - eexists. split; [vm_compute; reflexivity|]. repeat split.
Qed.

Lemma attempt_count_is_bounded_witness :
  exists p,
    fireAll initialPage
      (Overlap.opening
       ++ Overlap.turn REPEAT_QUESTION
            (Sample.says "Once more: what is a component?"))
    = Some p
    /\ currentQuestionAttempts (shown p) < MAX_ATTEMPTS_PLANNED.
Proof.
  assert (E : exists p,
             fireAll initialPage
               (Overlap.opening
                ++ Overlap.turn REPEAT_QUESTION
                     (Sample.says "Once more: what is a component?"))
             = Some p
             /\ awaited p = []
             /\ interviewState (shown p) = IN_PROGRESS
             /\ isFollowUpActive (shown p) = false)
    by (eexists; split; [vm_compute; reflexivity|repeat split]).
  destruct E as (p & Hfire & Hquiet & Hphase & Hfollow).
  exists p. split; [exact Hfire|].
  apply (proj1 attempt_count_is_bounded _ p Hfire);
    [vm_compute; reflexivity|exact Hquiet|exact Hphase|exact Hfollow].
Defined.

(** ** The position only moves forward *)

Lemma run_app answers1 :
  forall s s1 answers2,
    run s answers1 = Some s1 ->
    run s (answers1 ++ answers2) = run s1 answers2.
Proof.
  induction answers1 as [|a answers1 IH]; intros s s1 answers2 H.
  - injection H as <-. reflexivity.
  - cbn [run app] in *. destruct (submitAnswer a s); [|discriminate].
    apply IH. exact H.
Qed.

(** X6.  In a session in which no answer is sent while a call is awaited,
    the interview never goes back in the plan: from a page with no call
    awaited to a later one, with answers sent and calls returning in
    between, the current position stays or moves to a later question, and
    the position paused by a follow-up is never behind the current one.
    The condition is needed: in the session [Overlap.toWindow] followed by
    [Overlap.overtaken], an answer sent while the call for the forced
    question (0, 5) is awaited leads to question (0, 6), and the forced
    question, which comes last, takes the position back to (0, 5). *)
Theorem position_never_goes_back :
  (forall before after p p',
      fireAll initialPage before = Some p ->
      orderly initialPage before = true ->
      awaited p = [] ->
      fireAll p after = Some p' ->
      orderly p after = true ->
      forallb (permitted false) after = true ->
      awaited p' = [] ->
      atOrAfter (position (shown p)) (position (shown p'))
      /\ pausedAhead (shown p'))
  /\ (exists p p',
         fireAll initialPage
           (Overlap.toWindow ++ Overlap.early NEXT_QUESTION
            ++ [interviewerReturns 1 (Sample.says "What is a context?")])
         = Some p
         /\ position (shown p) = (0, 6)
         /\ fireAll p [interviewerReturns 0 (Sample.says "What is a ref?")]
            = Some p'
         /\ position (shown p') = (0, 5)).
Proof.
  split.
  - intros before after p p' Hbefore Hquiet Hp Hafter Horderly Hanswers Hp'.
    assert (Hreach : reachable (shown p))
      by (eapply orderly_reachable; eassumption).
    assert (Hstep : inStep (answersLeadTo (shown p)) p').
    { apply (fireAll_inStep (answersLeadTo (shown p)) false)
        with (events := after) (p := p); try assumption.
      - intros a s s' (answers & Hrun) Hsubmit.
        exists (answers ++ [a]).
        rewrite (run_app _ _ _ _ Hrun). cbn [run]. rewrite Hsubmit.
        reflexivity.
      - discriminate.
      - discriminate.
      - unfold inStep. rewrite Hp. exists []. reflexivity. }
    unfold inStep in Hstep. rewrite Hp' in Hstep.
    destruct Hstep as (answers & Hrun).
    exact (run_never_goes_back answers _ _ Hreach Hrun).
  - eexists. eexists. split; [vm_compute; reflexivity|].
    split; [reflexivity|]. split; [vm_compute; reflexivity|reflexivity].
Qed.

Lemma position_never_goes_back_witness :
  exists p p',
    fireAll initialPage Overlap.opening = Some p
    /\ fireAll p
         (Overlap.turn CLARIFY_QUESTION (Sample.says "Could you say more?")
          ++ Overlap.turn NEXT_QUESTION
               (Sample.says "How do props work in React?"))
       = Some p'
    /\ atOrAfter (position (shown p)) (position (shown p')).
Proof.
  assert (E : exists p p',
             fireAll initialPage Overlap.opening = Some p
             /\ awaited p = []
             /\ fireAll p
                  (Overlap.turn CLARIFY_QUESTION
                     (Sample.says "Could you say more?")
                   ++ Overlap.turn NEXT_QUESTION
                        (Sample.says "How do props work in React?"))
                = Some p'
             /\ orderly p
                  (Overlap.turn CLARIFY_QUESTION
                     (Sample.says "Could you say more?")
                   ++ Overlap.turn NEXT_QUESTION
                        (Sample.says "How do props work in React?"))
                = true
             /\ awaited p' = []).
  { eexists. eexists. split; [vm_compute; reflexivity|].
    split; [reflexivity|]. split; [vm_compute; reflexivity|].
    split; [vm_compute; reflexivity|reflexivity]. }
  destruct E as (p & p' & Hp & Hquiet & Hp' & Horderly & Hquiet').
  exists p, p'. split; [exact Hp|]. split; [exact Hp'|].
  assert (Hopening : orderly initialPage Overlap.opening = true)
    by (vm_compute; reflexivity).
  exact (proj1 (proj1 position_never_goes_back Overlap.opening _ p p' Hp
                  Hopening Hquiet Hp' Horderly eq_refl Hquiet')).
Defined.

(** ** The attempt count when a planned question is asked *)

(** C7.  When [askQuestion] asks a planned question with the effective
    action [NEXT_QUESTION] or [NEXT_TOPIC] (the output of the interviewer LLM
    is a planned turn), the question asked becomes the current position and
    the attempt count is set to 0 with it: in the chain of calls run to its
    end, and in the step from the return of the call on whatever page,
    whatever other calls are awaited. *)
Theorem planned_question_resets_attempts :
  forall c topicIdx questionIdx code forceEnd llmResponse out,
    let r := resolveAction (interviewPlan c) topicIdx questionIdx code
               forceEnd in
    callInterviewerLlm (effectiveActionCode r) llmResponse = Resolved out ->
    io_type out <> "follow-up" ->
    effectiveActionCode r = NEXT_QUESTION
    \/ effectiveActionCode r = NEXT_TOPIC ->
    (forall llm s,
        exists s',
          askQuestion c topicIdx questionIdx code forceEnd
            (llmResponse :: llm) s = Some s'
          /\ position s' = (nextStateTopicIndex r, nextStateQuestionIndex r)
          /\ currentQuestionAttempts s' = 0)
    /\ (forall p,
          let p' := askQuestion_return c topicIdx questionIdx code forceEnd
                      llmResponse p in
          awaited p' = awaited p
          /\ position (shown p')
             = (nextStateTopicIndex r, nextStateQuestionIndex r)
          /\ currentQuestionAttempts (shown p') = 0
          /\ interviewState (shown p') = interviewState (shown p)
          /\ isLoading (shown p') = false).
Proof.
  intros c t q code fe llmResponse out r Hcall Hty Heff.
  pose proof (resolveAction_end (interviewPlan c) t q code fe) as Hend.
  fold r in Hend.
  apply String.eqb_neq in Hty.
  assert (Hreset : ((effectiveActionCode r =? NEXT_QUESTION)%Z
                    || (effectiveActionCode r =? NEXT_TOPIC)%Z) = true)
    by (destruct Heff as [-> | ->]; reflexivity).
  assert (Hgo : (endInterview r
                 || (effectiveActionCode r =? END_INTERVIEW)%Z) = false).
  { apply orb_false_intro.
    - destruct (endInterview r); [|reflexivity].
      specialize (Hend eq_refl).
      destruct Heff as [E | E]; rewrite E in Hend; discriminate.
    - destruct Heff as [-> | ->]; reflexivity. }
  split.
  - intros llm s. cbn [askQuestion]. fold r. rewrite Hcall, Hty.
    cbn [andb]. rewrite Hreset, Hgo.
    eexists. split; [reflexivity|]. split; reflexivity.
  - intros p p'. subst p'. unfold askQuestion_return. fold r.
    rewrite Hcall, Hty. cbn [andb]. rewrite Hreset, Hgo.
    repeat split.
Qed.

Lemma planned_question_resets_attempts_witness :
  exists s2 s3,
    run Sample.started
      [Sample.answer CLARIFY_QUESTION [Sample.says "Could you say more?"]]
    = Some s2
    /\ currentQuestionAttempts s2 = 1
    /\ askQuestion s2 0 1 NEXT_QUESTION false
         [Sample.says "How do props work in React?"] s2 = Some s3
    /\ position s3 = (0, 1)
    /\ currentQuestionAttempts s3 = 0.
Proof.
  assert (E2 : exists s2,
             run Sample.started
               [Sample.answer CLARIFY_QUESTION
                  [Sample.says "Could you say more?"]] = Some s2
             /\ currentQuestionAttempts s2 = 1
             /\ interviewPlan s2 = Some Sample.plan)
    by (eexists; split; [vm_compute; reflexivity|split; reflexivity]).
  destruct E2 as (s2 & Hrun & Hcount & Hplan).
  destruct (planned_question_resets_attempts s2 0 1 NEXT_QUESTION false
              (Sample.says "How do props work in React?")
              {| io_type := "planned";
                 io_text := "How do props work in React?" |})
    as [Hchain _].
  - rewrite Hplan. reflexivity.
  - discriminate.
  - rewrite Hplan. left. reflexivity.
  - destruct (Hchain [] s2) as (s3 & Hask & Hposition & Hzero).
    rewrite Hplan in Hposition. exists s2, s3.
    repeat split; assumption.
Defined.

(** The position forced when the follow-up limit is reached is set before
    the forced question is asked, with the attempt count as it was: the
    interview ends there when the call for the forced question fails, and
    while that call is awaited the page takes an answer at the forced
    position. *)
Lemma forced_position_keeps_attempt_count :
  (exists s',
      submitAnswer
        (Sample.answer NEXT_QUESTION
           [Sample.digresses "And what about clusters?"; Rejected])
        Sample.digressing = Some s'
      /\ position Sample.digressing = (0, 0)
      /\ position s' = (1, 2)
      /\ hasQuestion (interviewPlan s') 1 2 = true
      /\ currentQuestionAttempts s' = 1)
  /\ (exists p,
         fireAll {| shown := Sample.digressing; awaited := [] |}
           (Overlap.turn NEXT_QUESTION
              (Sample.digresses "And what about clusters?")) = Some p
         /\ session p
         /\ interviewState (shown p) = IN_PROGRESS
         /\ isLoading (shown p) = false
         /\ position (shown p) = (1, 2)
         /\ hasQuestion (interviewPlan (shown p)) 1 2 = true
         /\ currentQuestionAttempts (shown p) = 1).
Proof.
  split.
  - eexists. split; [vm_compute; reflexivity|]. repeat split.
  - assert (E : exists p,
               fireAll {| shown := Sample.digressing; awaited := [] |}
                 (Overlap.turn NEXT_QUESTION
                    (Sample.digresses "And what about clusters?")) = Some p
               /\ interviewState (shown p) = IN_PROGRESS
               /\ isLoading (shown p) = false
               /\ position (shown p) = (1, 2)
               /\ hasQuestion (interviewPlan (shown p)) 1 2 = true
               /\ currentQuestionAttempts (shown p) = 1)
      by (eexists; split; [vm_compute; reflexivity|repeat split]).
    destruct E as (p & Hfire & Hrest). exists p.
    split; [exact Hfire|]. split; [|exact Hrest].
    destruct (reachable_events _ digressing_reachable)
      as (events & Hevents & _).
    eapply fireAll_session; [|exact Hfire].
    eapply fireAll_session; [exact session_initial|exact Hevents].
Qed.

(** ** The attempt count and the follow-ups *)





(** ** The answer to a follow-up *)

(** [askQuestion] for a question the plan has, asked for as the next question
    or as the next topic: the effective action is [NEXT_QUESTION]. *)
Lemma askQuestion_asks c topicIdx questionIdx code topic llmResponse llm out
    s :
  topicAt (interviewPlan c) topicIdx = Some topic ->
  questionIdx < List.length (questions topic) ->
  code = NEXT_QUESTION \/ code = NEXT_TOPIC ->
  callInterviewerLlm NEXT_QUESTION llmResponse = Resolved out ->
  effectiveActionCode
    (resolveAction (interviewPlan c) topicIdx questionIdx code false)
  = NEXT_QUESTION
  /\ (io_type out <> "follow-up" ->
      askQuestion c topicIdx questionIdx code false (llmResponse :: llm) s
      = Some (s |> setIsLoading true
                |> setCurrentFollowUpStreak (fun _ => 0)
                |> setIsFollowUpActive false
                |> setCurrentFollowUpQuestionText None
                |> setPausedState None
                |> setCurrentQuestionAttempts 0
                |> setCurrentTopicIndex topicIdx
                |> setCurrentQuestionIndex questionIdx
                |> setIsLoading false))
  /\ (io_type out = "follow-up" ->
      currentFollowUpStreak c < MAX_FOLLOW_UP_STREAK ->
      askQuestion c topicIdx questionIdx code false (llmResponse :: llm) s
      = Some (s |> setIsLoading true
                |> setCurrentFollowUpStreak (fun prev => prev + 1)
                |> setPausedState
                     (Some {| topicIndex := topicIdx;
                              questionIndex := questionIdx;
                              attempts := currentQuestionAttempts c;
                              resumingActionCode := NEXT_QUESTION |})
                |> setIsFollowUpActive true
                |> setCurrentFollowUpQuestionText (Some (io_text out))
                |> setIsLoading false)).
Proof.
  intros Htopic Hq Hcode Hcall.
  assert (Hr : resolveAction (interviewPlan c) topicIdx questionIdx code
                 false
               = {| plannedTopicName := name topic;
                    plannedQuestionText :=
                      nth_error (questions topic) questionIdx;
                    effectiveActionCode := NEXT_QUESTION;
                    endInterview := false;
                    nextStateTopicIndex := topicIdx;
                    nextStateQuestionIndex := questionIdx |}).
  { rewrite (resolveAction_in_topic _ _ _ _ Htopic code Hq)
      by (destruct Hcode as [-> | ->]; discriminate).
    destruct Hcode as [-> | ->]; reflexivity. }
  split; [rewrite Hr; reflexivity|]. split.
  - intros Hty. cbn [askQuestion]. rewrite Hr. cbn [effectiveActionCode].
    rewrite Hcall. apply String.eqb_neq in Hty. rewrite Hty. reflexivity.
  - intros Hty Hstreak. cbn [askQuestion]. rewrite Hr.
    cbn [effectiveActionCode]. rewrite Hcall, Hty.
    apply Nat.ltb_lt in Hstreak. rewrite Hstreak. reflexivity.
Qed.

(** [askQuestion] that ends the interview enters no follow-up. *)
Lemma askQuestion_followUp_cleared_at_end c topicIdx questionIdx code
    forceEnd llmResponse llm s s' :
  effectiveActionCode
    (resolveAction (interviewPlan c) topicIdx questionIdx code forceEnd)
  = END_INTERVIEW ->
  askQuestion c topicIdx questionIdx code forceEnd (llmResponse :: llm) s
  = Some s' ->
  isFollowUpActive s = false ->
  pausedState s = None ->
  isFollowUpActive s' = false /\ pausedState s' = None.
Proof.
  intros Heff H Ha Hp. cbn [askQuestion] in H. rewrite Heff in H.
  destruct (callInterviewerLlm END_INTERVIEW llmResponse) as [out|].
  - rewrite Z.eqb_refl, andb_false_r, orb_true_r in H. cbn in H.
    injection H as <-. split; reflexivity.
  - injection H as <-. split; assumption.
Qed.

(** C6.  When the answer to a follow-up is assessed, [handleSubmitAnswer]
    logs it, clears the follow-up and resumes the planned flow after the
    paused position, whatever the action that was pending when the follow-up
    began ([resumingActionCode]) and whatever the action code of the
    monitor.  When the plan has a non-empty question after the paused one in
    its topic, that question is asked for with [NEXT_QUESTION]; else, when the
    plan has a following topic, its first question is asked for with
    [NEXT_TOPIC], which [askQuestion] turns into [NEXT_QUESTION]; in both
    cases a planned turn makes the question the current position with the
    attempt count at 0, and a follow-up pauses it with [NEXT_QUESTION] as the
    action to resume.  When the plan has neither, the interview ends. *)
Theorem follow_up_answer_resumes_after_paused_position :
  forall s paused a m llmResponse llm,
    isFollowUpActive s = true ->
    pausedState s = Some paused ->
    answerTaken s (textAnswer a) (codeToSend a) = true ->
    monitor a = Resolved m ->
    interviewer a = llmResponse :: llm ->
    let plan := interviewPlan s in
    let logged := interviewLog s
                  ++ [{| le_output := m; le_type := follow_up |}] in
    (forall target out,
        (hasQuestion plan (topicIndex paused) (questionIndex paused + 1)
         = true
         /\ target = (topicIndex paused, questionIndex paused + 1))
        \/ (hasQuestion plan (topicIndex paused) (questionIndex paused + 1)
            = false
            /\ (exists next,
                   topicAt plan (topicIndex paused + 1) = Some next
                   /\ questions next <> [])
            /\ target = (topicIndex paused + 1, 0)) ->
        callInterviewerLlm NEXT_QUESTION llmResponse = Resolved out ->
        (io_type out <> "follow-up" ->
         exists s',
           submitAnswer a s = Some s'
           /\ interviewState s' = IN_PROGRESS
           /\ position s' = target
           /\ currentQuestionAttempts s' = 0
           /\ isFollowUpActive s' = false
           /\ pausedState s' = None
           /\ currentFollowUpStreak s' = 0
           /\ interviewLog s' = logged)
        /\ (io_type out = "follow-up" ->
            currentFollowUpStreak s < MAX_FOLLOW_UP_STREAK ->
            exists s',
              submitAnswer a s = Some s'
              /\ interviewState s' = IN_PROGRESS
              /\ position s' = position s
              /\ currentQuestionAttempts s' = currentQuestionAttempts s
              /\ isFollowUpActive s' = true
              /\ pausedState s'
                 = Some {| topicIndex := fst target;
                           questionIndex := snd target;
                           attempts := currentQuestionAttempts s;
                           resumingActionCode := NEXT_QUESTION |}
              /\ currentFollowUpStreak s' = currentFollowUpStreak s + 1
              /\ interviewLog s' = logged))
    /\ (hasQuestion plan (topicIndex paused) (questionIndex paused + 1)
        = false ->
        topicAt plan (topicIndex paused + 1) = None ->
        exists s',
          submitAnswer a s = Some s'
          /\ interviewState s' = ENDED
          /\ position s' = position s
          /\ currentQuestionAttempts s' = currentQuestionAttempts s
          /\ isFollowUpActive s' = false
          /\ pausedState s' = None
          /\ interviewLog s' = logged).
Proof.
  intros s paused a m llmResponse llm Ha Hp Htaken Hm Hllm plan logged.
  assert (Hsubmit :
            submitAnswer a s
            = askQuestion s
                (fst (fst (resumeAfterFollowUp plan paused)))
                (snd (fst (resumeAfterFollowUp plan paused)))
                (snd (resumeAfterFollowUp plan paused)) false
                (llmResponse :: llm)
                (s |> setIsLoading true
                   |> setInterviewLog (fun prev =>
                        prev ++ [{| le_output := m; le_type := follow_up |}])
                   |> setIsFollowUpActive false
                   |> setCurrentFollowUpQuestionText None
                   |> setPausedState None)).
  { unfold submitAnswer, handleSubmitAnswer. rewrite Htaken. cbn [negb].
    unfold answerContext. rewrite Ha, Hp, Hm, Hllm.
    rewrite (processMonitorOutput_follow_up s paused) by assumption.
    fold plan. destruct (resumeAfterFollowUp plan paused) as [[t q] code].
    reflexivity. }
  pose proof (answerTaken_in_progress _ _ _ Htaken) as Hphase.
  split.
  - intros target out Htarget Hcall.
    assert (Hstep : exists topic code,
               resumeAfterFollowUp plan paused
               = (fst target, snd target, code)
               /\ topicAt plan (fst target) = Some topic
               /\ snd target < List.length (questions topic)
               /\ (code = NEXT_QUESTION \/ code = NEXT_TOPIC)).
    { unfold resumeAfterFollowUp.
      destruct Htarget as [(Hhas & ->) | (Hhas & (next & Hnext & Hq) & ->)];
        rewrite Hhas; cbn [negb fst snd].
      - destruct (hasQuestion_topic _ _ _ Hhas) as (topic & Htopic & Hq).
        exists topic, NEXT_QUESTION. repeat split; auto.
      - rewrite Hnext. exists next, NEXT_TOPIC. repeat split; auto.
        destruct (questions next); [congruence|cbn; lia]. }
    destruct Hstep as (topic & code & Hstep & Htopic & Hq & Hcode).
    rewrite Hstep in Hsubmit. cbn [fst snd] in Hsubmit.
    destruct (askQuestion_asks s (fst target) (snd target) code topic
                llmResponse llm out
                (s |> setIsLoading true
                   |> setInterviewLog (fun prev =>
                        prev ++ [{| le_output := m; le_type := follow_up |}])
                   |> setIsFollowUpActive false
                   |> setCurrentFollowUpQuestionText None
                   |> setPausedState None)
                Htopic Hq Hcode Hcall) as (_ & Hplanned & Hfollow).
    split.
    + intros Hty. rewrite Hsubmit, (Hplanned Hty).
      eexists. split; [reflexivity|]. cbn.
      repeat split; try assumption. destruct target; reflexivity.
    + intros Hty Hstreak. rewrite Hsubmit, (Hfollow Hty Hstreak).
      eexists. split; [reflexivity|]. cbn.
      repeat split; assumption.
  - intros Hhas Hnext.
    assert (Hstep : resumeAfterFollowUp plan paused
                    = (topicIndex paused + 1, 0, END_INTERVIEW)).
    { unfold resumeAfterFollowUp. rewrite Hhas. cbn [negb].
      rewrite Hnext. reflexivity. }
    rewrite Hstep in Hsubmit. cbn [fst snd] in Hsubmit.
    destruct (askQuestion_end_keeps s (topicIndex paused + 1) 0
                END_INTERVIEW false llmResponse llm
                (s |> setIsLoading true
                   |> setInterviewLog (fun prev =>
                        prev ++ [{| le_output := m; le_type := follow_up |}])
                   |> setIsFollowUpActive false
                   |> setCurrentFollowUpQuestionText None
                   |> setPausedState None))
      as (s' & Hask & Hended & Hposition & Hlog & Hcount).
    { apply resolveAction_outside. right. exact Hnext. }
    exists s'. rewrite Hsubmit. split; [exact Hask|].
    split; [exact Hended|]. split; [exact Hposition|].
    split; [exact Hcount|].
    pose proof (askQuestion_followUp_cleared_at_end s (topicIndex paused + 1)
                  0 END_INTERVIEW false llmResponse llm
                  (s |> setIsLoading true
                     |> setInterviewLog (fun prev =>
                          prev ++ [{| le_output := m;
                                      le_type := follow_up |}])
                     |> setIsFollowUpActive false
                     |> setCurrentFollowUpQuestionText None
                     |> setPausedState None) s') as Hclear.
    destruct Hclear as [Hactive Hpaused];
      [apply resolveAction_outside; right; exact Hnext|exact Hask
      |reflexivity|reflexivity|].
    split; [exact Hactive|]. split; [exact Hpaused|exact Hlog].
Qed.

Lemma follow_up_answer_resumes_after_paused_position_witness :
  exists s',
    submitAnswer
      (Sample.answer REPEAT_QUESTION [Sample.says "What is the event loop?"])
      Sample.digressing = Some s'
    /\ position s' = (1, 1)
    /\ currentQuestionAttempts s' = 0.
Proof.
  destruct (follow_up_answer_resumes_after_paused_position Sample.digressing
              {| topicIndex := 1; questionIndex := 0; attempts := 1;
                 resumingActionCode := NEXT_QUESTION |}
              (Sample.answer REPEAT_QUESTION
                 [Sample.says "What is the event loop?"])
              (Sample.assessment REPEAT_QUESTION)
              (Sample.says "What is the event loop?") []
              eq_refl eq_refl eq_refl eq_refl eq_refl)
    as [Hasked _].
  destruct (Hasked (1, 1)
              {| io_type := "planned"; io_text := "What is the event loop?" |})
    as [Hplanned _].
  - left. split; reflexivity.
  - reflexivity.
  - destruct Hplanned as (s' & Hsubmit & _ & Hposition & Hcount & _);
      [discriminate|].
    exists s'. repeat split; assumption.
Defined.

(** The step after a follow-up is not [askQuestion] with [NEXT_QUESTION] at
    the question after the paused one.  On the plan of the README, with the
    last question of React paused, the code asks for the first question of
    Node.js with [NEXT_TOPIC], corrected to [NEXT_QUESTION], where
    [NEXT_QUESTION] after the paused question is resolved to [NEXT_TOPIC]: a
    follow-up that comes instead pauses another position with another action
    to resume.  On an accepted plan whose second question is the empty
    string, with the first question paused, the code ends the interview
    where [NEXT_QUESTION] after the paused question asks the second
    question. *)
Lemma follow_up_resume_is_not_next_question_at_paused_position :
  (exists s s1 s2,
      run Sample.started
        [Sample.answer NEXT_QUESTION [Sample.digresses "Why props?"]]
      = Some s
      /\ isFollowUpActive s = true
      /\ pausedState s
         = Some {| topicIndex := 0; questionIndex := 1; attempts := 0;
                   resumingActionCode := NEXT_QUESTION |}
      /\ submitAnswer
           (Sample.answer NEXT_QUESTION [Sample.digresses "And Node.js?"]) s
         = Some s1
      /\ pausedState s1
         = Some {| topicIndex := 1; questionIndex := 0; attempts := 0;
                   resumingActionCode := NEXT_QUESTION |}
      /\ askQuestion s 0 (1 + 1) NEXT_QUESTION false
           [Sample.digresses "And Node.js?"]
           (s |> setIsLoading true
              |> setInterviewLog (fun prev =>
                   prev ++ [{| le_output := Sample.assessment NEXT_QUESTION;
                               le_type := follow_up |}])
              |> setIsFollowUpActive false
              |> setCurrentFollowUpQuestionText None
              |> setPausedState None)
         = Some s2
      /\ pausedState s2
         = Some {| topicIndex := 0; questionIndex := 2; attempts := 0;
                   resumingActionCode := NEXT_TOPIC |}
      /\ s1 <> s2)
  /\ (let plan :=
        {| topics := [ {| name := "React";
                          questions := ["What is a React component?"; "";
                                        "What is state?"] |} ] |} in
      exists s s1 s2,
        validPlan plan = true
        /\ startInterviewEffect
             (handleStartInterview "a job description" (Resolved plan)
                initialState)
             [Sample.digresses "Why React?"]
             (handleStartInterview "a job description" (Resolved plan)
                initialState)
           = Some s
        /\ isFollowUpActive s = true
        /\ pausedState s
           = Some {| topicIndex := 0; questionIndex := 0; attempts := 0;
                     resumingActionCode := NEXT_QUESTION |}
        /\ submitAnswer
             (Sample.answer NEXT_QUESTION [Sample.says "Thank you."]) s
           = Some s1
        /\ interviewState s1 = ENDED
        /\ askQuestion s 0 (0 + 1) NEXT_QUESTION false
             [Sample.says "Thank you."]
             (s |> setIsLoading true
                |> setInterviewLog (fun prev =>
                     prev ++ [{| le_output := Sample.assessment NEXT_QUESTION;
                                 le_type := follow_up |}])
                |> setIsFollowUpActive false
                |> setCurrentFollowUpQuestionText None
                |> setPausedState None)
           = Some s2
        /\ interviewState s2 = IN_PROGRESS
        /\ position s2 = (0, 1)).
Proof.
  split.
  - eexists. eexists. eexists.
    split; [vm_compute; reflexivity|]. split; [reflexivity|].
    split; [reflexivity|]. split; [vm_compute; reflexivity|].
    split; [reflexivity|]. split; [vm_compute; reflexivity|].
    split; [reflexivity|]. intros H.
    apply (f_equal pausedState) in H. discriminate.
  - cbv zeta. eexists. eexists. eexists.
    split; [reflexivity|]. split; [vm_compute; reflexivity|].
    split; [reflexivity|]. split; [reflexivity|].
    split; [vm_compute; reflexivity|]. split; [reflexivity|].
    split; [vm_compute; reflexivity|]. split; reflexivity.
Qed.

(** ** What holds on every page, whether calls overlap or not *)

Ltac return_cases :=
  repeat match goal with
    | |- context [match callInterviewerLlm ?a ?b with _ => _ end] =>
        destruct (callInterviewerLlm a b) as [?out|] eqn:?Hcall
    | |- context [match forcedNext ?p ?t ?q with _ => _ end] =>
        destruct (forcedNext p t q) as [[[?ft ?fq] ?fa]|] eqn:?Hforced
    | |- context [if ?b then _ else _] => destruct b eqn:?Hcond
    end.

(** The state shown after the return of a call of the interviewer LLM. *)
Lemma askQuestion_return_shown c topicIdx questionIdx code forceEnd
    llmResponse p :
  let s := shown p in
  let s' := shown (askQuestion_return c topicIdx questionIdx code forceEnd
                     llmResponse p) in
  interviewPlan s' = interviewPlan s
  /\ (interviewState s' = interviewState s \/ interviewState s' = ENDED)
  /\ (followUpConsistent s -> followUpConsistent s')
  /\ (isLoading s' = false ->
      isFollowUpActive s' = false ->
      interviewState s' <> ENDED ->
      currentFollowUpStreak s' = 0)
  /\ (interviewPlan c = interviewPlan s ->
      positionInPlan s -> positionInPlan s').
Proof.
  cbv zeta.
  pose proof (fun plan => resolveAction_in_plan plan topicIdx questionIdx code
                            forceEnd) as Hnext.
  pose proof (fun plan => forcedNext_in_plan plan topicIdx questionIdx)
    as Hforce.
  unfold askQuestion_return.
  set (r := resolveAction (interviewPlan c) topicIdx questionIdx code
              forceEnd) in *.
  return_cases; cbn [shown askQuestion_call awaited];
    (split; [reflexivity|]);
    (split; [first [left; reflexivity | right; reflexivity]|]);
    (split;
     [intros Hs; unfold followUpConsistent in *; cbn;
      first [ exact Hs
            | right; repeat split; reflexivity
            | left; repeat split; try discriminate; lia ]|]);
    (split; [cbn; intros; congruence|]);
    intros Hplan Hs; unfold positionInPlan in *; cbn;
    first [ exact Hs
          | intros plan Hp Hwf; rewrite <- Hplan in Hp; tests; subst r;
            rewrite Hp in *;
            first [ apply Hnext; assumption
                  | eapply Hforce; eassumption ] ].
Qed.

(** The state shown after the return of a call of the monitor LLM. *)
Lemma handleSubmitAnswer_return_shown c outcome p :
  let s := shown p in
  let s' := shown (handleSubmitAnswer_return c outcome p) in
  interviewPlan s' = interviewPlan s
  /\ (interviewState s' = interviewState s \/ interviewState s' = ENDED)
  /\ (followUpConsistent s -> followUpConsistent s')
  /\ (isLoading s' = false -> interviewState s' = ENDED)
  /\ position s' = position s
  /\ (awaited (handleSubmitAnswer_return c outcome p) = awaited p
      \/ exists topicIdx questionIdx code,
           awaited (handleSubmitAnswer_return c outcome p)
           = awaited p ++ [interviewerCall c topicIdx questionIdx code
                             false]).
Proof.
  cbv zeta. unfold handleSubmitAnswer_return.
  destruct outcome as [monitorOutput|].
  - pose proof (processMonitorOutput_keeps c monitorOutput (shown p))
      as (Hplan & Hphase & Hposition & _).
    pose proof (processMonitorOutput_followUpConsistent c monitorOutput
                  (shown p)) as Hfollow.
    destruct (processMonitorOutput c monitorOutput (shown p))
      as [s1 [[t q] code]].
    cbn [fst] in *. cbn [askQuestion_call shown awaited].
    split; [exact Hplan|]. split; [left; exact Hphase|].
    split; [exact Hfollow|]. split; [discriminate|].
    split; [exact Hposition|]. right. eauto.
  - cbn [shown awaited]. repeat split; auto.
Qed.

(** The state shown after an answer is sent. *)
Lemma handleSubmitAnswer_call_shown text code p :
  let s := shown p in
  let p' := handleSubmitAnswer_call text code p in
  p' = p
  \/ (interviewState s = IN_PROGRESS
      /\ interviewPlan (shown p') = interviewPlan s
      /\ position (shown p') = position s
      /\ (followUpConsistent s -> followUpConsistent (shown p'))
      /\ ((interviewState (shown p') = ENDED /\ awaited p' = awaited p)
          \/ (interviewState (shown p') = IN_PROGRESS
              /\ isLoading (shown p') = true
              /\ awaited p' = awaited p ++ [monitorCall s]))).
Proof.
  cbv zeta. unfold handleSubmitAnswer_call.
  destruct (answerTaken (shown p) text code) eqn:Htaken; cbn [negb];
    [|left; reflexivity].
  right. pose proof (answerTaken_in_progress _ _ _ Htaken) as Hphase.
  split; [exact Hphase|].
  destruct (answerContext (shown p)); cbn [shown awaited].
  - split; [reflexivity|]. split; [reflexivity|]. split; [auto|].
    right. repeat split. exact Hphase.
  - split; [reflexivity|]. split; [reflexivity|]. split; [auto|].
    left. split; reflexivity.
Qed.

Lemma takeCall_In i calls call others :
  takeCall i calls = Some (call, others) ->
  In call calls /\ forall other, In other others -> In other calls.
Proof.
  unfold takeCall. destruct (nth_error calls i) as [found|] eqn:Hfound;
    [|discriminate].
  intros H. injection H as <- <-. split.
  - eapply nth_error_In. exact Hfound.
  - intros other Hin. apply in_app_or in Hin as [Hin | Hin].
    + rewrite <- (firstn_skipn i calls). apply in_or_app. left. exact Hin.
    + rewrite <- (firstn_skipn (S i) calls). apply in_or_app. right.
      exact Hin.
Qed.

Lemma callAgrees_keeps s s' call :
  interviewPlan s' = interviewPlan s ->
  (interviewState s' = interviewState s \/ interviewState s' = ENDED) ->
  callAgrees s call -> callAgrees s' call.
Proof.
  intros Hplan Hphase. destruct call; cbn; try congruence.
  destruct Hphase as [-> | ->]; auto.
Qed.

(** One event keeps the page steady. *)
Lemma fire_steady e p p' :
  steady p -> fire e p = Some p' -> steady p'.
Proof.
  intros Hsteady Hfire.
  pose proof Hsteady
    as (Hplan & Hcalls & Hagree & Hfollow & Hstreak & Hposition).
  destruct e as [description planner| |text code|i outcome|i llmResponse|i];
    cbn [fire] in Hfire.
  - (* the start *)
    destruct (awaited p) eqn:Hawaited; [|discriminate].
    injection Hfire as <-. unfold steady. cbn [shown awaited].
    unfold handleStartInterview.
    destruct (description =? "")%string.
    { repeat split; assumption. }
    split; [|split; [congruence|split; [constructor|]]].
    + destruct planner as [plan|]; [destruct (validPlan plan) eqn:Hvalid|];
        cbn; intros [H | [H | H]]; try discriminate.
      exists plan. split; [reflexivity|exact Hvalid].
    + split; [|split].
      * unfold followUpConsistent.
        destruct planner as [plan|]; [destruct (validPlan plan)|];
          cbn; right; repeat split.
      * destruct planner as [plan|]; [destruct (validPlan plan)|];
          cbn; intros; reflexivity.
      * unfold positionInPlan.
        destruct planner as [plan|]; [destruct (validPlan plan)|];
          cbn; intros plan' Hp Hwf; try discriminate.
        injection Hp as <-. apply wellFormed_first_question. exact Hwf.
  - (* the start effect *)
    injection Hfire as <-. unfold startInterviewEffect_call.
    destruct (Phase_eqb (interviewState (shown p)) PLANNING_COMPLETE)
      eqn:Hphase; [|exact Hsteady].
    destruct (interviewPlan (shown p)) as [plan|] eqn:Hp;
      [|exact Hsteady].
    assert (Hcomplete : interviewState (shown p) = PLANNING_COMPLETE)
      by (destruct (interviewState (shown p)); try discriminate;
          reflexivity).
    assert (Hnone : awaited p = []).
    { destruct (awaited p); [reflexivity|].
      destruct Hcalls as [H | H]; [discriminate| |]; congruence. }
    unfold steady. cbn [askQuestion_call shown awaited]. rewrite Hnone.
    split; [|split; [|split; [|split; [|split]]]].
    + intros _. cbn. rewrite Hp. apply Hplan. left. exact Hcomplete.
    + intros _. left. reflexivity.
    + constructor; [reflexivity|constructor].
    + unfold followUpConsistent. cbn. right. repeat split.
    + cbn. discriminate.
    + unfold positionInPlan. cbn. intros plan' Hp' Hwf.
      rewrite Hp in Hp'. injection Hp' as <-.
      apply wellFormed_first_question. exact Hwf.
  - (* an answer is sent *)
    injection Hfire as <-.
    destruct (handleSubmitAnswer_call_shown text code p)
      as [-> | (Hphase & Hp & Hpos & Hf & Hcase)];
      [exact Hsteady|].
    unfold steady.
    split; [|split; [|split; [|split; [|split]]]].
    + intros _. rewrite Hp. apply Hplan. right; left. exact Hphase.
    + intros _. destruct Hcase as [(H & _) | (H & _)]; auto.
    + destruct Hcase as [(Hended & ->) | (Hprogress & _ & ->)].
      * eapply Forall_impl; [|exact Hagree].
        intros call. apply callAgrees_keeps; [exact Hp|right; exact Hended].
      * apply Forall_app. split.
        -- eapply Forall_impl; [|exact Hagree].
           intros call. apply callAgrees_keeps; [exact Hp|left; congruence].
        -- constructor; [cbn; symmetry; exact Hp|constructor].
    + apply Hf. exact Hfollow.
    + destruct Hcase as [(H & _) | (_ & H & _)]; intros; congruence.
    + unfold positionInPlan in *. unfold position in Hpos.
      injection Hpos as -> ->. rewrite Hp. exact Hposition.
  - (* the monitor returns *)
    destruct (takeCall i (awaited p)) as [[call others]|] eqn:Htake;
      [|discriminate].
    destruct call as [c| |]; try discriminate. injection Hfire as <-.
    destruct (takeCall_In _ _ _ _ Htake) as [Hin Hothers].
    assert (Hrunning : interviewState (shown p) = IN_PROGRESS
                       \/ interviewState (shown p) = ENDED)
      by (apply Hcalls; intros E; rewrite E in Hin; contradiction).
    rewrite Forall_forall in Hagree.
    destruct (handleSubmitAnswer_return_shown c outcome
                {| shown := shown p; awaited := others |})
      as (Hp & Hphase & Hf & Hloading & Hpos & Hawaited).
    cbn [shown awaited] in *. unfold steady.
    split; [|split; [|split; [|split; [|split]]]].
    + intros _. rewrite Hp. apply Hplan. tauto.
    + intros _. destruct Hphase as [-> | ->]; auto.
    + assert (Hold : Forall
                       (callAgrees
                          (shown (handleSubmitAnswer_return c outcome
                                    {| shown := shown p;
                                       awaited := others |}))) others).
      { apply Forall_forall. intros call Hcall.
        apply (callAgrees_keeps (shown p)); [exact Hp|exact Hphase|].
        apply Hagree. apply Hothers. exact Hcall. }
      destruct Hawaited as [-> | (t & q & code & ->)]; [exact Hold|].
      apply Forall_app. split; [exact Hold|].
      constructor; [|constructor]. cbn. rewrite Hp.
      exact (Hagree _ Hin).
    + apply Hf. exact Hfollow.
    + intros H. apply Hloading in H. congruence.
    + unfold positionInPlan in *. unfold position in Hpos.
      injection Hpos as -> ->. rewrite Hp. exact Hposition.
  - (* the interviewer returns *)
    destruct (takeCall i (awaited p)) as [[call others]|] eqn:Htake;
      [|discriminate].
    destruct call as [|c t q code fe|]; try discriminate.
    injection Hfire as <-.
    destruct (takeCall_In _ _ _ _ Htake) as [Hin Hothers].
    assert (Hrunning : interviewState (shown p) = IN_PROGRESS
                       \/ interviewState (shown p) = ENDED)
      by (apply Hcalls; intros E; rewrite E in Hin; contradiction).
    rewrite Forall_forall in Hagree.
    pose proof (Hagree _ Hin) as Hc. cbn in Hc.
    destruct (askQuestion_return_shown c t q code fe llmResponse
                {| shown := shown p; awaited := others |})
      as (Hp & Hphase & Hf & Hzero & Hpos).
    pose proof (askQuestion_return_awaited c t q code fe llmResponse
                  {| shown := shown p; awaited := others |}) as Hawaited.
    cbn [shown awaited] in *. unfold steady.
    split; [|split; [|split; [|split; [|split]]]].
    + intros _. rewrite Hp. apply Hplan. tauto.
    + intros _. destruct Hphase as [-> | ->]; auto.
    + assert (Hold : Forall
                       (callAgrees
                          (shown (askQuestion_return c t q code fe
                                    llmResponse
                                    {| shown := shown p;
                                       awaited := others |}))) others).
      { apply Forall_forall. intros call Hcall.
        apply (callAgrees_keeps (shown p)); [exact Hp|exact Hphase|].
        apply Hagree. apply Hothers. exact Hcall. }
      destruct Hawaited
        as [-> | [(ft & fq & fa & _ & -> & _) | (-> & Hended)]];
        [exact Hold| |].
      * apply Forall_app. split; [exact Hold|].
        constructor; [|constructor]. cbn. rewrite Hp. exact Hc.
      * apply Forall_app. split; [exact Hold|].
        constructor; [exact Hended|constructor].
    + apply Hf. exact Hfollow.
    + exact Hzero.
    + apply Hpos; assumption.
  - (* the closing statement returns *)
    destruct (takeCall i (awaited p)) as [[call others]|] eqn:Htake;
      [|discriminate].
    destruct call; try discriminate. injection Hfire as <-.
    destruct (takeCall_In _ _ _ _ Htake) as [Hin Hothers].
    rewrite Forall_forall in Hagree.
    pose proof (Hagree _ Hin) as Hended. cbn in Hended.
    unfold steady. cbn [shown awaited].
    split; [|split; [|split; [|split; [|split]]]].
    + exact Hplan.
    + intros _. right. exact Hended.
    + apply Forall_forall. intros call Hcall.
      apply (callAgrees_keeps (shown p)); [reflexivity|left; reflexivity|].
      apply Hagree. apply Hothers. exact Hcall.
    + exact Hfollow.
    + cbn. intros _ _ H. congruence.
    + exact Hposition.
Qed.

Lemma session_steady p : session p -> steady p.
Proof.
  induction 1 as [|p e p' _ IH Hfire].
  - unfold steady. cbn. split; [intros [H | [H | H]]; discriminate|].
    split; [congruence|]. split; [constructor|].
    split; [right; repeat split|]. split; [reflexivity|].
    unfold positionInPlan. cbn. discriminate.
  - eapply fire_steady; eassumption.
Qed.

(** X23.  On every page a session can show, whether calls overlap or not:
    once planning is complete there is a plan that passed the check of
    [handleStartInterview], and the closure of every call awaited holds it;
    the state variables of a follow-up agree, and with nothing loading, no
    follow-up active and the interview not ended the streak is 0; on a
    well-formed plan the current position holds a question, so an answer is
    never left without a question. *)
Theorem every_page_is_steady :
  forall p,
    session p ->
    (interviewState (shown p) = PLANNING_COMPLETE
     \/ interviewState (shown p) = IN_PROGRESS
     \/ interviewState (shown p) = ENDED ->
     exists plan,
       interviewPlan (shown p) = Some plan /\ validPlan plan = true)
    /\ (forall c topicIdx questionIdx code forceEnd,
          In (monitorCall c) (awaited p)
          \/ In (interviewerCall c topicIdx questionIdx code forceEnd)
               (awaited p) ->
          interviewPlan c = interviewPlan (shown p))
    /\ followUpConsistent (shown p)
    /\ (isLoading (shown p) = false ->
        isFollowUpActive (shown p) = false ->
        interviewState (shown p) <> ENDED ->
        currentFollowUpStreak (shown p) = 0)
    /\ (forall plan,
          interviewPlan (shown p) = Some plan ->
          wellFormed plan = true ->
          hasQuestion (Some plan) (currentTopicIndex (shown p))
            (currentQuestionIndex (shown p)) = true
          /\ answerContext (shown p) <> None).
Proof.
  intros p Hp.
  destruct (session_steady p Hp)
    as (Hplan & _ & Hagree & Hfollow & Hstreak & Hposition).
  split; [exact Hplan|]. split; [|split; [exact Hfollow|split]].
  - rewrite Forall_forall in Hagree.
    intros c t q code fe [Hin | Hin]; exact (Hagree _ Hin).
  - exact Hstreak.
  - intros plan Hplan' Hwf.
    pose proof (Hposition plan Hplan' Hwf) as Hhas.
    split; [exact Hhas|].
    unfold answerContext.
    destruct (isFollowUpActive (shown p)), (pausedState (shown p));
      try discriminate; rewrite Hplan', Hhas; discriminate.
Qed.

Lemma every_page_is_steady_witness :
  exists window,
    fireAll initialPage Overlap.toWindow = Some window
    /\ awaited window <> []
    /\ isLoading (shown window) = false
    /\ currentFollowUpStreak (shown window) = 0
    /\ answerContext (shown window) <> None.
Proof.
  assert (E : exists window,
             fireAll initialPage Overlap.toWindow = Some window
             /\ awaited window <> []
             /\ isLoading (shown window) = false
             /\ isFollowUpActive (shown window) = false
             /\ interviewState (shown window) <> ENDED
             /\ interviewPlan (shown window) = Some Overlap.plan)
    by (eexists; split; [vm_compute; reflexivity|];
        repeat split; discriminate).
  destruct E as (window & Hfire & Hawaited & Hloading & Hactive & Hphase
                 & Hplan).
  assert (Hsession : session window)
    by (eapply fireAll_session; [exact session_initial|exact Hfire]).
  destruct (every_page_is_steady window Hsession)
    as (_ & _ & _ & Hstreak & Hposition).
  exists window. split; [exact Hfire|]. split; [exact Hawaited|].
  split; [exact Hloading|]. split; [exact (Hstreak Hloading Hactive Hphase)|].
  exact (proj2 (Hposition Overlap.plan Hplan eq_refl)).
Defined.
